(** * Resolution engine of the dependency-injection container

    Shallow embedding of the classes [Container] and [Observer] of
    [src/container.ts], of the class [DIContainer] of [dicontainer.ts]
    ([src/unnamed/part_008]), of the registry and resolution methods of the
    class [Container] of [src/mod.ts], and of the error classes of
    [src/errors.ts]; the types are those of [types.ts]
    ([src/unnamed/part_000]).

    - Containers are JavaScript objects with identity that point at each
      other (parent, children) and are mutated in place: they live in a
      store, indexed by reference, and every method is a state-passing
      function on that store.  Binding records are objects too (the
      singleton build writes [binding.instance] on the record it looked up
      before the factory ran), so they have their own part of the store.
    - Factories, givers and middlewares are user code that calls back into
      the container.  The store keeps references to them and a [Program]
      maps each reference to a Rocq function, which receives the
      container's [resolve] as a callback.  The recursion between [resolve]
      and user code is cut by a fuel argument; running out of fuel is an
      outcome of its own, distinct from returning and from throwing.
    - Values are the JavaScript values the engine tells apart: the falsy
      primitives, objects with an identity and possibly a [dispose] method,
      the stand-in for a cyclic dependency, and rejected promises.  A
      [dispose] method is user code of the [Program] as well; its calls
      are observed through a log of the objects it was called on.
    - [Container] and [DIContainer] share their code except in two places
      of [resolve]; one definition with an [Implementation] parameter
      covers both.

    Not covered: [resolveAsync] (the values have no promise that
    fulfils), and in [src/mod.ts] the methods built on [Proxy] and on zod
    ([register], [registerFunction], [createInstance], [call],
    [resolveAll] and the custom error handlers). *)

From Stdlib Require Import List String ZArith Bool Arith Lia DecimalString.
Import ListNotations.
Local Open Scope string_scope.
Local Open Scope list_scope.

Set Implicit Arguments.
Set Warnings "-register-all".

(** ** Identifiers: [type Bindable = string | symbol | Function | object] *)

Inductive Bindable : Type :=
| BString (s : string)
| BSymbol (id : nat) (description : string)
| BFunction (id : nat) (name : string) (source : string)
| BObject (id : nat) (constructorName : string).

Definition Bindable_eq_dec (a b : Bindable) : {a = b} + {a <> b}.
Proof.
  decide equality; first [ apply string_dec | apply Nat.eq_dec ].
Defined.

(** Key equality of [Map], [Array.prototype.includes] and [===] on
    identifiers. *)
Definition Bindable_eqb (a b : Bindable) : bool :=
  if Bindable_eq_dec a b then true else false.

(** JavaScript truthiness of an identifier: only the empty string is falsy. *)
Definition truthyB (b : Bindable) : bool :=
  match b with
  | BString s => negb (String.eqb s "")
  | _ => true
  end.

(** [String(abstract)] *)
Definition String_ (b : Bindable) : string :=
  match b with
  | BString s => s
  | BSymbol _ d => "Symbol(" ++ d ++ ")"
  | BFunction _ _ src => src
  | BObject _ _ => "[object Object]"
  end.

(** ** Errors ([src/errors.ts]) *)

Inductive Error : Type :=
| InvalidAliasError (alias : string)
| InvalidTagError (tag : string)
| InvalidContextualBindingError (serviceName dependencyName : string)
| CircularDependencyError (dependencyChain : list string)
| UnresolvedDependencyError (type : Bindable)
| InvalidSchemaError (message : string)
| ZodError (message : string)
| TypeError (message : string)
| JsError (message : string).

(** [typeName] as computed by the constructor of [UnresolvedDependencyError]
    (errors.ts:149-159). *)
Definition typeName (type : Bindable) : string :=
  match type with
  | BFunction _ name _ => if String.eqb name "" then "Anonymous Function" else name
  | BSymbol _ d => "Symbol(" ++ d ++ ")"
  | BObject _ cn => if String.eqb cn "" then "Anonymous Object" else cn
  | BString s => s
  end.

Fixpoint join (sep : string) (l : list string) : string :=
  match l with
  | [] => ""
  | [x] => x
  | x :: r => x ++ sep ++ join sep r
  end.

(** The [message] each error class passes to [super]. *)
Definition message (e : Error) : string :=
  match e with
  | InvalidAliasError alias =>
      "No alias found for: " ++ alias
      ++ ". Make sure you have created this alias using the 'alias' method."
  | InvalidContextualBindingError serviceName dependencyName =>
      "Invalid contextual binding for " ++ serviceName ++ ": '" ++ dependencyName
      ++ "' is undefined. Ensure that you're providing a valid value or factory function for the contextual binding."
  | InvalidTagError tag =>
      "No bindings found for tag: '" ++ tag
      ++ "'. Make sure you have tagged some bindings with this tag using the 'tag' method."
  | CircularDependencyError chain =>
      "Circular dependency detected: " ++ join " -> " chain
      ++ ". Break the circular dependency by redesigning your classes or using a factory function."
  | UnresolvedDependencyError type =>
      "No binding found for the given type: " ++ typeName type
  | InvalidSchemaError m => m
  | ZodError m => m
  | TypeError m => m
  | JsError m => m
  end.

(** ** Values

    Objects carry the reference that gives them identity, whether they expose
    a [dispose] method, and the values they were constructed from.  The
    stand-in that [Container.resolve] hands out on a cycle (container.ts:169)
    remembers the container and identifier its [get] trap closes over. *)

Inductive Value : Type :=
| VUndefined
| VNull
| VBoolean (b : bool)
| VNumber (n : Z)
| VString (s : string)
| VObject (ref : nat) (hasDispose : bool) (fields : list Value)
| VCircularProxy (ref : nat) (owner : nat) (abstract : Bindable)
| VRejectedPromise (ref : nat) (reason : Error).

Definition truthy (v : Value) : bool :=
  match v with
  | VUndefined | VNull => false
  | VBoolean b => b
  | VNumber n => negb (Z.eqb n 0)
  | VString s => negb (String.eqb s "")
  | _ => true
  end.

(** [typeof v.dispose === 'function'] for a truthy [v]: the proxy's [get] trap
    answers every string property other than [then] with a function. *)
Definition hasDisposeFunction (v : Value) : bool :=
  match v with
  | VObject _ d _ => d
  | VCircularProxy _ _ _ => true
  | _ => false
  end.

(** ** [Map]: association list in insertion order, keys compared by [eqb] *)

Section JsMap.
Variables K V : Type.
Variable eqb : K -> K -> bool.

Fixpoint map_get (m : list (K * V)) (k : K) : option V :=
  match m with
  | [] => None
  | (k', v) :: r => if eqb k k' then Some v else map_get r k
  end.

Definition map_has (m : list (K * V)) (k : K) : bool :=
  match map_get m k with Some _ => true | None => false end.

(** [Map.prototype.set]: an existing key keeps its position. *)
Fixpoint map_set (m : list (K * V)) (k : K) (v : V) : list (K * V) :=
  match m with
  | [] => [(k, v)]
  | (k', v') :: r => if eqb k k' then (k, v) :: r else (k', v') :: map_set r k v
  end.
End JsMap.

(** ** The store *)

Definition ContainerRef := nat.
Definition BindingRef := nat.
Definition FactoryRef := nat.
Definition MiddlewareRef := nat.

Inductive Lifetime : Type := Singleton | Transient | Scoped.

Definition Lifetime_eqb (a b : Lifetime) : bool :=
  match a, b with
  | Singleton, Singleton | Transient, Transient | Scoped, Scoped => true
  | _, _ => false
  end.

(** The three closures stored in [Binding.resolver]. *)
Inductive Resolver : Type :=
| ResolverOfBind                       (* (container) => factory(container) *)
| ResolverIsFactory                    (* resolver: factory *)
| ResolverOfScoped (abstract : Bindable). (* the closure built by [scoped] *)

Record Binding : Type := mkBinding {
  factory : FactoryRef;
  lifetime : Lifetime;
  instance : Value;            (* [instance?: any]; absent reads [undefined] *)
  resolver : Resolver
}.

(** [give: Function | any] *)
Inductive Giver : Type :=
| GiveFunction (f : FactoryRef)
| GiveValue (v : Value).

Record ContextualBinding : Type := mkContextualBinding {
  when_ : Bindable;
  need : Bindable;
  give : Giver
}.

Record Container : Type := mkContainer {
  bindings : list (Bindable * BindingRef);
  instances : list (Bindable * Value);
  aliases : list (Bindable * Bindable);
  tags : list (string * list Bindable);
  contextualBindings : list (Bindable * list ContextualBinding);
  resolvingStack : list Bindable;
  parent : option ContainerRef;
  children : list ContainerRef;
  middlewares : list MiddlewareRef
}.

(** [new Container()] *)
Definition emptyContainer : Container :=
  mkContainer [] [] [] [] [] [] None [] [].

Record State : Type := mkState {
  containers : list Container;     (* container objects, by reference *)
  bindingObjects : list Binding;   (* binding records, by reference *)
  nextObject : nat;                (* next fresh object reference *)
  indexCells : list Z;             (* the [index] local of each
                                      [applyMiddleware] activation *)
  disposeLog : list nat            (* objects whose [dispose] ran, in order *)
}.

Definition emptyState : State := mkState [] [] 0 [] [].

(** ** Outcomes and the state monad *)

Inductive Result (A : Type) : Type :=
| Ok (a : A) (s : State)
| Throw (e : Error) (s : State)
| OutOfFuel.
Arguments Ok {A} a s.
Arguments Throw {A} e s.
Arguments OutOfFuel {A}.

Definition M (A : Type) : Type := State -> Result A.

Definition ret {A} (a : A) : M A := fun s => Ok a s.

Definition bind_ {A B} (m : M A) (k : A -> M B) : M B :=
  fun s => match m s with
           | Ok a s' => k a s'
           | Throw e s' => Throw e s'
           | OutOfFuel => OutOfFuel
           end.

Definition throw {A} (e : Error) : M A := fun s => Throw e s.

Notation "x <- m ;; k" := (bind_ m (fun x => k))
  (at level 61, m at next level, right associativity).
Notation "m ;;; k" := (bind_ m (fun _ => k))
  (at level 61, right associativity).

(** [try { body } finally { cleanup }] with a cleanup that cannot throw. *)
Definition finally_ {A} (body : M A) (cleanup : State -> State) : M A :=
  fun s => match body s with
           | Ok a s' => Ok a (cleanup s')
           | Throw e s' => Throw e (cleanup s')
           | OutOfFuel => OutOfFuel
           end.

(** [try { body } catch (err) { handler(err) }] *)
Definition catch_ {A} (body : M A) (handler : Error -> M A) : M A :=
  fun s => match body s with
           | Ok a s' => Ok a s'
           | Throw e s' => handler e s'
           | OutOfFuel => OutOfFuel
           end.

Fixpoint mapM {A B} (f : A -> M B) (l : list A) : M (list B) :=
  match l with
  | [] => ret []
  | a :: r => b <- f a ;; bs <- mapM f r ;; ret (b :: bs)
  end.

Fixpoint forEachM {A} (f : A -> M unit) (l : list A) : M unit :=
  match l with
  | [] => ret tt
  | a :: r => f a ;;; forEachM f r
  end.

(** [for (const x of xs) body(x)] over a collection [xs] that lives in the
    store.  The iterator goes by position in the collection as it is at
    each step, so entries that the body appends are visited as well;
    [fuel] bounds the number of rounds. *)
Fixpoint forOf {A} (fuel : nat) (items : State -> list A)
         (body : A -> M unit) (i : nat) : M unit :=
  fun st =>
    match nth_error (items st) i with
    | None => Ok tt st
    | Some a =>
        match fuel with
        | O => OutOfFuel
        | S n => (body a ;;; forOf n items body (S i)) st
        end
    end.

(** ** Store access *)

Fixpoint list_upd {A} (l : list A) (i : nat) (a : A) : list A :=
  match l, i with
  | [], _ => []
  | _ :: r, O => a :: r
  | x :: r, S j => x :: list_upd r j a
  end.

Definition getC (st : State) (c : ContainerRef) : Container :=
  nth c (containers st) emptyContainer.

Definition setC (st : State) (c : ContainerRef) (k : Container) : State :=
  mkState (list_upd (containers st) c k) (bindingObjects st)
          (nextObject st) (indexCells st) (disposeLog st).

Definition getB (st : State) (r : BindingRef) : option Binding :=
  nth_error (bindingObjects st) r.

Definition setB (st : State) (r : BindingRef) (b : Binding) : State :=
  mkState (containers st) (list_upd (bindingObjects st) r b)
          (nextObject st) (indexCells st) (disposeLog st).

Definition allocB (st : State) (b : Binding) : BindingRef * State :=
  (List.length (bindingObjects st),
   mkState (containers st) (bindingObjects st ++ [b])
           (nextObject st) (indexCells st) (disposeLog st)).

Definition allocC (st : State) (k : Container) : ContainerRef * State :=
  (List.length (containers st),
   mkState (containers st ++ [k]) (bindingObjects st)
           (nextObject st) (indexCells st) (disposeLog st)).

Definition freshRef : M nat :=
  fun st => Ok (nextObject st)
               (mkState (containers st) (bindingObjects st)
                        (S (nextObject st)) (indexCells st) (disposeLog st)).

(** [new T(...fields)] in a factory: a fresh object. *)
Definition newObject (hasDispose : bool) (fields : list Value) : M Value :=
  r <- freshRef ;; ret (VObject r hasDispose fields).

Definition logDispose (r : nat) : M unit :=
  fun st => Ok tt (mkState (containers st) (bindingObjects st)
                           (nextObject st) (indexCells st)
                           (disposeLog st ++ [r])).

(** Field updates of a container object. *)
Definition set_bindings (k : Container) x : Container :=
  mkContainer x (instances k) (aliases k) (tags k) (contextualBindings k)
              (resolvingStack k) (parent k) (children k) (middlewares k).
Definition set_instances (k : Container) x : Container :=
  mkContainer (bindings k) x (aliases k) (tags k) (contextualBindings k)
              (resolvingStack k) (parent k) (children k) (middlewares k).
Definition set_aliases (k : Container) x : Container :=
  mkContainer (bindings k) (instances k) x (tags k) (contextualBindings k)
              (resolvingStack k) (parent k) (children k) (middlewares k).
Definition set_tags (k : Container) x : Container :=
  mkContainer (bindings k) (instances k) (aliases k) x (contextualBindings k)
              (resolvingStack k) (parent k) (children k) (middlewares k).
Definition set_contextualBindings (k : Container) x : Container :=
  mkContainer (bindings k) (instances k) (aliases k) (tags k) x
              (resolvingStack k) (parent k) (children k) (middlewares k).
Definition set_resolvingStack (k : Container) x : Container :=
  mkContainer (bindings k) (instances k) (aliases k) (tags k)
              (contextualBindings k) x (parent k) (children k) (middlewares k).
Definition set_parent (k : Container) x : Container :=
  mkContainer (bindings k) (instances k) (aliases k) (tags k)
              (contextualBindings k) (resolvingStack k) x (children k)
              (middlewares k).
Definition set_children (k : Container) x : Container :=
  mkContainer (bindings k) (instances k) (aliases k) (tags k)
              (contextualBindings k) (resolvingStack k) (parent k) x
              (middlewares k).
Definition set_middlewares (k : Container) x : Container :=
  mkContainer (bindings k) (instances k) (aliases k) (tags k)
              (contextualBindings k) (resolvingStack k) (parent k)
              (children k) x.

(** ** User code *)

(** [container.resolve] as user code sees it. *)
Definition ResolveFn : Type :=
  ContainerRef -> Bindable -> option Bindable -> M Value.

(** A factory or giver function, called as [f(container, context)]. *)
Definition Factory : Type :=
  ResolveFn -> ContainerRef -> option Bindable -> M Value.

(** [type Middleware = (next: () => any) => any] *)
Definition Middleware : Type := ResolveFn -> M Value -> M Value.

(** The body of the [dispose()] method of an object.  It takes no argument,
    but like any user code it may throw, call back into a container or
    change whatever it can reach. *)
Definition Hook : Type := ResolveFn -> M unit.

Record Program : Type := mkProgram {
  factoryCode : FactoryRef -> Factory;
  middlewareCode : MiddlewareRef -> Middleware;
  disposeCode : nat -> Hook     (* by reference of the object *)
}.

(** [schema.parse(instance)]: [None] when the value conforms, otherwise the
    message of the [ZodError] it throws. *)
Definition Schema : Type := Value -> option string.

(** The two classes that share this code. *)
Inductive Implementation : Type :=
| ContainerTs      (* class Container, container.ts *)
| DIContainerTs.   (* class DIContainer, dicontainer.ts *)

(** ** The container methods *)

Section Engine.
Variable impl : Implementation.
Variable P : Program.

(** [new Container()] *)
Definition newContainer : M ContainerRef :=
  fun st => let (c, st') := allocC st emptyContainer in Ok c st'.

Definition registerBinding (c : ContainerRef) (abstract : Bindable)
           (b : Binding) : M unit :=
  fun st =>
    let (r, st1) := allocB st b in
    let k := getC st1 c in
    Ok tt (setC st1 c (set_bindings k (map_set Bindable_eqb (bindings k) abstract r))).

(** [singleton(abstract, factory)] (container.ts:84-91) *)
Definition singleton (c : ContainerRef) (abstract : Bindable)
           (f : FactoryRef) : M unit :=
  registerBinding c abstract (mkBinding f Singleton VUndefined ResolverIsFactory).

(** [transient(abstract, factory)] (container.ts:347-354) *)
Definition transient (c : ContainerRef) (abstract : Bindable)
           (f : FactoryRef) : M unit :=
  registerBinding c abstract (mkBinding f Transient VUndefined ResolverIsFactory).

(** [scoped(abstract, factory)] (container.ts:368-382) *)
Definition scoped (c : ContainerRef) (abstract : Bindable)
           (f : FactoryRef) : M unit :=
  registerBinding c abstract
                  (mkBinding f Scoped VUndefined (ResolverOfScoped abstract)).

Definition instancesSet (c : ContainerRef) (abstract : Bindable)
           (v : Value) : M unit :=
  fun st =>
    let k := getC st c in
    Ok tt (setC st c (set_instances k (map_set Bindable_eqb (instances k) abstract v))).

(** [instance(abstract, instance)] (container.ts:105-108) *)
Definition instance_ (c : ContainerRef) (abstract : Bindable)
           (v : Value) : M unit :=
  instancesSet c abstract v.

(** [alias(alias, abstract)] (container.ts:121-123) *)
Definition alias (c : ContainerRef) (al : Bindable) (abstract : Bindable)
  : M unit :=
  fun st =>
    let k := getC st c in
    Ok tt (setC st c (set_aliases k (map_set Bindable_eqb (aliases k) al abstract))).

(** [tag(abstracts, tag)] (container.ts:137-143): the members are appended
    to those the tag already has. *)
Definition tag (c : ContainerRef) (abstracts : list Bindable) (t : string)
  : M unit :=
  fun st =>
    let k := getC st c in
    let tags1 := if map_has String.eqb (tags k) t then tags k
                 else map_set String.eqb (tags k) t [] in
    let members := match map_get String.eqb tags1 t with
                   | Some l => l
                   | None => []
                   end in
    Ok tt (setC st c (set_tags k (map_set String.eqb tags1 t (members ++ abstracts)))).

(** [when(concrete).needs(need).give(give)] (container.ts:516-525) *)
Definition give_ (c : ContainerRef) (concrete need_ : Bindable) (g : Giver)
  : M unit :=
  fun st =>
    let k := getC st c in
    let cb1 := if map_has Bindable_eqb (contextualBindings k) concrete
               then contextualBindings k
               else map_set Bindable_eqb (contextualBindings k) concrete [] in
    let entries := match map_get Bindable_eqb cb1 concrete with
                   | Some l => l
                   | None => []
                   end in
    Ok tt (setC st c (set_contextualBindings k
             (map_set Bindable_eqb cb1 concrete
                      (entries ++ [mkContextualBinding concrete need_ g])))).

(** [use(middleware)] (container.ts:420-422) *)
Definition use (c : ContainerRef) (m : MiddlewareRef) : M unit :=
  fun st =>
    let k := getC st c in
    Ok tt (setC st c (set_middlewares k (middlewares k ++ [m]))).

(** [createScope()] (container.ts:287-292) *)
Definition createScope (c : ContainerRef) : M ContainerRef :=
  fun st =>
    let (child, st1) := allocC st (set_parent emptyContainer (Some c)) in
    let k := getC st1 c in
    Ok child (setC st1 c (set_children k (children k ++ [child]))).

(** [createChild()] (container.ts:329-333): as [createScope], but the
    parent does not record the child. *)
Definition createChild (c : ContainerRef) : M ContainerRef :=
  fun st =>
    let (child, st1) := allocC st (set_parent emptyContainer (Some c)) in
    Ok child st1.

(** [getAlias(abstract)] (container.ts:439-444) *)
Definition getAlias (k : Container) (abstract : Bindable) : Bindable :=
  match abstract with
  | BString _ | BSymbol _ _ =>
      match map_get Bindable_eqb (aliases k) abstract with
      | Some target => if truthyB target then target else abstract
      | None => abstract
      end
  | _ => abstract
  end.

Definition includes (abstract : Bindable) (stack : list Bindable) : bool :=
  existsb (Bindable_eqb abstract) stack.

Definition pushStack (c : ContainerRef) (abstract : Bindable) (st : State)
  : State :=
  let k := getC st c in
  setC st c (set_resolvingStack k (resolvingStack k ++ [abstract])).

Definition popStack (c : ContainerRef) (st : State) : State :=
  let k := getC st c in
  setC st c (set_resolvingStack k (removelast (resolvingStack k))).

(** Calling [binding.resolver(container, context)]. *)
Definition runResolver (self : ResolveFn) (b : Binding) (c : ContainerRef)
           (context : option Bindable) : M Value :=
  match resolver b with
  | ResolverOfBind => factoryCode P (factory b) self c None
  | ResolverIsFactory => factoryCode P (factory b) self c context
  | ResolverOfScoped abstract =>
      fun st =>
        match map_get Bindable_eqb (instances (getC st c)) abstract with
        | Some v => Ok v st
        | None =>
            (instance <- factoryCode P (factory b) self c None ;;
             instancesSet c abstract instance ;;;
             ret instance) st
        end
  end.

(** [build(binding, context)] (container.ts:435-437) *)
Definition build (self : ResolveFn) (b : Binding) (c : ContainerRef)
           (context : option Bindable) : M Value :=
  runResolver self b c context.

(** The contextual lookup of [resolve] (container.ts:198-206); [undefined]
    when nothing overrides. *)
Definition contextualOverride (self : ResolveFn) (c : ContainerRef)
           (abstract : Bindable) (context : option Bindable) : M Value :=
  fun st =>
    match context with
    | Some ctx =>
        if truthyB ctx then
          let entries :=
            match map_get Bindable_eqb (contextualBindings (getC st c)) ctx with
            | Some l => l
            | None => []
            end in
          match find (fun b => Bindable_eqb (need b) abstract) entries with
          | Some cb =>
              match give cb with
              | GiveFunction g => factoryCode P g self c None st
              | GiveValue v => Ok v st
              end
          | None => Ok VUndefined st
          end
        else Ok VUndefined st
    | None => Ok VUndefined st
    end.

Definition rejectedPromise (e : Error) : M Value :=
  r <- freshRef ;; ret (VRejectedPromise r e).

Definition allocCell (st : State) : nat * State :=
  (List.length (indexCells st),
   mkState (containers st) (bindingObjects st) (nextObject st)
           (indexCells st ++ [(-1)%Z]) (disposeLog st)).

Definition setCell (st : State) (cell : nat) (i : Z) : State :=
  mkState (containers st) (bindingObjects st) (nextObject st)
          (list_upd (indexCells st) cell i) (disposeLog st).

(** [dispatch(i)] inside [applyMiddleware] (container.ts:448-459); [cell]
    holds the [index] variable the closure captured and [instance] is what
    the final thunk [() => instance] returns. *)
Fixpoint dispatch (fuel : nat) (self : ResolveFn) (c : ContainerRef)
         (cell : nat) (instance : Value) (i : nat) : M Value :=
  fun st =>
    if (Z.of_nat i <=? nth cell (indexCells st) (-1))%Z
    then rejectedPromise (JsError "next() called multiple times") st
    else
      let st1 := setCell st cell (Z.of_nat i) in
      let mws := middlewares (getC st1 c) in
      if Nat.eqb i (List.length mws) then Ok instance st1
      else
        match nth_error mws i with
        | None => Ok VUndefined st1
        | Some m =>
            let next : M Value :=
              match fuel with
              | O => fun _ => OutOfFuel
              | S n => dispatch n self c cell instance (S i)
              end in
            catch_ (middlewareCode P m self next) rejectedPromise st1
        end.

(** [applyMiddleware(() => instance)] (container.ts:446-461) *)
Definition applyMiddleware (fuel : nat) (self : ResolveFn) (c : ContainerRef)
           (instance : Value) : M Value :=
  fun st =>
    let (cell, st1) := allocCell st in
    dispatch fuel self c cell instance 0 st1.

Definition lookupBinding (st : State) (c : ContainerRef) (abstract : Bindable)
  : option (BindingRef * Binding) :=
  match map_get Bindable_eqb (bindings (getC st c)) abstract with
  | Some r => match getB st r with
              | Some b => Some (r, b)
              | None => None
              end
  | None => None
  end.

Definition setBindingInstance (r : BindingRef) (v : Value) : M unit :=
  fun st =>
    match getB st r with
    | Some b => Ok tt (setB st r (mkBinding (factory b) (lifetime b) v (resolver b)))
    | None => Ok tt st
    end.

(** What [resolve] does when the identifier is already on the resolving
    stack: the one place where the two classes differ in this method
    (container.ts:167-181 against dicontainer.ts:146-148). *)
Definition onCycle (c : ContainerRef) (abstract : Bindable) : M Value :=
  match impl with
  | ContainerTs => r <- freshRef ;; ret (VCircularProxy r c abstract)
  | DIContainerTs =>
      fun st =>
        Throw (CircularDependencyError
                 (map String_ (resolvingStack (getC st c) ++ [abstract]))) st
  end.

(** The lifetime dispatch of [resolve] once the binding is found
    (container.ts:194-216, dicontainer.ts:161-186). *)
Definition instantiate (self : ResolveFn) (c : ContainerRef)
           (abstract : Bindable) (context : option Bindable)
           (r : BindingRef) (b : Binding) : M Value :=
  if Lifetime_eqb (lifetime b) Singleton && truthy (instance b)
  then ret (instance b)
  else
    match impl, lifetime b with
    | DIContainerTs, Scoped => runResolver self b c None
    | _, _ =>
        given <- contextualOverride self c abstract context ;;
        instance <- (if truthy given then ret given
                     else build self b c context) ;;
        (if Lifetime_eqb (lifetime b) Singleton
         then setBindingInstance r instance ;;;
              instancesSet c abstract instance
         else ret tt) ;;;
        ret instance
    end.

(** The [try] block of [resolve] (container.ts:185-218). *)
Definition resolveTry (self : ResolveFn) (fuel : nat) (c : ContainerRef)
           (originalAbstract abstract : Bindable) (context : option Bindable)
  : M Value :=
  fun st =>
    match lookupBinding st c abstract with
    | None =>
        match parent (getC st c) with
        | Some p => self p originalAbstract None st
        | None => Throw (UnresolvedDependencyError originalAbstract) st
        end
    | Some (r, b) =>
        (instance <- instantiate self c abstract context r b ;;
         applyMiddleware fuel self c instance) st
    end.

(** One activation of [resolve(abstract, context)] (container.ts:159-222);
    [self] is [resolve] for the calls made from inside. *)
Definition resolveStep (self : ResolveFn) (fuel : nat) : ResolveFn :=
  fun c abstract0 context st =>
    let originalAbstract := abstract0 in
    let abstract := getAlias (getC st c) abstract0 in
    match map_get Bindable_eqb (instances (getC st c)) abstract with
    | Some v => Ok v st
    | None =>
        if includes abstract (resolvingStack (getC st c))
        then onCycle c abstract st
        else
          finally_ (resolveTry self fuel c originalAbstract abstract context)
                   (popStack c)
                   (pushStack c abstract st)
    end.

Fixpoint resolve (fuel : nat) : ResolveFn :=
  match fuel with
  | O => fun _ _ _ _ => OutOfFuel
  | S n => resolveStep (resolve n) n
  end.

(** [bind(abstract, factory, schema?)] (container.ts:52-70).  With a schema
    the factory is run once on the spot and its output parsed; the schema
    is not kept. *)
Definition bind (fuel : nat) (c : ContainerRef) (abstract : Bindable)
           (f : FactoryRef) (schema : option Schema) : M unit :=
  match schema with
  | Some sch =>
      catch_
        (instance <- factoryCode P f (resolve fuel) c None ;;
         match sch instance with
         | None => ret tt
         | Some msg => throw (ZodError msg)
         end)
        (fun error =>
           match error with
           | ZodError msg =>
               throw (InvalidSchemaError
                        ("Invalid schema for " ++ String_ abstract ++ ": " ++ msg))
           | _ => throw error
           end)
  | None => ret tt
  end ;;;
  registerBinding c abstract (mkBinding f Transient VUndefined ResolverOfBind).

(** [tagged(tag)] (container.ts:464-467) *)
Definition tagged (fuel : nat) (c : ContainerRef) (t : string)
  : M (list Value) :=
  fun st =>
    let taggedBindables :=
      match map_get String.eqb (tags (getC st c)) t with
      | Some l => l
      | None => []
      end in
    mapM (fun bindable => resolve fuel c bindable None) taggedBindables st.

(** Calling [v.dispose()].  On an object the call is entered in the log
    and the method's body runs; whatever it throws propagates.  On the
    cycle stand-in the [get] trap returns a function that resolves the
    identifier again and forwards the call. *)
Fixpoint invokeDispose (fuel : nat) (v : Value) : M unit :=
  match v with
  | VObject r true _ => logDispose r ;;; disposeCode P r (resolve fuel)
  | VCircularProxy _ owner abstract =>
      match fuel with
      | O => fun _ => OutOfFuel
      | S n =>
          resolvedInstance <- resolve n owner abstract None ;;
          invokeDispose n resolvedInstance
      end
  | VUndefined | VNull =>
      throw (TypeError "Cannot read properties of undefined")
  | _ => throw (TypeError "dispose is not a function")
  end.

(** The body of the first loop of [dispose] (container.ts:303-307). *)
Definition releaseBinding (fuel : nat) (r : BindingRef) : M unit :=
  fun st =>
    match getB st r with
    | Some b =>
        if truthy (instance b) && hasDisposeFunction (instance b)
        then invokeDispose fuel (instance b) st
        else Ok tt st
    | None => Ok tt st
    end.

(** The six assignments that end [dispose] (container.ts:311-316). *)
Definition cleared (k : Container) : Container :=
  mkContainer [] [] [] [] [] (resolvingStack k) (parent k) [] (middlewares k).

(** [dispose()] (container.ts:302-317): a [for...of] loop over the
    bindings, one over the children, then the six assignments.  Nothing is
    caught: when a [dispose] method or the disposal of a scope throws, the
    rest is skipped, the clearing included. *)
Fixpoint dispose (fuel : nat) (c : ContainerRef) : M unit :=
  match fuel with
  | O => fun _ => OutOfFuel
  | S n =>
      forOf n (fun st => map snd (bindings (getC st c))) (releaseBinding n) 0 ;;;
      forOf n (fun st => children (getC st c)) (dispose n) 0 ;;;
      (fun st => Ok tt (setC st c (cleared (getC st c))))
  end.

End Engine.

(** ** Shapes of user code and of registrations used in the statements *)

(** [(c) => k(c.resolve(dep))]: a factory that resolves [dep] and goes on
    with the result. *)
Definition resolving (dep : Bindable) (k : Value -> M Value) : Factory :=
  fun self c _ => v <- self c dep None ;; k v.

(** [(c) => new T(c.resolve(dep))] *)
Definition constructing (hasDispose : bool) (dep : Bindable) : Factory :=
  resolving dep (fun v => newObject hasDispose [v]).

(** [() => new T()] *)
Definition constructingNew (hasDispose : bool) : Factory :=
  fun _ _ _ => newObject hasDispose [].

(** [() => v] *)
Definition returning (v : Value) : Factory := fun _ _ _ => ret v.

(** The four registration methods. *)
Inductive Registration : Type := ByBind | BySingleton | ByTransient | ByScoped.

Definition register (impl : Implementation) (P : Program) (how : Registration)
           (c : ContainerRef) (abstract : Bindable) (f : FactoryRef) : M unit :=
  match how with
  | ByBind => bind impl P 0 c abstract f None
  | BySingleton => singleton c abstract f
  | ByTransient => transient c abstract f
  | ByScoped => scoped c abstract f
  end.

(** ** Predicates used in the statements *)

(** Resolving through binding [b] in container [c] will run the factory:
    no singleton instance is cached on the binding, and the store the
    [scoped] closure looks into has no entry yet. *)
Definition buildable (st : State) (c : ContainerRef) (b : Binding) : Prop :=
  (lifetime b = Singleton -> truthy (instance b) = false) /\
  (forall a, resolver b = ResolverOfScoped a ->
             map_get Bindable_eqb (instances (getC st c)) a = None).

(** The store after [applyMiddleware] ran with no middleware registered:
    one [index] cell was allocated and set to [0]. *)
Definition afterMiddleware (st : State) : State :=
  mkState (containers st) (bindingObjects st) (nextObject st)
          (indexCells st ++ [0%Z]) (disposeLog st).

(** [c] references a container object of the store. *)
Definition validC (st : State) (c : ContainerRef) : Prop :=
  c < List.length (containers st).

(** [X] has nothing of its own in container [c]: no alias target, no
    registered or cached instance, no binding, and it is not under
    construction there. *)
Definition nothingLocal (st : State) (c : ContainerRef) (X : Bindable) : Prop :=
  map_get Bindable_eqb (aliases (getC st c)) X = None /\
  map_get Bindable_eqb (instances (getC st c)) X = None /\
  map_get Bindable_eqb (bindings (getC st c)) X = None /\
  includes X (resolvingStack (getC st c)) = false.

(** [typeof abstract === 'string' || typeof abstract === 'symbol'] *)
Definition isName (b : Bindable) : Prop :=
  match b with
  | BString _ | BSymbol _ _ => True
  | _ => False
  end.

(** The giver [g], used in container [c] on store [st], yields [v] and
    leaves store [s1]: a function is called with the container, anything
    else is the value itself. *)
Definition giverYields (P : Program) (self : ResolveFn) (c : ContainerRef)
           (g : Giver) (st : State) (v : Value) (s1 : State) : Prop :=
  match g with
  | GiveFunction gf => factoryCode P gf self c None st = Ok v s1
  | GiveValue v' => v' = v /\ s1 = st
  end.

(** The contextual bindings registered for consumer [ctx]. *)
Definition entriesFor (st : State) (c : ContainerRef) (ctx : Bindable)
  : list ContextualBinding :=
  match map_get Bindable_eqb (contextualBindings (getC st c)) ctx with
  | Some l => l
  | None => []
  end.

(** [X] is provided nowhere along the parent chain of [c].  Parents are
    older objects than their children ([createScope] and [createChild]
    allocate the child), so the chain is finite. *)
Inductive Unprovided (st : State) (X : Bindable) : ContainerRef -> Prop :=
| Unprovided_root : forall c,
    validC st c -> nothingLocal st c X -> parent (getC st c) = None ->
    Unprovided st X c
| Unprovided_child : forall c p,
    validC st c -> nothingLocal st c X -> parent (getC st c) = Some p ->
    p < c -> Unprovided st X p ->
    Unprovided st X c.

(** The store with [l] appended to the log of [dispose] calls. *)
Definition appendLog (st : State) (l : list nat) : State :=
  mkState (containers st) (bindingObjects st) (nextObject st)
          (indexCells st) (disposeLog st ++ l).

(** What the first loop of [dispose] releases for one binding: the cached
    instance when it is an object with a [dispose] method. *)
Definition releaseOf (st : State) (r : BindingRef) : list nat :=
  match getB st r with
  | Some b => match instance b with
              | VObject o true _ => [o]
              | _ => []
              end
  | None => []
  end.

(** The releases of container [c]'s own bindings, in binding order. *)
Definition ownReleases (st : State) (c : ContainerRef) : list nat :=
  flat_map (releaseOf st) (map snd (bindings (getC st c))).

(** Child scopes are younger objects than the container that lists them. *)
Definition olderParents (st : State) : Prop :=
  forall c k, In k (children (getC st c)) ->
              c < k /\ k < List.length (containers st).

(** No binding caches a cycle stand-in (whose [dispose] would resolve
    again). *)
Definition noProxyInstance (st : State) : Prop :=
  forall r b, getB st r = Some b ->
              match instance b with
              | VCircularProxy _ _ _ => False
              | _ => True
              end.

(** The [dispose] methods of the instances the bindings cache return
    normally and leave the store as they found it. *)
Definition quietHooks (P : Program) (st : State) : Prop :=
  forall r b o fields,
    getB st r = Some b -> instance b = VObject o true fields ->
    forall self s, disposeCode P o self s = Ok tt s.

(** No binding of the store was made by [scoped]. *)
Definition noScopedBinding (st : State) : Prop :=
  forall r b, getB st r = Some b -> lifetime b <> Scoped.

(** No container of the store has more than [w] bindings or more than [w]
    scopes: [w] rounds are enough for each loop of [dispose]. *)
Definition boundedBy (st : State) (w : nat) : Prop :=
  forall q, List.length (bindings (getC st q)) <= w /\
            List.length (children (getC st q)) <= w.

(** Program [P] with [hooks] for the [dispose] methods. *)
Definition withHooks (P : Program) (hooks : nat -> Hook) : Program :=
  mkProgram (factoryCode P) (middlewareCode P) hooks.

(** Scopes that have no scopes of their own, each listed once. *)
Definition leafScopes (st : State) (ks : list ContainerRef) : Prop :=
  NoDup ks /\ forall k, In k ks -> children (getC st k) = [].

(** What one [dispose] call guarantees. *)
Definition disposePost (c : ContainerRef) (st st' : State) : Prop :=
  bindingObjects st' = bindingObjects st /\
  List.length (containers st') = List.length (containers st) /\
  (forall q, q < c -> getC st' q = getC st q) /\
  (forall q, getC st' q = getC st q \/ getC st' q = cleared (getC st q)) /\
  getC st' c = cleared (getC st c) /\
  (forall k, In k (children (getC st c)) -> getC st' k = cleared (getC st k)) /\
  exists rest,
    disposeLog st' = disposeLog st ++ ownReleases st c ++ rest /\
    (leafScopes st (children (getC st c)) ->
     rest = flat_map (ownReleases st) (children (getC st c)) /\
     forall q, q <> c -> ~ In q (children (getC st c)) ->
               getC st' q = getC st q).

(** What disposing a list of children, one after the other, guarantees. *)
Definition loopPost (c : ContainerRef) (ks : list ContainerRef)
           (st st' : State) : Prop :=
  bindingObjects st' = bindingObjects st /\
  List.length (containers st') = List.length (containers st) /\
  (forall q, q <= c -> getC st' q = getC st q) /\
  (forall q, getC st' q = getC st q \/ getC st' q = cleared (getC st q)) /\
  (forall k, In k ks -> getC st' k = cleared (getC st k)) /\
  exists rest,
    disposeLog st' = disposeLog st ++ rest /\
    (leafScopes st ks ->
     rest = flat_map (ownReleases st) ks /\
     forall q, ~ In q ks -> getC st' q = getC st q).

(** What registration and configuration put into a container, as opposed to
    what resolution caches in it. *)
Definition shellC (k : Container) :=
  (bindings k, aliases k, tags k, contextualBindings k,
   parent k, children k, middlewares k).

(** Two stores that differ at most in cached instances, resolving stacks and
    [index] cells. *)
Definition sameShell (s s' : State) : Prop :=
  List.length (containers s') = List.length (containers s) /\
  nextObject s' = nextObject s /\
  disposeLog s' = disposeLog s /\
  forall c, shellC (getC s' c) = shellC (getC s c).

(** ** Sample program and stores *)

(** The store a sequence of calls leaves behind when run on the empty
    store. *)
Definition storeAfter {A} (m : M A) : State :=
  match m emptyState with
  | Ok _ s => s
  | Throw _ s => s
  | OutOfFuel => emptyState
  end.

Definition idA : Bindable := BString "A".
Definition idB : Bindable := BString "B".
Definition idService : Bindable := BFunction 1 "Service" "class Service { }".
Definition idConfig : Bindable := BString "config".
Definition idConsumer : Bindable := BString "Service".

(** Factories and middlewares of the samples:
    0: [(c) => new A(c.resolve("B"))], 1: [(c) => new B(c.resolve("A"))],
    2: [() => new Disposable()], 3: [() => new Plain()], 4: [() => 0],
    5: [() => "local"], 6: [() => "default"];
    middleware 0: [(next) => next()], middleware 1: [() => 42];
    every [dispose] method is [dispose() { }]. *)
Definition sampleProgram : Program :=
  mkProgram
    (fun f =>
       match f with
       | 0 => constructing false idB
       | 1 => constructing false idA
       | 2 => constructingNew true
       | 3 => constructingNew false
       | 4 => returning (VNumber 0)
       | 5 => returning (VString "local")
       | _ => returning (VString "default")
       end)
    (fun m =>
       match m with
       | 0 => fun _ next => next
       | _ => fun _ _ => ret (VNumber 42)
       end)
    (fun _ _ => ret tt).

(** [const c = new Container()] *)
Definition oneContainer : State := storeAfter newContainer.

(** [c.bind("A", f0); c.bind("B", f1)] on a new container. *)
Definition cycleStore (impl : Implementation) : State :=
  storeAfter (c <- newContainer ;;
              bind impl sampleProgram 0 c idA 0 None ;;;
              bind impl sampleProgram 0 c idB 1 None).

(** [c.singleton(Service, () => new Disposable())] on a new container. *)
Definition singletonStore : State :=
  storeAfter (c <- newContainer ;; singleton c idService 2).

(** The documented scoped example: [container.scoped(Service, f);
    scope1 = container.createScope(); scope2 = container.createScope()],
    then [scope1.resolve(Service)], again [scope1.resolve(Service)], and
    [scope2.resolve(Service)]. *)
Definition scopedScenario (impl : Implementation)
  : M (Value * Value * Value) :=
  container <- newContainer ;;
  scoped container idService 3 ;;;
  scope1 <- createScope container ;;
  scope2 <- createScope container ;;
  instance1 <- resolve impl sampleProgram 2 scope1 idService None ;;
  again1 <- resolve impl sampleProgram 2 scope1 idService None ;;
  instance2 <- resolve impl sampleProgram 2 scope2 idService None ;;
  ret (instance1, again1, instance2).

(** ** [tagged] of the class [Container] of [src/mod.ts]

    Only the guard of [tagged] (mod.ts:301-309) matters here; the [resolve]
    of that class is left a parameter. *)
Module Mod.
Section Tagged.
Variable St : Type.
Variable tags : St -> list (string * list Bindable).
Variable resolve : Bindable -> St -> (Value + Error) * St.

Fixpoint resolveAllOf (types : list Bindable) (st : St)
  : (list Value + Error) * St :=
  match types with
  | [] => (inl [], st)
  | type :: rest =>
      match resolve type st with
      | (inl v, st1) =>
          match resolveAllOf rest st1 with
          | (inl vs, st2) => (inl (v :: vs), st2)
          | (inr e, st2) => (inr e, st2)
          end
      | (inr e, st1) => (inr e, st1)
      end
  end.

Definition tagged (tag : string) (st : St) : (list Value + Error) * St :=
  match map_get String.eqb (tags st) tag with
  | None => (inr (InvalidTagError tag), st)
  | Some [] => (inr (InvalidTagError tag), st)
  | Some types => resolveAllOf types st
  end.
End Tagged.
End Mod.

(** [root = new Container(); scope = root.createScope()] *)
Definition scopeStore : State :=
  storeAfter (root <- newContainer ;; createScope root).

(** [c.bind("Logger", f3); c.alias("Log", "Logger"); c.alias("L", "Log")]
    on a new container. *)
Definition aliasStore (impl : Implementation) : State :=
  storeAfter (c <- newContainer ;;
              bind impl sampleProgram 0 c (BString "Logger") 3 None ;;;
              alias c (BString "Log") (BString "Logger") ;;;
              alias c (BString "L") (BString "Log")).

(** [c.bind("config", () => "default");
     c.when("Service").needs("config").give(g)] on a new container. *)
Definition overrideStore (impl : Implementation) (g : Giver) : State :=
  storeAfter (c <- newContainer ;;
              bind impl sampleProgram 0 c idConfig 6 None ;;;
              give_ c idConsumer idConfig g).

(** [root.bind("Logger", () => new Plain()); scope = root.createScope();
     scope.alias("L", "Logger")]: the alias lives in the scope (container
    1), its target in the root. *)
Definition aliasInScopeStore (impl : Implementation) : State :=
  storeAfter (root <- newContainer ;;
              bind impl sampleProgram 0 root (BString "Logger") 3 None ;;;
              scope <- createScope root ;;
              alias scope (BString "L") (BString "Logger")).

(** [c.singleton(Service, () => new Disposable()); c.use(() => 42)] on a
    new container. *)
Definition guardedSingletonStore : State :=
  storeAfter (c <- newContainer ;; singleton c idService 2 ;;; use c 1).

(** [c.alias("A", "B"); c.singleton("A", () => new Disposable());
     c.transient("B", () => new Plain())] on a new container. *)
Definition aliasedSingletonStore : State :=
  storeAfter (c <- newContainer ;;
              alias c idA idB ;;;
              singleton c idA 2 ;;;
              transient c idB 3).

(** [resolve(X)] twice in a row on container [c]. *)
Definition resolveTwice (impl : Implementation) (P : Program) (fuel : nat)
           (c : ContainerRef) (X : Bindable) : M (Value * Value) :=
  first <- resolve impl P fuel c X None ;;
  second <- resolve impl P fuel c X None ;;
  ret (first, second).


(** [c.bind("config", () => "default")] on a new container. *)
Definition configStore (impl : Implementation) : State :=
  storeAfter (c <- newContainer ;;
              bind impl sampleProgram 0 c idConfig 6 None).

(** A schema like [z.string()]: only strings conform. *)
Definition stringSchema : Schema :=
  fun v => match v with
           | VString _ => None
           | _ => Some "Expected string"
           end.

(** A root with a resolved disposable singleton [Service] (object 0), a
    scope of it with its own resolved disposable singleton ["A"] (object 1),
    and a resolved disposable scoped binding ["B"] on the root (object 2);
    middleware 1 is installed on the root. *)
Definition disposeScenario (impl : Implementation) : M unit :=
  root <- newContainer ;;
  singleton root idService 2 ;;;
  resolve impl sampleProgram 1 root idService None ;;;
  scope <- createScope root ;;
  singleton scope idA 2 ;;;
  resolve impl sampleProgram 1 scope idA None ;;;
  scoped root idB 2 ;;;
  resolve impl sampleProgram 1 root idB None ;;;
  use root 1.

Definition disposeStore (impl : Implementation) : State :=
  storeAfter (disposeScenario impl).

(** The same without the scoped binding: a root with a resolved disposable
    singleton [Service] (object 0) and middleware 1, and a scope of it
    with its own resolved disposable singleton ["A"] (object 1). *)
Definition singletonsStore (impl : Implementation) : State :=
  storeAfter (root <- newContainer ;;
              singleton root idService 2 ;;;
              resolve impl sampleProgram 1 root idService None ;;;
              scope <- createScope root ;;
              singleton scope idA 2 ;;;
              resolve impl sampleProgram 1 scope idA None ;;;
              use root 1).

Definition disposedStore (impl : Implementation) : State :=
  storeAfter (disposeScenario impl ;;; dispose impl sampleProgram 3 0).

(** ** Constructor injection: [createInstance] and [resolveWithContext] *)

(** What user code contributes for an identifier used as a class: its
    static [paramTypes] (absent reads [undefined]) and what
    [new Target(...args)] does. *)
Record Class : Type := mkClass {
  paramTypes : option (list Bindable);
  construct : ResolveFn -> list Value -> M Value
}.

Definition ClassTable : Type := Bindable -> Class.

Section Injection.
Variable impl : Implementation.
Variable P : Program.
Variable T : ClassTable.

(** [resolveWithContext(abstract, context)] (container.ts:426-433): a
    contextual binding, when there is one, is used whatever it yields. *)
Definition resolveWithContext (fuel : nat) (c : ContainerRef)
           (abstract context : Bindable) : M Value :=
  fun st =>
    match find (fun b => Bindable_eqb (need b) abstract)
               (entriesFor st c context) with
    | Some binding =>
        match give binding with
        | GiveFunction g => factoryCode P g (resolve impl P fuel) c None st
        | GiveValue v => Ok v st
        end
    | None => resolve impl P fuel c abstract None st
    end.

(** [createInstance(Target)] (container.ts:252-256).  Only a function can
    be called with [new]. *)
Definition createInstance (fuel : nat) (c : ContainerRef) (Target : Bindable)
  : M Value :=
  let types := match paramTypes (T Target) with
               | Some l => l
               | None => []
               end in
  injections <- mapM (fun param => resolveWithContext fuel c param Target) types ;;
  match Target with
  | BFunction _ _ _ => construct (T Target) (resolve impl P fuel) injections
  | _ => throw (TypeError "Target is not a constructor")
  end.

End Injection.

(** ** [lazyBind] (container.ts:395-401) *)

(** The closure [lazyBind(token, factory)] binds: it calls the user's
    factory without arguments and registers what it gets as an instance of
    the container [lazyBind] was called on. *)
Definition lazyFactory (this : ContainerRef) (token : Bindable)
           (factory : ResolveFn -> M Value) : Factory :=
  fun self _ _ =>
    instance <- factory self ;;
    instance_ this token instance ;;;
    ret instance.

(** [lazyBind(token, factory)]; [w] is the reference under which the
    program holds the closure above. *)
Definition lazyBind (impl : Implementation) (P : Program) (c : ContainerRef)
           (token : Bindable) (w : FactoryRef) : M unit :=
  bind impl P 0 c token w None.

(** ** The [Observer] class (container.ts:533-572) *)

Module Observer.
Section Observer.

(** What the callbacks act on besides the observer itself. *)
Variable World : Type.

Record t : Type := mk {
  listeners : list (string * list nat);   (* callbacks, by reference *)
  world : World
}.

Inductive Outcome : Type :=
| Returned (s : t)
| Thrown (e : Error) (s : t)
| OutOfFuel.

Definition Run : Type := t -> Outcome.

(** A callback is called with the data; being a closure, it may publish
    in turn. *)
Definition Callback : Type := (string -> Value -> Run) -> Value -> Run.

Variable code : nat -> Callback.

(** [Array.prototype.forEach] with a callback that may throw. *)
Fixpoint forEach (f : nat -> Run) (l : list nat) : Run :=
  fun s =>
    match l with
    | [] => Returned s
    | callback :: r =>
        match f callback s with
        | Returned s' => forEach f r s'
        | o => o
        end
    end.

(** The callbacks subscribed to [event], oldest first. *)
Definition listenersOf (s : t) (event : string) : list nat :=
  match map_get String.eqb (listeners s) event with
  | Some l => l
  | None => []
  end.

(** [subscribe(event, callback)] (container.ts:549-554) *)
Definition subscribe (event : string) (callback : nat) (s : t) : t :=
  let listeners1 := if map_has String.eqb (listeners s) event
                    then listeners s
                    else map_set String.eqb (listeners s) event [] in
  let current := match map_get String.eqb listeners1 event with
                 | Some l => l
                 | None => []
                 end in
  mk (map_set String.eqb listeners1 event (current ++ [callback])) (world s).

(** [publish(event, data)] (container.ts:567-572): [forEach] runs over the
    callbacks the array holds when it starts. *)
Fixpoint publish (fuel : nat) (event : string) (data : Value) : Run :=
  fun s =>
    match fuel with
    | O => OutOfFuel
    | S n =>
        match map_get String.eqb (listeners s) event with
        | Some eventListeners =>
            forEach (fun callback => code callback (publish n) data)
                    eventListeners s
        | None => Returned s
        end
    end.

End Observer.
End Observer.

(** ** Shapes of middlewares and stores used in the statements *)

(** [(next) => k(next())]: a middleware that calls [next] once and goes on
    with what it returned. *)
Definition decorating (k : Value -> M Value) : Middleware :=
  fun _ next => x <- next ;; k x.

(** What a chain of such middlewares computes from the instance, the first
    of the list outermost; [dispatch] turns an exception into a rejected
    promise at every level. *)
Fixpoint decorate (ks : list (Value -> M Value)) (v : Value) : M Value :=
  match ks with
  | [] => ret v
  | k :: r => catch_ (x <- decorate r v ;; k x) rejectedPromise
  end.

(** The store after [applyMiddleware] went down a chain of [n] middlewares
    to the final thunk: the [index] cell it allocated holds [n]. *)
Definition afterChain (st : State) (n : nat) : State :=
  mkState (containers st) (bindingObjects st) (nextObject st)
          (indexCells st ++ [Z.of_nat n]) (disposeLog st).

(** The members of tag [t] in container [c], in the order [tagged]
    resolves them. *)
Definition membersOf (st : State) (c : ContainerRef) (t : string)
  : list Bindable :=
  match map_get String.eqb (tags (getC st c)) t with
  | Some l => l
  | None => []
  end.

(** ** Further samples *)

(** Factories: 0: [() => new Disposable()], 1: [() => "default"],
    2: [() => { throw new Error("boom") }], 3: [() => 0],
    4: the closure bound by [lazyBind("lazy", () => new Disposable())]
    called on container 0, 5: [() => "local"], others: [() => new Plain()].
    Middlewares: 0: [(next) => new Wrapper(next())],
    1: [(next) => new Guard(next())], 2: [(next) => { next(); return next() }],
    3: [() => { throw new Error("middleware failed") }], others: [() => 42].
    Every [dispose] method is [dispose() { }]. *)
Definition sampleProgram2 : Program :=
  mkProgram
    (fun f =>
       match f with
       | 0 => constructingNew true
       | 1 => returning (VString "default")
       | 2 => fun _ _ _ => throw (JsError "boom")
       | 3 => returning (VNumber 0)
       | 4 => lazyFactory 0 (BString "lazy") (fun _ => newObject true [])
       | 5 => returning (VString "local")
       | _ => constructingNew false
       end)
    (fun m =>
       match m with
       | 0 => decorating (fun x => newObject false [x])
       | 1 => decorating (fun x => newObject true [x])
       | 2 => fun _ next => next ;;; next
       | 3 => fun _ _ => throw (JsError "middleware failed")
       | _ => fun _ _ => ret (VNumber 42)
       end)
    (fun _ _ => ret tt).

(** [root = new Container(); root.bind("config", () => "default");
     child = root.createChild(); child.singleton("A", f0);
     child.resolve("A")]: the child (container 1) holds a binding of its own
    with a cached disposable instance (object 0). *)
Definition childStore (impl : Implementation) : State :=
  storeAfter (root <- newContainer ;;
              bind impl sampleProgram2 0 root idConfig 1 None ;;;
              child <- createChild root ;;
              singleton child idA 0 ;;;
              resolve impl sampleProgram2 1 child idA None).

(** [root = new Container(); root.bind("config", () => "default");
     root.when("Service").needs("config").give(() => "local");
     scope = root.createScope(); scope.use(() => 42)] *)
Definition scopedOverrideStore (impl : Implementation) : State :=
  storeAfter (root <- newContainer ;;
              bind impl sampleProgram 0 root idConfig 6 None ;;;
              give_ root idConsumer idConfig (GiveFunction 5) ;;;
              scope <- createScope root ;;
              use scope 1).

Definition idPhotoController : Bindable :=
  BFunction 2 "PhotoController" "class PhotoController { }".
Definition idFilesystem : Bindable :=
  BFunction 3 "FilesystemType" "class FilesystemType { }".

(** [class PhotoController { static paramTypes = [FilesystemType];
     constructor(public filesystem) {} }]; every other class takes no
    parameters. *)
Definition sampleClasses : ClassTable :=
  fun Target =>
    if Bindable_eqb Target idPhotoController
    then mkClass (Some [idFilesystem]) (fun _ args => newObject false args)
    else mkClass None (fun _ args => newObject false args).

(** [c = new Container();
     c.when(PhotoController).needs(FilesystemType).give(0)]: nothing is
    bound to [FilesystemType]. *)
Definition injectionStore : State :=
  storeAfter (c <- newContainer ;;
              give_ c idPhotoController idFilesystem (GiveValue (VNumber 0))).

(** ** The class [Container] of [src/mod.ts]

    A single container object; its methods are state-passing functions on
    its fields.  Factories, extenders and the thunks in [paramTypes] are
    functions of the user, referred to by number and described by an
    environment; the closures the class itself builds around them are
    data.  The [console] output is not modelled.  Covered: [bind],
    [bindSingleton], [singleton], [instance], [alias], [make], [tag],
    [tagged], [extend], [when(...).needs(...).give(...)], [resolve] and
    [detectCircularDependencies]; the validation of a zod-typed identifier
    is left to the environment. *)
Module ModTs.

(** JavaScript values, as far as this class tells them apart. *)
Inductive Val : Type :=
| Undefined
| Null
| Bool (b : bool)
| Num (n : Z)
| Str (s : string)
| Obj (id : nat)     (* an object that cannot be called *)
| Fun (id : nat).    (* a function, a class included *)

Definition Val_eq_dec (a b : Val) : {a = b} + {a <> b}.
Proof.
  decide equality;
    first [ apply Bool.bool_dec | apply Z.eq_dec | apply string_dec
          | apply Nat.eq_dec ].
Defined.

(** Key equality of [Map]. *)
Definition Val_eqb (a b : Val) : bool :=
  if Val_eq_dec a b then true else false.

Definition truthy (v : Val) : bool :=
  match v with
  | Undefined | Null => false
  | Bool b => b
  | Num n => negb (Z.eqb n 0)
  | Str s => negb (String.eqb s "")
  | Obj _ | Fun _ => true
  end.

(** The errors of [src/errors.ts] this class throws, with what their
    constructors were passed, and what user code throws. *)
Inductive Err : Type :=
| InvalidExtensionError (type : Val)
| InvalidAliasError (alias : string)
| InvalidTagError (tag : string)
| CircularDependencyError (dependencyChain : list string)
| UnresolvedDependencyError (type : string)
| TypeError (message : string)
| Raised (error : Val).

(** The closures the class stores as factories. *)
Inductive Factory : Type :=
| Given (factory : Val)                      (* the caller's own function *)
| SingletonFactory (type : Val) (factory : Val)  (* built by [bindSingleton] *)
| Constant (value : Val)                     (* [() => value] *)
| Extended (extender : Val) (originalFactory : Factory).
                                 (* [() => extender(originalFactory())] *)

Section Container.

(** What user code acts on besides the container. *)
Variable World : Type.

Record Container : Type := mk {
  bindings : list (Val * Factory);
  singletons : list (Val * Val);
  contextualBindings : list (Val * list (Val * Factory));
  aliases : list (string * Val);
  tags : list (string * list Val);
  customErrorHandlers : list (Val * Val);
  world : World
}.

Inductive Outcome (A : Type) : Type :=
| Returns (a : A) (s : Container)
| Throws (e : Err) (s : Container)
| NoFuel.
Arguments Returns {A} a s.
Arguments Throws {A} e s.
Arguments NoFuel {A}.

Definition Run (A : Type) : Type := Container -> Outcome A.

Definition ret {A} (a : A) : Run A := fun s => Returns a s.

Definition andThen {A B} (m : Run A) (k : A -> Run B) : Run B :=
  fun s => match m s with
           | Returns a s' => k a s'
           | Throws e s' => Throws e s'
           | NoFuel => NoFuel
           end.

Definition throw {A} (e : Err) : Run A := fun s => Throws e s.

Notation "x <~ m ;; k" := (andThen m (fun x => k))
  (at level 61, m at next level, right associativity).
Notation "m ;;~ k" := (andThen m (fun _ => k))
  (at level 61, right associativity).

(** What the environment says about the user's functions and objects. *)
Record Env : Type := mkEnv {
  name : nat -> string;                  (* [f.name] *)
  source : nat -> string;                (* [String(f)] *)
  prototype : nat -> bool;               (* [f.prototype] is truthy *)
  paramTypes : nat -> option (list Val); (* [f.paramTypes] *)
  call : nat -> (Val -> Run Val) -> list Val -> Run Val;
                  (* [f(...args)], with [container.resolve] at hand *)
  isZodType : nat -> bool;               (* [o instanceof z.ZodType] *)
  validateWithCustomErrors : Val -> Val -> Run Val
}.

Variable E : Env.

(** [String(v)] *)
Definition String_ (v : Val) : string :=
  match v with
  | Undefined => "undefined"
  | Null => "null"
  | Bool true => "true"
  | Bool false => "false"
  | Num n => NilZero.string_of_int (Z.to_int n)
  | Str s => s
  | Obj _ => "[object Object]"
  | Fun id => source E id
  end.

(** [f(...args)] for a value [f]. *)
Definition apply (self : Val -> Run Val) (f : Val) (args : list Val)
  : Run Val :=
  match f with
  | Fun id => call E id self args
  | _ => throw (TypeError "not a function")
  end.

Definition singletonsSet (type value : Val) : Run unit :=
  fun s => Returns tt (mk (bindings s) (map_set Val_eqb (singletons s) type value)
                          (contextualBindings s) (aliases s) (tags s)
                          (customErrorHandlers s) (world s)).

(** Calling a stored factory. *)
Fixpoint run (self : Val -> Run Val) (f : Factory) : Run Val :=
  match f with
  | Given factory => apply self factory []
  | SingletonFactory type factory =>
      fun s =>
        ((if map_has Val_eqb (singletons s) type then ret tt
          else value <~ apply self factory [] ;; singletonsSet type value) ;;~
         (fun s' => match map_get Val_eqb (singletons s') type with
                    | Some v => Returns v s'
                    | None => Returns Undefined s'
                    end)) s
  | Constant value => ret value
  | Extended extender originalFactory =>
      original <~ run self originalFactory ;;
      apply self extender [original]
  end.

Fixpoint mapM {A B} (f : A -> Run B) (l : list A) : Run (list B) :=
  match l with
  | [] => ret []
  | a :: r => b <~ f a ;; bs <~ mapM f r ;; ret (b :: bs)
  end.

(** [Set.prototype.has] on a set of names kept in insertion order. *)
Definition has (set : list string) (x : string) : bool :=
  existsb (String.eqb x) set.

(** The loop over [paramTypes] in [detectCircularDependencies]
    (mod.ts:70-99); [stack] holds the name of the constructor at hand,
    [recurse] is the function itself and [visited] the one set of names
    that all the calls share: it is passed on and returned. *)
Fixpoint forEachParamType (self : Val -> Run Val)
         (recurse : nat -> list string -> Run (list string))
         (stack : list string) (l : list Val) (visited : list string)
  : Run (list string) :=
  match l with
  | [] => ret visited
  | paramType :: rest =>
      actualType <~
        match paramType with
        | Fun id => if prototype E id then ret paramType
                    else call E id self []
        | _ => ret paramType
        end ;;
      if negb (truthy actualType)
      then forEachParamType self recurse stack rest visited
      else
        fun s =>
          match map_get Val_eqb (bindings s) actualType with
          | None => Throws (UnresolvedDependencyError (String_ actualType)) s
          | Some dependency =>
              (dependencyConstructor <~ run self dependency ;;
               match dependencyConstructor with
               | Fun id =>
                   if prototype E id then
                     if has stack (name E id)
                     then throw (CircularDependencyError (stack ++ [name E id]))
                     else
                       visited' <~ recurse id visited ;;
                       forEachParamType self recurse stack rest visited'
                   else forEachParamType self recurse stack rest visited
               | _ => forEachParamType self recurse stack rest visited
               end) s
          end
  end.

(** [detectCircularDependencies(constructor, stack, visited)]
    (mod.ts:43-103).  [stack] is copied for each recursive call, so the
    removal of the name at the end is seen by nobody. *)
Fixpoint detectCircularDependencies (self : Val -> Run Val) (fuel : nat)
         (constructor : nat) (stack visited : list string)
  : Run (list string) :=
  match fuel with
  | O => fun _ => NoFuel
  | S n =>
      let constructorName := name E constructor in
      if has stack constructorName
      then throw (CircularDependencyError (stack ++ [constructorName]))
      else if has visited constructorName then ret visited
      else
        let visited1 := visited ++ [constructorName] in
        let stack1 := stack ++ [constructorName] in
        let types := match paramTypes E constructor with
                     | Some l => l
                     | None => []
                     end in
        forEachParamType
          self
          (fun dependencyConstructor visited' =>
             detectCircularDependencies self n dependencyConstructor stack1
                                        visited')
          stack1 types visited1
  end.

(** One activation of [resolve(type)] (mod.ts:227-251); [self] is
    [resolve] for the calls made by user code. *)
Definition resolveStep (self : Val -> Run Val) (fuel : nat) (type : Val)
  : Run Val :=
  fun s =>
    match map_get Val_eqb (bindings s) type with
    | None => Throws (UnresolvedDependencyError (String_ type)) s
    | Some factory =>
        (match type with
         | Fun id =>
             if prototype E id
             then _ <~ detectCircularDependencies self fuel id [] [] ;; ret tt
             else ret tt
         | _ => ret tt
         end ;;~
         result <~ run self factory ;;
         match type with
         | Obj id => if isZodType E id
                     then validateWithCustomErrors E type result
                     else ret result
         | _ => ret result
         end) s
    end.

Fixpoint resolve (fuel : nat) : Val -> Run Val :=
  match fuel with
  | O => fun _ _ => NoFuel
  | S n => resolveStep (resolve n) n
  end.

(** [bind(type, factory)] (mod.ts:24-28); a function of the caller is
    bound as [Given]. *)
Definition bind (type : Val) (factory : Factory) : Run unit :=
  fun s => Returns tt (mk (map_set Val_eqb (bindings s) type factory)
                          (singletons s) (contextualBindings s) (aliases s)
                          (tags s) (customErrorHandlers s) (world s)).

(** [bindSingleton(type, factory)] (mod.ts:30-41) *)
Definition bindSingleton (type : Val) (factory : Val) : Run unit :=
  bind type (SingletonFactory type factory).

(** [singleton(type, factory)] (mod.ts:324-327) *)
Definition singleton (type : Val) (factory : Val) : Run unit :=
  bindSingleton type factory.

(** [instance(type, instance)] (mod.ts:287-290) *)
Definition instance (type : Val) (instance : Val) : Run unit :=
  bind type (Constant instance).

(** [alias(alias, type)] (mod.ts:272-275) *)
Definition alias (alias : string) (type : Val) : Run unit :=
  fun s => Returns tt (mk (bindings s) (singletons s) (contextualBindings s)
                          (map_set String.eqb (aliases s) alias type)
                          (tags s) (customErrorHandlers s) (world s)).

(** [make(alias)] (mod.ts:277-285) *)
Definition make (fuel : nat) (alias : string) : Run Val :=
  fun s =>
    match map_get String.eqb (aliases s) alias with
    | Some type => if truthy type then resolve fuel type s
                   else Throws (InvalidAliasError alias) s
    | None => Throws (InvalidAliasError alias) s
    end.

(** [tag(types, tag)] (mod.ts:292-299) *)
Definition tag (types : list Val) (tag : string) : Run unit :=
  fun s =>
    let tags1 := if map_has String.eqb (tags s) tag then tags s
                 else map_set String.eqb (tags s) tag [] in
    let members := match map_get String.eqb tags1 tag with
                   | Some l => l
                   | None => []
                   end in
    Returns tt (mk (bindings s) (singletons s) (contextualBindings s)
                   (aliases s) (map_set String.eqb tags1 tag (members ++ types))
                   (customErrorHandlers s) (world s)).

(** [tagged(tag)] (mod.ts:301-309) *)
Definition tagged (fuel : nat) (tag : string) : Run (list Val) :=
  fun s =>
    match map_get String.eqb (tags s) tag with
    | None => Throws (InvalidTagError tag) s
    | Some [] => Throws (InvalidTagError tag) s
    | Some types => mapM (resolve fuel) types s
    end.

(** [extend(type, extender)] (mod.ts:217-225) *)
Definition extend (type : Val) (extender : Val) : Run unit :=
  fun s =>
    match map_get Val_eqb (bindings s) type with
    | None => Throws (InvalidExtensionError type) s
    | Some originalFactory => bind type (Extended extender originalFactory) s
    end.

(** [when(constructor).needs(type).give(implementation)] (mod.ts:188-215) *)
Definition give (constructor type implementation : Val) : Run unit :=
  fun s =>
    let contextual1 :=
      if map_has Val_eqb (contextualBindings s) constructor
      then contextualBindings s
      else map_set Val_eqb (contextualBindings s) constructor [] in
    let bindings_ := match map_get Val_eqb contextual1 constructor with
                     | Some m => m
                     | None => []
                     end in
    let entry := match implementation with
                 | Fun _ => Given implementation
                 | _ => Constant implementation
                 end in
    bind type (Constant implementation)
         (mk (bindings s) (singletons s)
             (map_set Val_eqb contextual1 constructor
                      (map_set Val_eqb bindings_ type entry))
             (aliases s) (tags s) (customErrorHandlers s) (world s)).

(** [typeDescription] as computed by the constructor of
    [InvalidExtensionError] (errors.ts:28-39). *)
Definition typeDescription (type : Val) : string :=
  match type with
  | Fun id => if String.eqb (name E id) "" then "Anonymous Function"
              else name E id
  | Obj id => if isZodType E id then "ZodSchema" else String_ type
  | _ => String_ type
  end.

(** An identifier for which [resolve] runs neither the detection of
    cycles nor a validation: anything but a class and a zod schema. *)
Definition plainType (type : Val) : Prop :=
  match type with
  | Fun id => prototype E id = false
  | Obj id => isZodType E id = false
  | _ => True
  end.

End Container.

Arguments Returns {World A} a s.
Arguments Throws {World A} e s.
Arguments NoFuel {World A}.

End ModTs.


(** Functions of the samples for [src/mod.ts]: 0: [class A] with
    [paramTypes = [B]], 1: [class B] with [paramTypes = [A]], 2: a
    [class Service] with [paramTypes = [3]], 3: another [class Service],
    without parameters; 10: a factory that counts its calls in the world and
    returns the count, 11: [(x) => x + 1], 12: [(x) => 2 * x]; the others
    return [undefined]. *)
Definition sampleEnv : ModTs.Env nat :=
  ModTs.mkEnv
    (fun f => match f with
              | 0 => "A" | 1 => "B" | 2 => "Service" | 3 => "Service"
              | _ => ""
              end)
    (fun f => match f with
              | 0 => "class A { }" | 1 => "class B { }"
              | 2 => "class Service { }" | 3 => "class Service { }"
              | _ => "() => { }"
              end)
    (fun f => Nat.ltb f 4)
    (fun f => match f with
              | 0 => Some [ModTs.Fun 1]
              | 1 => Some [ModTs.Fun 0]
              | 2 => Some [ModTs.Fun 3]
              | _ => None
              end)
    (fun f _ args s =>
       match f, args with
       | 10, _ =>
           ModTs.Returns (ModTs.Num (Z.of_nat (ModTs.world s)))
             (ModTs.mk (ModTs.bindings s) (ModTs.singletons s)
                       (ModTs.contextualBindings s) (ModTs.aliases s)
                       (ModTs.tags s) (ModTs.customErrorHandlers s)
                       (S (ModTs.world s)))
       | 11, [ModTs.Num x] => ModTs.Returns (ModTs.Num (x + 1)) s
       | 12, [ModTs.Num x] => ModTs.Returns (ModTs.Num (2 * x)) s
       | _, _ => ModTs.Returns ModTs.Undefined s
       end)
    (fun _ => false)
    (fun _ data => ModTs.ret data).

(** [new Container()] of [src/mod.ts], in a world where no factory has
    been called. *)
Definition newModContainer : ModTs.Container nat :=
  ModTs.mk [] [] [] [] [] [] 0.

(** ** Chains of dependencies *)

(** [X] is bound in [c] to a binding that will run its factory, and the
    factory is [(c) => k(c.resolve(Y))]. *)
Definition dependsOn (P : Program) (st : State) (c : ContainerRef)
           (X Y : Bindable) : Prop :=
  exists r b k,
    lookupBinding st c X = Some (r, b) /\
    buildable st c b /\
    factoryCode P (factory b) = resolving Y k.

(** Each identifier of the list depends on the next one, and the last one
    on [back]. *)
Fixpoint chain (P : Program) (st : State) (c : ContainerRef)
         (xs : list Bindable) (back : Bindable) : Prop :=
  match xs with
  | [] => True
  | X :: rest =>
      match rest with
      | [] => dependsOn P st c X back
      | Y :: _ => dependsOn P st c X Y /\ chain P st c rest back
      end
  end.

(** [X] is not an alias in [c], has no instance there and is not under
    construction. *)
Definition untouched (st : State) (c : ContainerRef) (X : Bindable) : Prop :=
  map_get Bindable_eqb (aliases (getC st c)) X = None /\
  map_get Bindable_eqb (instances (getC st c)) X = None /\
  includes X (resolvingStack (getC st c)) = false.

(** The store with the identifiers of [xs] pushed, in order, on the
    resolving stack of [c]. *)
Definition pushAll (c : ContainerRef) (xs : list Bindable) (st : State)
  : State :=
  fold_left (fun s x => pushStack c x s) xs st.

Definition idC : Bindable := BString "C".

(** Factories of a cycle of three: 0: [(c) => new A(c.resolve("B"))],
    1: [(c) => new B(c.resolve("C"))], 2: [(c) => new C(c.resolve("A"))];
    the others resolve themselves under the name ["Self"]. *)
Definition cycleProgram : Program :=
  mkProgram
    (fun f =>
       match f with
       | 0 => constructing false idB
       | 1 => constructing false idC
       | 2 => constructing false idA
       | _ => constructing false (BString "Self")
       end)
    (fun _ => fun _ next => next)
    (fun _ _ => ret tt).

(** [c.singleton("A", f0); c.transient("B", f1); c.scoped("C", f2)] on a
    new container. *)
Definition cycle3Store : State :=
  storeAfter (c <- newContainer ;;
              singleton c idA 0 ;;;
              transient c idB 1 ;;;
              scoped c idC 2).

(** ** The tree of scopes *)

(** What [dispose] releases for [c] and, scope after scope, for everything
    below it: a pre-order walk of the scopes, [fuel] levels deep. *)
Fixpoint releases (fuel : nat) (st : State) (c : ContainerRef) : list nat :=
  match fuel with
  | O => []
  | S n => ownReleases st c ++ flat_map (releases n st) (children (getC st c))
  end.

(** The containers that walk goes through. *)
Fixpoint scopesBelow (fuel : nat) (st : State) (c : ContainerRef)
  : list ContainerRef :=
  match fuel with
  | O => []
  | S n => c :: flat_map (scopesBelow n st) (children (getC st c))
  end.

(** Every scope is listed once, by one container: [createScope] enters
    the container it has just made. *)
Definition ownedOnce (st : State) : Prop :=
  (forall c, NoDup (children (getC st c))) /\
  (forall c1 c2 k, In k (children (getC st c1)) ->
                   In k (children (getC st c2)) -> c1 = c2).

(** The stores [dispose] is studied on. *)
Definition wellFormed (st : State) : Prop :=
  olderParents st /\ ownedOnce st /\ noProxyInstance st.

(** What [dispose], called on [c] in store [st], leaves in [st']. *)
Definition walkPost (fuel : nat) (c : ContainerRef) (st st' : State) : Prop :=
  bindingObjects st' = bindingObjects st /\
  List.length (containers st') = List.length (containers st) /\
  disposeLog st' = disposeLog st ++ releases fuel st c /\
  (forall q, In q (scopesBelow fuel st c) -> getC st' q = cleared (getC st q)) /\
  (forall q, ~ In q (scopesBelow fuel st c) -> getC st' q = getC st q).

(** [root = new Container(); s1 = root.createScope(); s2 = s1.createScope();
     s3 = root.createScope()], then a disposable singleton is bound and
    resolved on [s3] (object 0), on [s2] (object 1), on [s1] (object 2) and
    on the root (object 3). *)
Definition nestedScopesStore (impl : Implementation) : State :=
  storeAfter (root <- newContainer ;;
              s1 <- createScope root ;;
              s2 <- createScope s1 ;;
              s3 <- createScope root ;;
              singleton s3 idA 0 ;;;
              resolve impl sampleProgram2 3 s3 idA None ;;;
              singleton s2 idB 0 ;;;
              resolve impl sampleProgram2 3 s2 idB None ;;;
              singleton s1 idA 0 ;;;
              resolve impl sampleProgram2 3 s1 idA None ;;;
              singleton root idService 0 ;;;
              resolve impl sampleProgram2 3 root idService None).

(** * Properties *)

Unset Implicit Arguments.

Ltac conj_split := repeat match goal with |- _ /\ _ => split end.

(** ** Sanity checks against the test-suite *)

Example message_of_cycle :
  message (CircularDependencyError (map String_ [idA; idB; idA]))
  = "Circular dependency detected: A -> B -> A. Break the circular dependency by redesigning your classes or using a factory function.".
Proof. reflexivity. Qed.

Example message_of_unresolved :
  message (UnresolvedDependencyError (BString "Unregistered"))
  = "No binding found for the given type: Unregistered".
Proof. reflexivity. Qed.

Example message_of_unresolved_class :
  message (UnresolvedDependencyError
             (BFunction 7 "Dependency" "class Dependency { }"))
  = "No binding found for the given type: Dependency".
Proof. reflexivity. Qed.

Example falsy_values :
  map truthy [VUndefined; VNull; VBoolean false; VNumber 0; VString ""]
  = [false; false; false; false; false].
Proof. reflexivity. Qed.

Example String_of_symbol : String_ (BSymbol 3 "SymbolKey") = "Symbol(SymbolKey)".
Proof. reflexivity. Qed.

(** [Container - Contextual Binding]: the consumer's factory asks for
    ["config"] in its own name and gets the override. *)
Example contextual_binding_test :
  exists st,
    resolve ContainerTs sampleProgram 1 0 idConfig (Some idConsumer)
            (overrideStore ContainerTs (GiveFunction 5))
    = Ok (VString "local") st.
Proof. eexists. vm_compute. reflexivity. Qed.

(** [Container - Dependency Disposal]: a resolved singleton with a
    [dispose] method is released. *)
Example dependency_disposal_test :
  exists st,
    (resolve ContainerTs sampleProgram 1 0 idService None ;;;
     dispose ContainerTs sampleProgram 2 0) singletonStore = Ok tt st /\
    disposeLog st = [0].
Proof. eexists. vm_compute. split; reflexivity. Qed.

(** A pass-through middleware leaves the result alone; one that does not
    call [next] replaces it. *)
Example middleware_test :
  exists st1 st2,
    (use 0 0 ;;; resolve ContainerTs sampleProgram 2 0 idConfig None)
      (configStore ContainerTs) = Ok (VString "default") st1 /\
    (use 0 1 ;;; resolve ContainerTs sampleProgram 2 0 idConfig None)
      (configStore ContainerTs) = Ok (VNumber 42) st2.
Proof. do 2 eexists. vm_compute. split; reflexivity. Qed.

(** ** Lists and maps *)

Lemma list_upd_length {A} (l : list A) i a :
  List.length (list_upd l i a) = List.length l.
Proof.
  revert i; induction l as [|x l IH]; intros [|i]; simpl; auto.
Qed.

Lemma nth_list_upd_same {A} (l : list A) i a d :
  i < List.length l -> nth i (list_upd l i a) d = a.
Proof.
  revert i; induction l as [|x l IH]; intros [|i] H; simpl in *;
    try lia; auto.
  apply IH; lia.
Qed.

Lemma nth_list_upd_other {A} (l : list A) i j a d :
  i <> j -> nth j (list_upd l i a) d = nth j l d.
Proof.
  revert i j; induction l as [|x l IH]; intros [|i] [|j] H; simpl;
    try congruence; auto.
Qed.

Lemma nth_error_list_upd_same {A} (l : list A) i a :
  i < List.length l -> nth_error (list_upd l i a) i = Some a.
Proof.
  revert i; induction l as [|x l IH]; intros [|i] H; simpl in *;
    try lia; auto.
  apply IH; lia.
Qed.

Lemma nth_error_list_upd_other {A} (l : list A) i j a :
  i <> j -> nth_error (list_upd l i a) j = nth_error l j.
Proof.
  revert i j; induction l as [|x l IH]; intros [|i] [|j] H; simpl;
    try congruence; auto.
Qed.

Lemma list_upd_twice {A} (l : list A) i a b :
  list_upd (list_upd l i a) i b = list_upd l i b.
Proof.
  revert i; induction l as [|x l IH]; intros [|i]; simpl; auto.
  now rewrite IH.
Qed.

Lemma list_upd_nth {A} (l : list A) i d :
  i < List.length l -> list_upd l i (nth i l d) = l.
Proof.
  revert i; induction l as [|x l IH]; intros [|i] H; simpl in *;
    try lia; auto.
  rewrite IH; auto; lia.
Qed.

Lemma Bindable_eqb_refl a : Bindable_eqb a a = true.
Proof. unfold Bindable_eqb; destruct (Bindable_eq_dec a a); congruence. Qed.

Lemma Bindable_eqb_neq a b : a <> b -> Bindable_eqb a b = false.
Proof. unfold Bindable_eqb; destruct (Bindable_eq_dec a b); congruence. Qed.

Lemma Bindable_eqb_eq a b : Bindable_eqb a b = true -> a = b.
Proof. unfold Bindable_eqb; destruct (Bindable_eq_dec a b); congruence. Qed.

Lemma includes_app X l1 l2 :
  includes X (l1 ++ l2) = includes X l1 || includes X l2.
Proof. unfold includes; apply existsb_app. Qed.

Lemma includes_single_same X : includes X [X] = true.
Proof. unfold includes; simpl; now rewrite Bindable_eqb_refl. Qed.

Lemma includes_single_other X Y : X <> Y -> includes X [Y] = false.
Proof. intros; unfold includes; simpl; now rewrite Bindable_eqb_neq. Qed.

Section MapFacts.
Variables K V : Type.
Variable eqb : K -> K -> bool.
Hypothesis eqb_spec : forall a b, reflect (a = b) (eqb a b).
Implicit Types m : list (K * V).

Lemma gen_map_get_set_same m k v :
  map_get eqb (map_set eqb m k v) k = Some v.
Proof.
  induction m as [|[k' v'] m IH]; simpl.
  - now destruct (eqb_spec k k).
  - destruct (eqb_spec k k') as [->|Hne]; simpl.
    + now destruct (eqb_spec k' k').
    + now destruct (eqb_spec k k').
Qed.

Lemma gen_map_get_set_other m k k' v :
  k <> k' ->
  map_get eqb (map_set eqb m k v) k' = map_get eqb m k'.
Proof.
  intros Hne; induction m as [|[k0 v0] m IH]; simpl.
  - destruct (eqb_spec k' k); congruence.
  - destruct (eqb_spec k k0) as [->|Hne0]; simpl.
    + destruct (eqb_spec k' k0); congruence.
    + destruct (eqb_spec k' k0); auto.
Qed.
End MapFacts.

Lemma Bindable_eqb_spec a b : reflect (a = b) (Bindable_eqb a b).
Proof.
  unfold Bindable_eqb. destruct (Bindable_eq_dec a b); now constructor.
Qed.

Lemma map_get_set_same {V} (m : list (Bindable * V)) k v :
  map_get Bindable_eqb (map_set Bindable_eqb m k v) k = Some v.
Proof. apply gen_map_get_set_same, Bindable_eqb_spec. Qed.

Lemma map_get_set_other {V} (m : list (Bindable * V)) k k' v :
  k <> k' ->
  map_get Bindable_eqb (map_set Bindable_eqb m k v) k'
  = map_get Bindable_eqb m k'.
Proof. apply gen_map_get_set_other, Bindable_eqb_spec. Qed.

Lemma smap_get_set_same {V} (m : list (string * V)) k v :
  map_get String.eqb (map_set String.eqb m k v) k = Some v.
Proof. apply gen_map_get_set_same, String.eqb_spec. Qed.

(** ** The store *)

Lemma getC_setC_same st c k : validC st c -> getC (setC st c k) c = k.
Proof. intros H; unfold getC, setC; simpl; now apply nth_list_upd_same. Qed.

Lemma getC_setC_other st c c' k : c <> c' -> getC (setC st c k) c' = getC st c'.
Proof. intros H; unfold getC, setC; simpl; now apply nth_list_upd_other. Qed.

Lemma setC_setC st c k k' : setC (setC st c k) c k' = setC st c k'.
Proof. unfold setC; simpl; now rewrite list_upd_twice. Qed.

Lemma setC_getC st c : validC st c -> setC st c (getC st c) = st.
Proof.
  intros H; unfold setC, getC; rewrite list_upd_nth by exact H.
  now destruct st.
Qed.

Lemma validC_setC st c c' k : validC (setC st c k) c' <-> validC st c'.
Proof. unfold validC, setC; simpl; now rewrite list_upd_length. Qed.

Lemma set_resolvingStack_id k : set_resolvingStack k (resolvingStack k) = k.
Proof. now destruct k. Qed.

Lemma set_resolvingStack_twice k s s' :
  set_resolvingStack (set_resolvingStack k s) s' = set_resolvingStack k s'.
Proof. reflexivity. Qed.

Lemma resolvingStack_set k s : resolvingStack (set_resolvingStack k s) = s.
Proof. reflexivity. Qed.

Lemma getC_pushStack st c a :
  validC st c ->
  getC (pushStack c a st) c
  = set_resolvingStack (getC st c) (resolvingStack (getC st c) ++ [a]).
Proof. intros; unfold pushStack; now rewrite getC_setC_same. Qed.

Lemma getC_pushStack_other st c c' a :
  c <> c' -> getC (pushStack c a st) c' = getC st c'.
Proof. intros; unfold pushStack; now rewrite getC_setC_other. Qed.

Lemma validC_pushStack st c c' a :
  validC (pushStack c a st) c' <-> validC st c'.
Proof. unfold pushStack; apply validC_setC. Qed.

Lemma getB_pushStack st c a r : getB (pushStack c a st) r = getB st r.
Proof. reflexivity. Qed.

(** The [finally] block undoes the push: the stack discipline of
    [resolve]. *)
Lemma popStack_pushStack st c a :
  validC st c -> popStack c (pushStack c a st) = st.
Proof.
  intros H. unfold popStack. rewrite getC_pushStack by exact H.
  unfold pushStack. rewrite setC_setC.
  rewrite set_resolvingStack_twice, resolvingStack_set.
  rewrite removelast_last, set_resolvingStack_id.
  now apply setC_getC.
Qed.

Lemma lookupBinding_pushStack st c a c' X :
  validC st c ->
  lookupBinding (pushStack c a st) c' X = lookupBinding st c' X.
Proof.
  intros H. unfold lookupBinding.
  destruct (Nat.eq_dec c c') as [->|Hne].
  - rewrite getC_pushStack by exact H. reflexivity.
  - rewrite getC_pushStack_other by exact Hne. reflexivity.
Qed.

(** ** Resolution misses *)

Lemma getAlias_none k X :
  map_get Bindable_eqb (aliases k) X = None -> getAlias k X = X.
Proof. intros H; destruct X; simpl; now rewrite ?H. Qed.

Lemma Unprovided_frame st st' X p :
  List.length (containers st') = List.length (containers st) ->
  (forall q, q <= p -> getC st' q = getC st q) ->
  Unprovided st X p -> Unprovided st' X p.
Proof.
  intros Hlen Hsame H. induction H as [c Hv Hn Hp | c p Hv Hn Hp Hlt _ IH].
  - apply Unprovided_root.
    + unfold validC in *; lia.
    + unfold nothingLocal in *; now rewrite Hsame by lia.
    + now rewrite Hsame by lia.
  - apply Unprovided_child with (p := p); auto.
    + unfold validC in *; lia.
    + unfold nothingLocal in *; now rewrite Hsame by lia.
    + now rewrite Hsame by lia.
    + apply IH. intros q Hq; apply Hsame; lia.
Qed.

Lemma nothingLocal_pushStack st c X :
  validC st c -> nothingLocal st c X ->
  lookupBinding (pushStack c X st) c X = None.
Proof.
  intros Hv (_ & _ & Hb & _).
  rewrite lookupBinding_pushStack by exact Hv.
  unfold lookupBinding; now rewrite Hb.
Qed.

(** A miss along the whole parent chain: every container on the way pushes
    the identifier, finds no binding and hands the original identifier to
    its parent; the root throws and every [finally] pops. *)
Lemma unprovided_throws impl P fuel :
  forall st c X context,
    Unprovided st X c ->
    c < fuel ->
    resolve impl P fuel c X context st
    = Throw (UnresolvedDependencyError X) st.
Proof.
  induction fuel as [|n IH]; intros st c X context HU Hlt.
  - lia.
  - simpl. unfold resolveStep.
    assert (Hv : validC st c) by (destruct HU; assumption).
    assert (Hn : nothingLocal st c X) by (destruct HU; assumption).
    destruct Hn as (Ha & Hi & Hb & Hs).
    rewrite (getAlias_none _ _ Ha), Hi, Hs.
    unfold finally_, resolveTry.
    rewrite nothingLocal_pushStack by (auto; repeat split; auto).
    rewrite getC_pushStack by exact Hv. simpl.
    inversion HU as [c' _ _ Hp | c' p _ _ Hp Hpc HUp]; subst c'; rewrite Hp.
    + now rewrite popStack_pushStack.
    + rewrite IH.
      * now rewrite popStack_pushStack.
      * apply Unprovided_frame with (st := st); auto.
        -- unfold pushStack, setC; simpl. apply list_upd_length.
        -- intros q Hq. apply getC_pushStack_other. lia.
      * lia.
Qed.

(** C4.  An identifier with no alias target, no instance and no binding in the
    container nor in any ancestor along the parent chain does not resolve:
    with fuel for the length of the chain, [resolve] throws
    [UnresolvedDependencyError] constructed from that identifier, whatever
    the context argument, and leaves the store as it found it.  The message
    of the error ends with the type name computed from the identifier. *)
Theorem resolve_unprovided_throws :
  forall impl P fuel st c X context,
    Unprovided st X c ->
    c < fuel ->
    resolve impl P fuel c X context st
    = Throw (UnresolvedDependencyError X) st /\
    message (UnresolvedDependencyError X)
    = ("No binding found for the given type: " ++ typeName X)%string.
Proof.
  intros impl P fuel st c X context HU Hlt. split.
  - now apply unprovided_throws.
  - reflexivity.
Qed.

Lemma resolve_unprovided_throws_witness :
  resolve ContainerTs sampleProgram 2 1 (BString "Missing") None scopeStore
  = Throw (UnresolvedDependencyError (BString "Missing")) scopeStore /\
  message (UnresolvedDependencyError (BString "Missing"))
  = "No binding found for the given type: Missing".
Proof.
  apply (resolve_unprovided_throws ContainerTs sampleProgram 2 scopeStore 1
           (BString "Missing") None); [|lia].
  apply Unprovided_child with (p := 0);
    [ unfold validC; simpl; lia | repeat split | reflexivity | lia | ].
  apply Unprovided_root;
    [ unfold validC; simpl; lia | repeat split | reflexivity ].
Defined.

(** ** Stepping through [resolve] *)

(** Entering the [try] block: the identifier (after alias indirection) has
    no shared instance, is not under construction and has a binding here. *)
Lemma resolve_enters impl P n st c X X' context r b :
  validC st c ->
  getAlias (getC st c) X = X' ->
  map_get Bindable_eqb (instances (getC st c)) X' = None ->
  includes X' (resolvingStack (getC st c)) = false ->
  lookupBinding st c X' = Some (r, b) ->
  resolve impl P (S n) c X context st
  = finally_ (instance <- instantiate impl P (resolve impl P n) c X' context r b ;;
              applyMiddleware P n (resolve impl P n) c instance)
             (popStack c) (pushStack c X' st).
Proof.
  intros Hv Ha Hi Hs Hb. simpl. unfold resolveStep.
  rewrite Ha, Hi, Hs. unfold finally_, resolveTry.
  rewrite lookupBinding_pushStack by exact Hv. now rewrite Hb.
Qed.

Lemma buildable_pushStack st c a b :
  validC st c -> buildable st c b -> buildable (pushStack c a st) c b.
Proof.
  intros Hv [H1 H2]; split; auto.
  intros x Hx. rewrite getC_pushStack by exact Hv. simpl. now apply H2.
Qed.

Lemma runResolver_throws P self st c b e s' :
  buildable st c b ->
  factoryCode P (factory b) self c None st = Throw e s' ->
  runResolver P self b c None st = Throw e s'.
Proof.
  intros [_ Hsc] Hf. unfold runResolver.
  destruct (resolver b) as [| |a] eqn:Er; auto.
  rewrite (Hsc a eq_refl). unfold bind_. now rewrite Hf.
Qed.

Lemma instantiate_throws impl P self st c X r b e s' :
  buildable st c b ->
  runResolver P self b c None st = Throw e s' ->
  instantiate impl P self c X None r b st = Throw e s'.
Proof.
  intros [Hsing _] Hr. unfold instantiate.
  assert (Hc : Lifetime_eqb (lifetime b) Singleton && truthy (instance b) = false).
  { destruct (lifetime b); simpl; auto. }
  rewrite Hc.
  destruct impl, (lifetime b); auto;
    unfold bind_, contextualOverride, build; simpl; now rewrite Hr.
Qed.

(** A factory that throws makes [resolve] throw the same error, with the
    resolving stack restored. *)
Lemma resolve_factory_throws impl P n st c X r b e :
  validC st c ->
  map_get Bindable_eqb (aliases (getC st c)) X = None ->
  map_get Bindable_eqb (instances (getC st c)) X = None ->
  includes X (resolvingStack (getC st c)) = false ->
  lookupBinding st c X = Some (r, b) ->
  buildable st c b ->
  factoryCode P (factory b) (resolve impl P n) c None (pushStack c X st)
  = Throw e (pushStack c X st) ->
  resolve impl P (S n) c X None st = Throw e st.
Proof.
  intros Hv Ha Hi Hs Hb Hbuild Hf.
  rewrite resolve_enters with (X' := X) (r := r) (b := b);
    auto using getAlias_none.
  unfold finally_, bind_.
  rewrite instantiate_throws with (e := e) (s' := pushStack c X st).
  - now rewrite popStack_pushStack.
  - now apply buildable_pushStack.
  - apply runResolver_throws; auto. now apply buildable_pushStack.
Qed.

(** ** Dependency cycles *)

(** [DIContainer.resolve] meeting the identifier on the stack. *)
Lemma resolve_on_stack_DI P n st c X context :
  map_get Bindable_eqb (aliases (getC st c)) X = None ->
  map_get Bindable_eqb (instances (getC st c)) X = None ->
  includes X (resolvingStack (getC st c)) = true ->
  resolve DIContainerTs P (S n) c X context st
  = Throw (CircularDependencyError
             (map String_ (resolvingStack (getC st c) ++ [X]))) st.
Proof.
  intros Ha Hi Hs. simpl. unfold resolveStep.
  now rewrite (getAlias_none _ _ Ha), Hi, Hs.
Qed.

(** [Container.resolve] meeting the identifier on the stack. *)
Lemma resolve_on_stack_Container P n st c X context :
  map_get Bindable_eqb (aliases (getC st c)) X = None ->
  map_get Bindable_eqb (instances (getC st c)) X = None ->
  includes X (resolvingStack (getC st c)) = true ->
  resolve ContainerTs P (S n) c X context st
  = (r <- freshRef ;; ret (VCircularProxy r c X)) st.
Proof.
  intros Ha Hi Hs. simpl. unfold resolveStep.
  now rewrite (getAlias_none _ _ Ha), Hi, Hs.
Qed.

(** The cycle A -> B -> A in [DIContainer], on any store where both
    bindings will run their factories. *)
Lemma cycle_throws_DI P n st c A B rA bA rB bB kA kB :
  A <> B ->
  validC st c ->
  map_get Bindable_eqb (aliases (getC st c)) A = None ->
  map_get Bindable_eqb (aliases (getC st c)) B = None ->
  map_get Bindable_eqb (instances (getC st c)) A = None ->
  map_get Bindable_eqb (instances (getC st c)) B = None ->
  includes A (resolvingStack (getC st c)) = false ->
  includes B (resolvingStack (getC st c)) = false ->
  lookupBinding st c A = Some (rA, bA) ->
  lookupBinding st c B = Some (rB, bB) ->
  buildable st c bA ->
  buildable st c bB ->
  factoryCode P (factory bA) = resolving B kA ->
  factoryCode P (factory bB) = resolving A kB ->
  resolve DIContainerTs P (3 + n) c A None st
  = Throw (CircularDependencyError
             (map String_ (resolvingStack (getC st c) ++ [A; B; A]))) st.
Proof.
  intros Hne Hv HaA HaB HiA HiB HsA HsB HbA HbB HuA HuB HfA HfB.
  set (st1 := pushStack c A st).
  assert (Hv1 : validC st1 c) by (now apply validC_pushStack).
  assert (Hk1 : getC st1 c
                = set_resolvingStack (getC st c) (resolvingStack (getC st c) ++ [A]))
    by (now apply getC_pushStack).
  set (st2 := pushStack c B st1).
  assert (Hk2 : getC st2 c
                = set_resolvingStack (getC st1 c) (resolvingStack (getC st1 c) ++ [B]))
    by (now apply getC_pushStack).
  apply resolve_factory_throws with (r := rA) (b := bA); auto.
  rewrite HfA. unfold resolving, bind_. fold st1.
  rewrite resolve_factory_throws
    with (r := rB) (b := bB)
         (e := CircularDependencyError
                 (map String_ (resolvingStack (getC st c) ++ [A; B; A]))); auto.
  - now rewrite Hk1.
  - now rewrite Hk1.
  - rewrite Hk1, resolvingStack_set, includes_app, HsB.
    now rewrite includes_single_other by congruence.
  - unfold st1. now rewrite lookupBinding_pushStack.
  - now apply buildable_pushStack.
  - rewrite HfB. unfold resolving, bind_. fold st2.
    rewrite resolve_on_stack_DI.
    + rewrite Hk2, Hk1, !resolvingStack_set, <- !app_assoc. reflexivity.
    + now rewrite Hk2, Hk1.
    + now rewrite Hk2, Hk1.
    + rewrite Hk2, Hk1, !resolvingStack_set, !includes_app.
      rewrite includes_single_same. now rewrite !orb_true_r.
Qed.

(** ** Frames: what resolution leaves alone *)

Lemma nth_list_upd_beyond {A} (l : list A) i a :
  List.length l <= i -> list_upd l i a = l.
Proof.
  revert i; induction l as [|x l IH]; intros [|i] H; simpl in *; auto; try lia.
  rewrite IH; auto; lia.
Qed.

Lemma list_upd_last {A} (l : list A) a b :
  list_upd (l ++ [a]) (List.length l) b = l ++ [b].
Proof. induction l as [|x l IH]; simpl; auto. now rewrite IH. Qed.

Lemma getC_setC st c c' k :
  getC (setC st c k) c'
  = if Nat.eqb c c' && Nat.ltb c (List.length (containers st))
    then k else getC st c'.
Proof.
  destruct (Nat.eqb_spec c c') as [->|Hne]; simpl.
  - destruct (Nat.ltb_spec c' (List.length (containers st))).
    + now apply getC_setC_same.
    + unfold getC, setC; simpl. now rewrite nth_list_upd_beyond.
  - now apply getC_setC_other.
Qed.

Lemma shellC_getC_setC st c c' k :
  shellC k = shellC (getC st c) ->
  shellC (getC (setC st c k) c') = shellC (getC st c').
Proof.
  intros H. rewrite getC_setC.
  destruct (Nat.eqb_spec c c') as [->|Hne]; simpl; auto.
  destruct (Nat.ltb c' (List.length (containers st))); auto.
Qed.

Lemma sameShell_refl s : sameShell s s.
Proof. split; [|split; [|split]]; reflexivity. Qed.

Lemma sameShell_trans s1 s2 s3 :
  sameShell s1 s2 -> sameShell s2 s3 -> sameShell s1 s3.
Proof.
  intros (A1 & B1 & C1 & D1) (A2 & B2 & C2 & D2).
  split; [congruence|]. split; [congruence|]. split; [congruence|].
  intros c. now rewrite D2, D1.
Qed.

Lemma sameShell_setC st c k :
  shellC k = shellC (getC st c) -> sameShell st (setC st c k).
Proof.
  intros H. split; [|split; [|split]]; try reflexivity.
  - unfold setC; simpl. apply list_upd_length.
  - intros c'. now apply shellC_getC_setC.
Qed.

Lemma sameShell_pushStack st c a : sameShell st (pushStack c a st).
Proof. unfold pushStack. now apply sameShell_setC. Qed.

Lemma sameShell_popStack st c : sameShell st (popStack c st).
Proof. unfold popStack. now apply sameShell_setC. Qed.

Lemma sameShell_afterMiddleware st : sameShell st (afterMiddleware st).
Proof. split; [|split; [|split]]; reflexivity. Qed.

Lemma sameShell_instancesSet st c X v st' :
  instancesSet c X v st = Ok tt st' -> sameShell st st'.
Proof.
  unfold instancesSet. intros H; inversion H; subst.
  now apply sameShell_setC.
Qed.

Lemma sameShell_setBindingInstance st r v st' :
  setBindingInstance r v st = Ok tt st' -> sameShell st st'.
Proof.
  unfold setBindingInstance. destruct (getB st r); intros H; inversion H; subst.
  - split; [|split; [|split]]; reflexivity.
  - apply sameShell_refl.
Qed.

Lemma sameShell_validC s s' c : sameShell s s' -> validC s c -> validC s' c.
Proof. intros (A & _) H. unfold validC in *. lia. Qed.

Lemma sameShell_middlewares s s' c :
  sameShell s s' -> middlewares (getC s' c) = middlewares (getC s c).
Proof.
  intros (_ & _ & _ & D). specialize (D c). unfold shellC in D. congruence.
Qed.

Lemma sameShell_aliases s s' c :
  sameShell s s' -> aliases (getC s' c) = aliases (getC s c).
Proof.
  intros (_ & _ & _ & D). specialize (D c). unfold shellC in D. congruence.
Qed.

Lemma sameShell_bindings s s' c :
  sameShell s s' -> bindings (getC s' c) = bindings (getC s c).
Proof.
  intros (_ & _ & _ & D). specialize (D c). unfold shellC in D. congruence.
Qed.

Lemma sameShell_nextObject s s' : sameShell s s' -> nextObject s' = nextObject s.
Proof. now intros (_ & B & _). Qed.

(** With no middleware registered, [applyMiddleware] hands the instance
    back. *)
Lemma applyMiddleware_nil P fuel self c v st :
  middlewares (getC st c) = [] ->
  applyMiddleware P fuel self c v st = Ok v (afterMiddleware st).
Proof.
  intros Hm. unfold applyMiddleware, allocCell.
  destruct fuel; simpl.
  all: rewrite app_nth2 by lia; rewrite Nat.sub_diag; simpl.
  all: unfold getC in *; simpl; rewrite Hm; simpl.
  all: unfold setCell, afterMiddleware; simpl; f_equal; f_equal.
  all: apply list_upd_last.
Qed.

(** Leaving [resolve] after the instance is known. *)
Lemma resolve_finishes impl P n st c X X' context r b v s2 :
  validC st c ->
  getAlias (getC st c) X = X' ->
  map_get Bindable_eqb (instances (getC st c)) X' = None ->
  includes X' (resolvingStack (getC st c)) = false ->
  lookupBinding st c X' = Some (r, b) ->
  instantiate impl P (resolve impl P n) c X' context r b (pushStack c X' st)
  = Ok v s2 ->
  middlewares (getC s2 c) = [] ->
  resolve impl P (S n) c X context st
  = Ok v (popStack c (afterMiddleware s2)).
Proof.
  intros Hv Ha Hi Hs Hb Hinst Hm.
  rewrite resolve_enters with (X' := X') (r := r) (b := b); auto.
  unfold finally_, bind_. rewrite Hinst.
  now rewrite applyMiddleware_nil.
Qed.

(** ** Registration *)

Lemma registerBinding_facts st c X b st' :
  validC st c ->
  registerBinding c X b st = Ok tt st' ->
  validC st' c /\
  lookupBinding st' c X = Some (List.length (bindingObjects st), b) /\
  (forall Y r' b', Y <> X -> lookupBinding st c Y = Some (r', b') ->
                   lookupBinding st' c Y = Some (r', b')) /\
  instances (getC st' c) = instances (getC st c) /\
  aliases (getC st' c) = aliases (getC st c) /\
  resolvingStack (getC st' c) = resolvingStack (getC st c) /\
  middlewares (getC st' c) = middlewares (getC st c) /\
  contextualBindings (getC st' c) = contextualBindings (getC st c) /\
  nextObject st' = nextObject st.
Proof.
  intros Hv H. unfold registerBinding, allocB in H. inversion H; subst; clear H.
  set (st1 := mkState _ _ _ _ _).
  assert (Hv1 : validC st1 c) by exact Hv.
  assert (Hk : getC st1 c = getC st c) by reflexivity.
  split; [now apply validC_setC|].
  split.
  { unfold lookupBinding. rewrite getC_setC_same by exact Hv1. simpl.
    rewrite map_get_set_same. unfold getB; simpl.
    rewrite nth_error_app2 by lia. now rewrite Nat.sub_diag. }
  split.
  { intros Y r' b' Hne HY. unfold lookupBinding in *.
    rewrite getC_setC_same by exact Hv1. simpl.
    rewrite map_get_set_other by congruence. rewrite Hk.
    destruct (map_get Bindable_eqb (bindings (getC st c)) Y) as [r0|]; try discriminate.
    unfold getB in *; simpl.
    destruct (nth_error (bindingObjects st) r0) eqn:E; try discriminate.
    rewrite nth_error_app1 by (apply nth_error_Some; congruence).
    now rewrite E. }
  rewrite getC_setC_same by exact Hv1. simpl. rewrite Hk. repeat split.
Qed.

Lemma register_is_registerBinding impl P how c X f :
  exists b,
    register impl P how c X f = registerBinding c X b /\
    factory b = f /\ instance b = VUndefined /\
    (forall a, resolver b = ResolverOfScoped a -> a = X).
Proof.
  destruct how; simpl;
    [ exists (mkBinding f Transient VUndefined ResolverOfBind)
    | exists (mkBinding f Singleton VUndefined ResolverIsFactory)
    | exists (mkBinding f Transient VUndefined ResolverIsFactory)
    | exists (mkBinding f Scoped VUndefined (ResolverOfScoped X)) ];
    simpl; repeat split; try discriminate; try congruence.
Qed.

(** ** Successful builds *)

Lemma runResolver_builds P self st c b v s1 :
  buildable st c b ->
  factoryCode P (factory b) self c None st = Ok v s1 ->
  exists s2, runResolver P self b c None st = Ok v s2 /\ sameShell s1 s2.
Proof.
  intros [_ Hsc] Hf. unfold runResolver.
  destruct (resolver b) as [| |a] eqn:Er.
  - exists s1; split; auto using sameShell_refl.
  - exists s1; split; auto using sameShell_refl.
  - rewrite (Hsc a eq_refl). unfold bind_. rewrite Hf.
    eexists; split; [reflexivity|].
    now apply sameShell_setC.
Qed.

Lemma instantiate_builds impl P self st c X r b v s1 :
  buildable st c b ->
  factoryCode P (factory b) self c None st = Ok v s1 ->
  exists s2, instantiate impl P self c X None r b st = Ok v s2 /\ sameShell s1 s2.
Proof.
  intros Hb Hf.
  destruct (runResolver_builds P self st c b v s1 Hb Hf) as (s2 & Hr & Hs).
  destruct Hb as [Hsing _]. unfold instantiate.
  assert (Hc : Lifetime_eqb (lifetime b) Singleton && truthy (instance b) = false).
  { destruct (lifetime b); simpl; auto. }
  rewrite Hc.
  assert (Hgen :
    exists s3,
      (given <- contextualOverride P self c X None ;;
       instance <- (if truthy given then ret given else build P self b c None) ;;
       (if Lifetime_eqb (lifetime b) Singleton
        then setBindingInstance r instance ;;; instancesSet c X instance
        else ret tt) ;;;
       ret instance) st = Ok v s3 /\ sameShell s1 s3).
  { unfold bind_, contextualOverride, build; simpl. rewrite Hr.
    destruct (Lifetime_eqb (lifetime b) Singleton).
    - destruct (setBindingInstance r v s2) as [[] s3| |] eqn:E1;
        try (unfold setBindingInstance in E1; destruct (getB s2 r); discriminate).
      destruct (instancesSet c X v s3) as [[] s4| |] eqn:E2;
        try (unfold instancesSet in E2; discriminate).
      exists s4; split; auto.
      eapply sameShell_trans; [exact Hs|].
      eapply sameShell_trans; [eapply sameShell_setBindingInstance; eauto|].
      eapply sameShell_instancesSet; eauto.
    - exists s2; split; auto. }
  destruct impl, (lifetime b); auto.
  exists s2; split; auto.
Qed.

(** A binding whose factory returns makes [resolve] return the same value
    when no middleware is registered; the store differs from the one the
    factory left only in caches, stack and [index] cells. *)
Lemma resolve_builds impl P n st c X r b v s1 :
  validC st c ->
  map_get Bindable_eqb (aliases (getC st c)) X = None ->
  map_get Bindable_eqb (instances (getC st c)) X = None ->
  includes X (resolvingStack (getC st c)) = false ->
  lookupBinding st c X = Some (r, b) ->
  buildable st c b ->
  factoryCode P (factory b) (resolve impl P n) c None (pushStack c X st)
  = Ok v s1 ->
  middlewares (getC s1 c) = [] ->
  exists s', resolve impl P (S n) c X None st = Ok v s' /\ sameShell s1 s'.
Proof.
  intros Hv Ha Hi Hs Hb Hbuild Hf Hm.
  rewrite resolve_enters with (X' := X) (r := r) (b := b);
    auto using getAlias_none.
  destruct (instantiate_builds impl P _ _ c X r b v s1
              (buildable_pushStack st c X b Hv Hbuild) Hf)
    as (s2 & Hinst & Hsh).
  unfold finally_, bind_. rewrite Hinst.
  rewrite applyMiddleware_nil
    by (now rewrite (sameShell_middlewares _ _ c Hsh)).
  eexists; split; [reflexivity|].
  eapply sameShell_trans; [exact Hsh|].
  eapply sameShell_trans; [apply sameShell_afterMiddleware|].
  apply sameShell_popStack.
Qed.

(** The cycle A -> B -> A in [Container]: the innermost [resolve(A)] hands
    out the stand-in, B is constructed around it and A around B. *)
Lemma cycle_returns_Container P n st c A B rA bA rB bB dA dB :
  A <> B ->
  validC st c ->
  map_get Bindable_eqb (aliases (getC st c)) A = None ->
  map_get Bindable_eqb (aliases (getC st c)) B = None ->
  map_get Bindable_eqb (instances (getC st c)) A = None ->
  map_get Bindable_eqb (instances (getC st c)) B = None ->
  includes A (resolvingStack (getC st c)) = false ->
  includes B (resolvingStack (getC st c)) = false ->
  middlewares (getC st c) = [] ->
  lookupBinding st c A = Some (rA, bA) ->
  lookupBinding st c B = Some (rB, bB) ->
  buildable st c bA ->
  buildable st c bB ->
  factoryCode P (factory bA) = constructing dA B ->
  factoryCode P (factory bB) = constructing dB A ->
  exists st',
    resolve ContainerTs P (3 + n) c A None st
    = Ok (VObject (2 + nextObject st) dA
            [VObject (1 + nextObject st) dB
               [VCircularProxy (nextObject st) c A]]) st'.
Proof.
  intros Hne Hv HaA HaB HiA HiB HsA HsB Hm HbA HbB HuA HuB HfA HfB.
  set (st1 := pushStack c A st).
  assert (Hv1 : validC st1 c) by (now apply validC_pushStack).
  assert (Hk1 : getC st1 c
                = set_resolvingStack (getC st c) (resolvingStack (getC st c) ++ [A]))
    by (now apply getC_pushStack).
  set (st2 := pushStack c B st1).
  assert (Hk2 : getC st2 c
                = set_resolvingStack (getC st1 c) (resolvingStack (getC st1 c) ++ [B]))
    by (now apply getC_pushStack).
  (* B's frame *)
  assert (HB : exists sB,
             resolve ContainerTs P (2 + n) c B None st1
             = Ok (VObject (1 + nextObject st) dB
                     [VCircularProxy (nextObject st) c A]) sB
             /\ nextObject sB = 2 + nextObject st
             /\ middlewares (getC sB c) = [] ).
  { edestruct (resolve_builds ContainerTs P (S n) st1 c B rB bB) as (sB & HR & Hsh).
    - exact Hv1.
    - now rewrite Hk1.
    - now rewrite Hk1.
    - rewrite Hk1, resolvingStack_set, includes_app, HsB.
      now rewrite includes_single_other by congruence.
    - unfold st1. now rewrite lookupBinding_pushStack.
    - now apply buildable_pushStack.
    - rewrite HfB. unfold constructing, resolving, bind_. fold st2.
      rewrite resolve_on_stack_Container.
      + unfold bind_, newObject, bind_, freshRef, ret. reflexivity.
      + now rewrite Hk2, Hk1.
      + now rewrite Hk2, Hk1.
      + rewrite Hk2, Hk1, !resolvingStack_set, !includes_app.
        rewrite includes_single_same. now rewrite !orb_true_r.
    - change (middlewares (getC st2 c) = []). now rewrite Hk2, Hk1.
    - exists sB. split; [exact HR|]. split.
      + now rewrite (sameShell_nextObject _ _ Hsh).
      + rewrite (sameShell_middlewares _ _ c Hsh).
        change (middlewares (getC st2 c) = []). now rewrite Hk2, Hk1. }
  destruct HB as (sB & HRB & HnB & HmB).
  (* A's frame *)
  assert (HFA : factoryCode P (factory bA) (resolve ContainerTs P (2 + n)) c None st1
                = Ok (VObject (2 + nextObject st) dA
                        [VObject (1 + nextObject st) dB
                           [VCircularProxy (nextObject st) c A]])
                     (mkState (containers sB) (bindingObjects sB)
                              (S (nextObject sB)) (indexCells sB) (disposeLog sB))).
  { rewrite HfA. unfold constructing, resolving, bind_.
    rewrite HRB. unfold newObject, bind_, freshRef, ret. rewrite HnB.
    reflexivity. }
  destruct (resolve_builds ContainerTs P (2 + n) st c A rA bA _ _
              Hv HaA HiA HsA HbA HuA HFA HmB) as (sA & HR & _).
  exists sA. exact HR.
Qed.

(** What the two classes do on a cycle of two.  [A] is registered with a
    factory [(c) => kA(c.resolve(B))] and [B] with [(c) => kB(c.resolve(A))],
    by any of the four registration methods, on a container where neither
    identifier is aliased, cached or under construction.  In [DIContainer],
    [resolve(A)] throws [CircularDependencyError] whose chain is the
    resolving stack followed by A, B, A, and restores the store.  In
    [Container], with factories of the form [(c) => new T(c.resolve(dep))]
    and no middleware, [resolve(A)] returns: the innermost [resolve(A)]
    yields the stand-in, B is built around it and A around B. *)
Theorem cycle_detection :
  forall impl P howA howB st0 st1 st c A B fA fB kA kB n,
    A <> B ->
    validC st0 c ->
    map_get Bindable_eqb (aliases (getC st0 c)) A = None ->
    map_get Bindable_eqb (aliases (getC st0 c)) B = None ->
    map_get Bindable_eqb (instances (getC st0 c)) A = None ->
    map_get Bindable_eqb (instances (getC st0 c)) B = None ->
    includes A (resolvingStack (getC st0 c)) = false ->
    includes B (resolvingStack (getC st0 c)) = false ->
    register impl P howA c A fA st0 = Ok tt st1 ->
    register impl P howB c B fB st1 = Ok tt st ->
    factoryCode P fA = resolving B kA ->
    factoryCode P fB = resolving A kB ->
    match impl with
    | DIContainerTs =>
        resolve DIContainerTs P (3 + n) c A None st
        = Throw (CircularDependencyError
                   (map String_ (resolvingStack (getC st0 c) ++ [A; B; A]))) st
    | ContainerTs =>
        forall dA dB,
          kA = (fun v => newObject dA [v]) ->
          kB = (fun v => newObject dB [v]) ->
          middlewares (getC st0 c) = [] ->
          exists st',
            resolve ContainerTs P (3 + n) c A None st
            = Ok (VObject (2 + nextObject st0) dA
                    [VObject (1 + nextObject st0) dB
                       [VCircularProxy (nextObject st0) c A]]) st'
    end.
Proof.
  intros impl P howA howB st0 st1 st c A B fA fB kA kB n
         Hne Hv HaA HaB HiA HiB HsA HsB HrA HrB HfA HfB.
  destruct (register_is_registerBinding impl P howA c A fA)
    as (bA & EA & HfacA & HinstA & HscA).
  destruct (register_is_registerBinding impl P howB c B fB)
    as (bB & EB & HfacB & HinstB & HscB).
  rewrite EA in HrA. rewrite EB in HrB.
  destruct (registerBinding_facts st0 c A bA st1 Hv HrA)
    as (Hv1 & HlA1 & _ & Hi1 & Ha1 & Hs1 & Hm1 & _ & Hn1).
  destruct (registerBinding_facts st1 c B bB st Hv1 HrB)
    as (Hv2 & HlB & Hkeep & Hi2 & Ha2 & Hs2 & Hm2 & _ & Hn2).
  assert (HlA : lookupBinding st c A
                = Some (List.length (bindingObjects st0), bA))
    by (apply Hkeep; auto).
  assert (HuA : buildable st c bA).
  { split.
    - intros _. now rewrite HinstA.
    - intros a Ha. rewrite (HscA a Ha). now rewrite Hi2, Hi1. }
  assert (HuB : buildable st c bB).
  { split.
    - intros _. now rewrite HinstB.
    - intros a Ha. rewrite (HscB a Ha). now rewrite Hi2, Hi1. }
  destruct impl.
  - intros dA dB EkA EkB Hm. subst kA kB.
    rewrite <- Hn1, <- Hn2.
    eapply cycle_returns_Container; eauto.
    all: try (rewrite ?Ha2, ?Ha1, ?Hi2, ?Hi1, ?Hs2, ?Hs1, ?Hm2, ?Hm1; assumption).
    + now rewrite HfacA.
    + now rewrite HfacB.
  - rewrite <- Hs1, <- Hs2.
    eapply cycle_throws_DI; eauto.
    all: try (rewrite ?Ha2, ?Ha1, ?Hi2, ?Hi1, ?Hs2, ?Hs1; assumption).
    + rewrite HfacA. exact HfA.
    + rewrite HfacB. exact HfB.
Qed.

Lemma cycle_detection_witness :
  resolve DIContainerTs sampleProgram 3 0 idA None (cycleStore DIContainerTs)
  = Throw (CircularDependencyError ["A"; "B"; "A"]) (cycleStore DIContainerTs).
Proof.
  refine (cycle_detection DIContainerTs sampleProgram ByBind ByBind
            oneContainer _ _ 0 idA idB 0 1
            (fun v => newObject false [v]) (fun v => newObject false [v]) 0
            _ _ _ _ _ _ _ _ _ _ _ _);
    first [ discriminate | reflexivity | (unfold validC; simpl; lia) ].
Defined.

(** C1 evaluated for [Container] on the cycle of the documentation
    ([c.bind("A", (c) => new A(c.resolve("B")))] and
    [c.bind("B", (c) => new B(c.resolve("A")))]): [resolve("A")] returns
    an object whose dependency's dependency is the stand-in and throws no
    [CircularDependencyError], where the claim, the example of the
    repository and the sibling class [DIContainer] have the error. *)
Lemma cycle_not_reported_by_Container :
  (exists st',
     resolve ContainerTs sampleProgram 3 0 idA None (cycleStore ContainerTs)
     = Ok (VObject 2 false [VObject 1 false [VCircularProxy 0 0 idA]]) st') /\
  (forall chain st',
     resolve ContainerTs sampleProgram 3 0 idA None (cycleStore ContainerTs)
     <> Throw (CircularDependencyError chain) st').
Proof.
  split.
  - eexists. vm_compute. reflexivity.
  - intros chain st'. vm_compute. discriminate.
Qed.

(** ** Singleton caching *)

(** The shared-instance short-circuit (container.ts:163-165): no user code
    runs and the store is untouched. *)
Lemma resolve_cached impl P m st c X context v :
  map_get Bindable_eqb (aliases (getC st c)) X = None ->
  map_get Bindable_eqb (instances (getC st c)) X = Some v ->
  resolve impl P (S m) c X context st = Ok v st.
Proof.
  intros Ha Hi. simpl. unfold resolveStep.
  now rewrite (getAlias_none _ _ Ha), Hi.
Qed.

Lemma instances_popStack st c :
  instances (getC (popStack c st) c) = instances (getC st c).
Proof.
  unfold popStack. rewrite getC_setC, Nat.eqb_refl. simpl.
  now destruct (Nat.ltb c (List.length (containers st))).
Qed.

Lemma instantiate_singleton_caches impl P self st c X r b v s1 :
  lifetime b = Singleton ->
  truthy (instance b) = false ->
  resolver b = ResolverIsFactory ->
  factoryCode P (factory b) self c None st = Ok v s1 ->
  validC s1 c ->
  exists s2,
    instantiate impl P self c X None r b st = Ok v s2 /\
    sameShell s1 s2 /\
    map_get Bindable_eqb (instances (getC s2 c)) X = Some v.
Proof.
  intros Hl Ht Hr Hf Hv. unfold instantiate. rewrite Hl, Ht. simpl.
  assert (Hgen :
    exists s2,
      (given <- contextualOverride P self c X None ;;
       instance <- (if truthy given then ret given else build P self b c None) ;;
       (setBindingInstance r instance ;;; instancesSet c X instance) ;;;
       ret instance) st = Ok v s2 /\
      sameShell s1 s2 /\
      map_get Bindable_eqb (instances (getC s2 c)) X = Some v).
  { unfold bind_, contextualOverride, build, runResolver; simpl.
    rewrite Hr, Hf.
    destruct (setBindingInstance r v s1) as [[] s3| |] eqn:E1;
      try (unfold setBindingInstance in E1; destruct (getB s1 r); discriminate).
    assert (Hsh3 : sameShell s1 s3) by (eapply sameShell_setBindingInstance; eauto).
    unfold instancesSet, ret. eexists. split; [reflexivity|]. split.
    - eapply sameShell_trans; [exact Hsh3|]. now apply sameShell_setC.
    - rewrite getC_setC_same by (eapply sameShell_validC; eauto).
      simpl. apply map_get_set_same. }
  destruct impl; exact Hgen.
Qed.

Lemma singleton_facts st0 c X f st :
  validC st0 c ->
  singleton c X f st0 = Ok tt st ->
  validC st c /\
  lookupBinding st c X
  = Some (List.length (bindingObjects st0),
          mkBinding f Singleton VUndefined ResolverIsFactory) /\
  instances (getC st c) = instances (getC st0 c) /\
  aliases (getC st c) = aliases (getC st0 c) /\
  resolvingStack (getC st c) = resolvingStack (getC st0 c).
Proof.
  intros Hv H. unfold singleton in H.
  destruct (registerBinding_facts st0 c X _ st Hv H)
    as (A & B & _ & C & D & E & _).
  repeat split; assumption.
Qed.

(** C2 as the code has it.  [X] is registered with [singleton(X, factory)]
    on a container where [X] is not an alias, has no instance yet and is
    not under construction, and the factory, when run, returns [v] and
    leaves a container without middleware in which [X] is still no alias.
    Then the first [resolve(X)] returns [v], and every later [resolve(X)]
    returns the same [v], whatever program is installed (so no factory
    runs again) and without changing the store. *)
Theorem singleton_resolves_to_same_instance :
  forall impl P n st0 st c X f v s1,
    validC st0 c ->
    map_get Bindable_eqb (aliases (getC st0 c)) X = None ->
    map_get Bindable_eqb (instances (getC st0 c)) X = None ->
    includes X (resolvingStack (getC st0 c)) = false ->
    singleton c X f st0 = Ok tt st ->
    factoryCode P f (resolve impl P n) c None (pushStack c X st) = Ok v s1 ->
    validC s1 c ->
    middlewares (getC s1 c) = [] ->
    map_get Bindable_eqb (aliases (getC s1 c)) X = None ->
    exists st1,
      resolve impl P (S n) c X None st = Ok v st1 /\
      forall P' m context,
        resolve impl P' (S m) c X context st1 = Ok v st1.
Proof.
  intros impl P n st0 st c X f v s1 Hv Ha Hi Hs Hsing Hf Hv1 Hm Ha1.
  destruct (singleton_facts st0 c X f st Hv Hsing) as (Hvs & Hl & Hi' & Ha' & Hs').
  rewrite resolve_enters
    with (X' := X) (r := List.length (bindingObjects st0))
         (b := mkBinding f Singleton VUndefined ResolverIsFactory);
    auto; try (rewrite ?Hi', ?Hs'; assumption);
    try (apply getAlias_none; now rewrite Ha').
  destruct (instantiate_singleton_caches impl P (resolve impl P n)
              (pushStack c X st) c X (List.length (bindingObjects st0))
              (mkBinding f Singleton VUndefined ResolverIsFactory) v s1)
    as (s2 & Hinst & Hsh & Hget); auto.
  unfold finally_, bind_. rewrite Hinst.
  rewrite applyMiddleware_nil by (now rewrite (sameShell_middlewares _ _ c Hsh)).
  eexists. split; [reflexivity|].
  intros P' m context. apply resolve_cached.
  - rewrite (sameShell_aliases _ _ c (sameShell_popStack _ c)).
    change (map_get Bindable_eqb (aliases (getC s2 c)) X = None).
    now rewrite (sameShell_aliases _ _ c Hsh).
  - rewrite instances_popStack. exact Hget.
Qed.

Lemma singleton_resolves_to_same_instance_witness :
  exists st1,
    resolve ContainerTs sampleProgram 1 0 idService None singletonStore
    = Ok (VObject 0 true []) st1 /\
    forall P' m context,
      resolve ContainerTs P' (S m) 0 idService context st1
      = Ok (VObject 0 true []) st1.
Proof.
  refine (singleton_resolves_to_same_instance ContainerTs sampleProgram 0
            oneContainer singletonStore 0 idService 2 (VObject 0 true []) _
            _ _ _ _ _ _ _ _ _);
    first [ reflexivity | (unfold validC; simpl; lia) ].
Defined.

(** C2 fails as stated.  With the middleware [() => 42] installed, the
    first [resolve(Service)] of a singleton returns what the middleware
    returns, 42, and the second the cached object, in both classes.  And
    when the name bound by [singleton] is also an alias, [resolve] follows
    the alias: ["A"], an alias of the transient ["B"], resolves to a new
    object each time. *)
Lemma singleton_resolutions_can_differ :
  (exists st,
      resolveTwice ContainerTs sampleProgram 1 0 idService guardedSingletonStore
      = Ok (VNumber 42, VObject 0 true []) st) /\
  (exists st,
      resolveTwice DIContainerTs sampleProgram 1 0 idService guardedSingletonStore
      = Ok (VNumber 42, VObject 0 true []) st) /\
  (exists st,
      resolveTwice ContainerTs sampleProgram 1 0 idA aliasedSingletonStore
      = Ok (VObject 0 false [], VObject 1 false []) st) /\
  VNumber 42 <> VObject 0 true [] /\
  VObject 0 false [] <> VObject 1 false [].
Proof.
  repeat split; try discriminate; eexists; vm_compute; reflexivity.
Qed.

(** ** Scoped bindings *)

(** A container that has nothing of its own for [X] hands the call to its
    parent, without the context, and only pops its stack afterwards: what
    the parent builds, the parent caches. *)
Lemma scope_delegates_to_parent impl P n st s p X context :
  validC st s ->
  nothingLocal st s X ->
  parent (getC st s) = Some p ->
  resolve impl P (S n) s X context st
  = finally_ (resolve impl P n p X None) (popStack s) (pushStack s X st).
Proof.
  intros Hv (Ha & Hi & Hb & Hs) Hp. simpl. unfold resolveStep.
  rewrite (getAlias_none _ _ Ha), Hi, Hs.
  unfold finally_, resolveTry.
  rewrite lookupBinding_pushStack by exact Hv.
  unfold lookupBinding. rewrite Hb.
  rewrite getC_pushStack by exact Hv. simpl. now rewrite Hp.
Qed.

(** The scoped resolver run by the parent [p] on behalf of a scope: the
    instance lands in the parent's [instances]. *)
Lemma scoped_build_caches_in_container impl P self st p X r f v sF :
  map_get Bindable_eqb (instances (getC st p)) X = None ->
  factoryCode P f self p None st = Ok v sF ->
  instantiate impl P self p X None r
              (mkBinding f Scoped VUndefined (ResolverOfScoped X)) st
  = Ok v (setC sF p (set_instances (getC sF p)
                       (map_set Bindable_eqb (instances (getC sF p)) X v))).
Proof.
  intros Hi Hf. unfold instantiate. simpl.
  destruct impl; unfold bind_, contextualOverride, build, runResolver; simpl;
    rewrite Hi; unfold bind_; rewrite Hf; reflexivity.
Qed.

(** The defect behind C3, on any store: [X] is a scoped binding of [p] and
    [s1], [s2] are two different scopes of [p] with nothing of their own for
    [X].  If the factory returns [v] (leaving [s2] alone), [s1.resolve(X)]
    returns [v] and caches it in [p], and from then on [s2.resolve(X)]
    returns the very same [v] without running anything. *)
Lemma sibling_scopes_share impl P n st p s1 s2 X r f v sF :
  validC st p -> validC st s1 -> validC st s2 ->
  p <> s1 -> p <> s2 -> s1 <> s2 ->
  parent (getC st s1) = Some p ->
  parent (getC st s2) = Some p ->
  nothingLocal st s1 X ->
  nothingLocal st s2 X ->
  map_get Bindable_eqb (aliases (getC st p)) X = None ->
  map_get Bindable_eqb (instances (getC st p)) X = None ->
  includes X (resolvingStack (getC st p)) = false ->
  lookupBinding st p X
  = Some (r, mkBinding f Scoped VUndefined (ResolverOfScoped X)) ->
  factoryCode P f (resolve impl P n) p None (pushStack p X (pushStack s1 X st))
  = Ok v sF ->
  validC sF p -> validC sF s1 -> validC sF s2 ->
  middlewares (getC sF p) = [] ->
  map_get Bindable_eqb (aliases (getC sF p)) X = None ->
  getC sF s2 = getC st s2 ->
  exists st1,
    resolve impl P (S (S n)) s1 X None st = Ok v st1 /\
    forall P' m, resolve impl P' (S (S m)) s2 X None st1 = Ok v st1.
Proof.
  intros Hvp Hv1 Hv2 Hp1 Hp2 H12 Hpar1 Hpar2 Hn1 Hn2 Ha Hi Hs Hb Hf
         HvFp HvF1 HvF2 Hm HaF Hs2.
  set (sa := pushStack s1 X st).
  assert (Hvpa : validC sa p) by (now apply validC_pushStack).
  assert (Hkp : getC sa p = getC st p) by (now apply getC_pushStack_other).
  set (s3 := setC sF p (set_instances (getC sF p)
                          (map_set Bindable_eqb (instances (getC sF p)) X v))).
  assert (Hinst :
    instantiate impl P (resolve impl P n) p X None r
                (mkBinding f Scoped VUndefined (ResolverOfScoped X))
                (pushStack p X sa) = Ok v s3).
  { apply scoped_build_caches_in_container; auto.
    rewrite getC_pushStack by exact Hvpa. simpl. now rewrite Hkp. }
  assert (Hk3p : getC s3 p = set_instances (getC sF p)
                               (map_set Bindable_eqb (instances (getC sF p)) X v))
    by (unfold s3; now rewrite getC_setC_same).
  set (s4 := popStack p (afterMiddleware s3)).
  assert (HRp : resolve impl P (S n) p X None sa = Ok v s4).
  { unfold s4.
    apply resolve_finishes
      with (X' := X) (r := r)
           (b := mkBinding f Scoped VUndefined (ResolverOfScoped X)); auto.
    - apply getAlias_none. now rewrite Hkp.
    - now rewrite Hkp.
    - now rewrite Hkp.
    - unfold sa. now rewrite lookupBinding_pushStack.
    - now rewrite Hk3p. }
  set (st1 := popStack s1 s4).
  exists st1. split.
  { rewrite scope_delegates_to_parent with (p := p); auto.
    unfold finally_. fold sa. now rewrite HRp. }
  (* what the first resolution left behind *)
  assert (Hv3p : validC s3 p) by (unfold s3; now apply validC_setC).
  assert (Hk4p : getC s4 p
                 = set_resolvingStack (getC s3 p)
                     (removelast (resolvingStack (getC s3 p)))).
  { unfold s4, popStack.
    change (getC (afterMiddleware s3) p) with (getC s3 p).
    now rewrite getC_setC_same. }
  assert (Hk1p : getC st1 p = getC s4 p).
  { unfold st1, popStack. now rewrite getC_setC_other by congruence. }
  assert (Hk1s2 : getC st1 s2 = getC st s2).
  { unfold st1, popStack. rewrite getC_setC_other by congruence.
    unfold s4, popStack. rewrite getC_setC_other by congruence.
    change (getC (afterMiddleware s3) s2) with (getC s3 s2).
    unfold s3. rewrite getC_setC_other by congruence. exact Hs2. }
  assert (Hlen : forall q, validC sF q -> validC st1 q).
  { intros q Hq. unfold st1, popStack. apply validC_setC.
    unfold s4, popStack. apply validC_setC.
    change (validC s3 q). unfold s3. now apply validC_setC. }
  intros P' m.
  rewrite scope_delegates_to_parent with (p := p); auto.
  - unfold finally_.
    rewrite resolve_cached with (v := v).
    + now rewrite popStack_pushStack by (now apply Hlen).
    + rewrite getC_pushStack_other by congruence.
      rewrite Hk1p, Hk4p, Hk3p. simpl. exact HaF.
    + rewrite getC_pushStack_other by congruence.
      rewrite Hk1p, Hk4p, Hk3p. simpl. apply map_get_set_same.
  - unfold nothingLocal. rewrite Hk1s2. exact Hn2.
  - now rewrite Hk1s2.
Qed.

(** C3 at the documented example, in both classes: the two resolutions
    inside [scope1] agree, but so do [scope1] and [scope2], although the
    factory makes a new object on every call.  A scope created by
    [createScope] has no bindings of its own, so [resolve] delegates to the
    parent, which builds and caches the instance in its own store. *)
Theorem sibling_scopes_share_scoped_instance :
  forall impl,
    exists st,
      scopedScenario impl emptyState
      = Ok (VObject 0 false [], VObject 0 false [], VObject 0 false []) st /\
      map_get Bindable_eqb (instances (getC st 0)) idService
      = Some (VObject 0 false []) /\
      instances (getC st 1) = [] /\
      instances (getC st 2) = [].
Proof.
  intros []; eexists; vm_compute; repeat split; reflexivity.
Qed.

(** ** Tags *)

Lemma tagged_is_mapM impl P fuel c t st l :
  map_get String.eqb (tags (getC st c)) t = Some l ->
  tagged impl P fuel c t st
  = mapM (fun bindable => resolve impl P fuel c bindable None) l st.
Proof. intros H. unfold tagged. now rewrite H. Qed.

(** After [tag([A, B], t)] on an unused tag name, [tagged(t)] resolves [A]
    and then [B] and returns the two results in that order. *)
Lemma tagged_in_insertion_order impl P fuel c t A B st0 st :
  validC st0 c ->
  map_get String.eqb (tags (getC st0 c)) t = None ->
  tag c [A; B] t st0 = Ok tt st ->
  tagged impl P fuel c t st
  = (a <- resolve impl P fuel c A None ;;
     b <- resolve impl P fuel c B None ;;
     ret [a; b]) st.
Proof.
  intros Hv Hn H. unfold tag in H. unfold map_has in H. rewrite Hn in H.
  rewrite smap_get_set_same in H. inversion H; subst; clear H.
  rewrite tagged_is_mapM with (l := [A; B]).
  - simpl. unfold bind_, ret.
    destruct (resolve impl P fuel c A None _) as [a s1| |]; auto.
    destruct (resolve impl P fuel c B None s1) as [b s2| |]; auto.
  - rewrite getC_setC_same by exact Hv. simpl.
    apply smap_get_set_same.
Qed.

(** [Container.tagged] and [DIContainer.tagged] on a tag without members:
    [this.tags.get(tag) || []] is mapped, so the result is the empty array
    and nothing is thrown. *)
Lemma tagged_without_members impl P fuel c t st :
  map_get String.eqb (tags (getC st c)) t = None \/
  map_get String.eqb (tags (getC st c)) t = Some [] ->
  tagged impl P fuel c t st = Ok [] st.
Proof. intros [H|H]; unfold tagged; now rewrite H. Qed.

(** C6 evaluated on a new container, in both classes: tagging [A] and [B]
    and asking for the tag yields their instances in order, while a tag
    name never used, and one tagged with an empty list, yield [[]] where
    the claim, the documentation of [InvalidTagError] and the sibling
    class of [mod.ts] have an [InvalidTagError]. *)
Theorem tagged_on_unused_tag_returns_empty_array :
  forall impl,
    tagged impl sampleProgram 1 0 "nonexistent-tag" oneContainer
    = Ok [] oneContainer /\
    (tag 0 [] "empty" ;;; tagged impl sampleProgram 1 0 "empty") oneContainer
    = Ok [] (storeAfter (c <- newContainer ;; tag c [] "empty")) /\
    exists st,
      (singleton 0 idA 2 ;;; singleton 0 idB 3 ;;;
       tag 0 [idA; idB] "t" ;;;
       tagged impl sampleProgram 1 0 "t") oneContainer
      = Ok [VObject 0 true []; VObject 1 false []] st.
Proof.
  intros []; repeat split; try (eexists; vm_compute; reflexivity).
Qed.

(** The sibling path: [tagged] of [mod.ts] throws [InvalidTagError] for a
    tag with no members, whatever its [resolve] does. *)
Lemma Mod_tagged_without_members St tags resolve t (st : St) :
  map_get String.eqb (tags st) t = None \/
  map_get String.eqb (tags st) t = Some [] ->
  @Mod.tagged St tags resolve t st = (inr (InvalidTagError t), st).
Proof. intros [H|H]; unfold Mod.tagged; now rewrite H. Qed.

(** ** Aliases *)

Lemma getAlias_some k L target :
  isName L ->
  map_get Bindable_eqb (aliases k) L = Some target ->
  truthyB target = true ->
  getAlias k L = target.
Proof.
  intros HL Ha Ht. destruct L; simpl in *; try contradiction;
    now rewrite Ha, Ht.
Qed.

(** C5 as the code has it.  With [alias(M, Logger)] in force and [Logger]
    provided by the container itself (an instance or a binding) and not
    itself an alias,
    [resolve(M)] and [resolve(Logger)] are the same computation: same
    outcome and same final store, for every context and every binding of
    [Logger].  The indirection is one hop: if [L] is an alias of the alias
    [M], which has no binding or instance of its own, [resolve(L)] looks
    [M] up in the binding table, misses, and (nothing up the parent chain
    providing [L]) throws [UnresolvedDependencyError] for [L]. *)
Theorem alias_is_one_hop :
  forall impl P n st c L M Logger context,
    validC st c ->
    isName L -> isName M ->
    truthyB M = true -> truthyB Logger = true ->
    map_get Bindable_eqb (aliases (getC st c)) M = Some Logger ->
    getAlias (getC st c) Logger = Logger ->
    (map_get Bindable_eqb (instances (getC st c)) Logger <> None \/
     lookupBinding st c Logger <> None) ->
    resolve impl P n c M context st = resolve impl P n c Logger context st /\
    (map_get Bindable_eqb (aliases (getC st c)) L = Some M ->
     map_get Bindable_eqb (instances (getC st c)) M = None ->
     map_get Bindable_eqb (bindings (getC st c)) M = None ->
     includes M (resolvingStack (getC st c)) = false ->
     match parent (getC st c) with
     | None => True
     | Some p => p < c /\ Unprovided st L p
     end ->
     c <= n ->
     resolve impl P (S n) c L context st
     = Throw (UnresolvedDependencyError L) st).
Proof.
  intros impl P n st c L M Logger context Hv HL HM HtM HtL HaM HaL Hprov.
  split.
  - destruct n as [|n]; [reflexivity|]. simpl. unfold resolveStep.
    rewrite (getAlias_some _ M Logger HM HaM HtL), HaL.
    destruct (map_get Bindable_eqb (instances (getC st c)) Logger) eqn:Hi; auto.
    destruct (includes Logger (resolvingStack (getC st c))); auto.
    destruct Hprov as [Hp|Hp]; [congruence|].
    unfold finally_, resolveTry.
    rewrite lookupBinding_pushStack by exact Hv.
    destruct (lookupBinding st c Logger) as [[r b]|]; [reflexivity|congruence].
  - intros HaLM HiM HbM HsM Hpar Hfuel. simpl. unfold resolveStep.
    rewrite (getAlias_some _ L M HL HaLM HtM), HiM, HsM.
    unfold finally_, resolveTry.
    rewrite lookupBinding_pushStack by exact Hv.
    unfold lookupBinding. rewrite HbM.
    rewrite getC_pushStack by exact Hv. simpl.
    destruct (parent (getC st c)) as [p|].
    + destruct Hpar as [Hlt HU].
      rewrite unprovided_throws.
      * now rewrite popStack_pushStack.
      * apply Unprovided_frame with (st := st); auto.
        -- unfold pushStack, setC; simpl. apply list_upd_length.
        -- intros q Hq. apply getC_pushStack_other. lia.
      * lia.
    + now rewrite popStack_pushStack.
Qed.

Lemma alias_is_one_hop_witness :
  resolve ContainerTs sampleProgram 1 0 (BString "Log") None
          (aliasStore ContainerTs)
  = resolve ContainerTs sampleProgram 1 0 (BString "Logger") None
            (aliasStore ContainerTs) /\
  resolve ContainerTs sampleProgram 2 0 (BString "L") None
          (aliasStore ContainerTs)
  = Throw (UnresolvedDependencyError (BString "L")) (aliasStore ContainerTs).
Proof.
  destruct (alias_is_one_hop ContainerTs sampleProgram 1 (aliasStore ContainerTs)
              0 (BString "L") (BString "Log") (BString "Logger") None)
    as [H1 H2];
    try first [ exact I | reflexivity | (unfold validC; simpl; lia)
              | (right; discriminate) ].
  split; [exact H1|].
  apply H2; first [ exact I | reflexivity | lia ].
Defined.

(** C5 fails as stated.  ["Logger"] is bound in the root and
    [alias("L", "Logger")] is made in a scope of it.  In the scope
    [resolve("Logger")] misses, asks the root and returns the object; but
    [resolve("L")] asks the root for the name it was called with, ["L"],
    which the root does not know: it throws [UnresolvedDependencyError]
    for ["L"].  The same in both classes. *)
Lemma alias_of_a_name_bound_in_the_parent :
  (exists st,
      resolve ContainerTs sampleProgram 2 1 (BString "Logger") None
              (aliasInScopeStore ContainerTs)
      = Ok (VObject 0 false []) st) /\
  resolve ContainerTs sampleProgram 2 1 (BString "L") None
          (aliasInScopeStore ContainerTs)
  = Throw (UnresolvedDependencyError (BString "L"))
          (aliasInScopeStore ContainerTs) /\
  (exists st,
      resolve DIContainerTs sampleProgram 2 1 (BString "Logger") None
              (aliasInScopeStore DIContainerTs)
      = Ok (VObject 0 false []) st) /\
  resolve DIContainerTs sampleProgram 2 1 (BString "L") None
          (aliasInScopeStore DIContainerTs)
  = Throw (UnresolvedDependencyError (BString "L"))
          (aliasInScopeStore DIContainerTs).
Proof.
  repeat split; try (eexists; vm_compute; reflexivity); vm_compute; reflexivity.
Qed.

(** ** Contextual overrides *)

Lemma contextualOverride_found P self c X ctx st cb :
  truthyB ctx = true ->
  find (fun e => Bindable_eqb (need e) X) (entriesFor st c ctx) = Some cb ->
  contextualOverride P self c X (Some ctx) st
  = match give cb with
    | GiveFunction g => factoryCode P g self c None st
    | GiveValue v => Ok v st
    end.
Proof.
  intros Ht Hf. unfold contextualOverride, entriesFor in *.
  rewrite Ht. now rewrite Hf.
Qed.

Lemma contextualOverride_yields P self c X ctx st cb v s1 :
  truthyB ctx = true ->
  find (fun e => Bindable_eqb (need e) X) (entriesFor st c ctx) = Some cb ->
  giverYields P self c (give cb) st v s1 ->
  contextualOverride P self c X (Some ctx) st = Ok v s1.
Proof.
  intros Ht Hf Hy. rewrite contextualOverride_found with (cb := cb); auto.
  unfold giverYields in Hy. destruct (give cb).
  - exact Hy.
  - destruct Hy; now subst.
Qed.

Lemma entriesFor_pushStack st c a ctx :
  entriesFor (pushStack c a st) c ctx = entriesFor st c ctx.
Proof.
  unfold entriesFor, pushStack. rewrite getC_setC, Nat.eqb_refl. simpl.
  now destruct (Nat.ltb c (List.length (containers st))).
Qed.

(** The general branch of the lifetime dispatch. *)
Lemma instantiate_general impl P self st c X context r b :
  (lifetime b = Singleton -> truthy (instance b) = false) ->
  (impl = DIContainerTs -> lifetime b <> Scoped) ->
  instantiate impl P self c X context r b st
  = (given <- contextualOverride P self c X context ;;
     instance <- (if truthy given then ret given
                  else build P self b c context) ;;
     (if Lifetime_eqb (lifetime b) Singleton
      then setBindingInstance r instance ;;; instancesSet c X instance
      else ret tt) ;;;
     ret instance) st.
Proof.
  intros Hs Hd. unfold instantiate.
  assert (Hc : Lifetime_eqb (lifetime b) Singleton && truthy (instance b) = false).
  { destruct (lifetime b); simpl; auto. }
  rewrite Hc.
  destruct impl; [now destruct (lifetime b)|].
  destruct (lifetime b); auto. now elim Hd.
Qed.





Lemma find_app_last {A} (f : A -> bool) l x :
  find f l = None -> find f (l ++ [x]) = if f x then Some x else None.
Proof.
  induction l as [|a l IH]; simpl; auto.
  destruct (f a); [discriminate|auto].
Qed.

Lemma give_facts st0 c Consumer Dep g st :
  validC st0 c ->
  find (fun e => Bindable_eqb (need e) Dep) (entriesFor st0 c Consumer) = None ->
  give_ c Consumer Dep g st0 = Ok tt st ->
  validC st c /\
  find (fun e => Bindable_eqb (need e) Dep) (entriesFor st c Consumer)
  = Some (mkContextualBinding Consumer Dep g) /\
  (forall X, lookupBinding st c X = lookupBinding st0 c X) /\
  instances (getC st c) = instances (getC st0 c) /\
  aliases (getC st c) = aliases (getC st0 c) /\
  resolvingStack (getC st c) = resolvingStack (getC st0 c) /\
  middlewares (getC st c) = middlewares (getC st0 c).
Proof.
  intros Hv Hnone H. unfold give_ in H. inversion H; subst; clear H.
  split; [now apply validC_setC|].
  split.
  { unfold entriesFor in *. rewrite getC_setC_same by exact Hv. simpl.
    rewrite map_get_set_same. unfold map_has.
    destruct (map_get Bindable_eqb (contextualBindings (getC st0 c)) Consumer)
      as [l|] eqn:E.
    - rewrite E. rewrite find_app_last by exact Hnone. simpl.
      now rewrite Bindable_eqb_refl.
    - rewrite map_get_set_same. simpl. now rewrite Bindable_eqb_refl. }
  split.
  { intros X. unfold lookupBinding. now rewrite getC_setC_same by exact Hv. }
  rewrite getC_setC_same by exact Hv. simpl. repeat split.
Qed.




(** ** Schema-checked bindings *)

(** C8.  [bind(X, factory, schema)] runs the factory once, on the spot.  If
    the output does not conform, [bind] throws [InvalidSchemaError] naming
    [X] and registers nothing.  If it conforms, [bind] returns with [X]
    registered as an ordinary transient binding, and a later [resolve(X)]
    (no alias, no instance, no middleware) returns whatever the factory
    returns then. *)
Theorem bind_validates_eagerly :
  forall impl P fuel st c X f (schema : Schema) v s1,
    factoryCode P f (resolve impl P fuel) c None st = Ok v s1 ->
    validC s1 c ->
    match schema v with
    | Some msg =>
        bind impl P fuel c X f (Some schema) st
        = Throw (InvalidSchemaError
                   ("Invalid schema for " ++ String_ X ++ ": " ++ msg)%string) s1
    | None =>
        exists st',
          bind impl P fuel c X f (Some schema) st = Ok tt st' /\
          lookupBinding st' c X
          = Some (List.length (bindingObjects s1),
                  mkBinding f Transient VUndefined ResolverOfBind) /\
          forall n v' s2,
            map_get Bindable_eqb (aliases (getC st' c)) X = None ->
            map_get Bindable_eqb (instances (getC st' c)) X = None ->
            includes X (resolvingStack (getC st' c)) = false ->
            factoryCode P f (resolve impl P n) c None (pushStack c X st')
            = Ok v' s2 ->
            middlewares (getC s2 c) = [] ->
            exists st'', resolve impl P (S n) c X None st' = Ok v' st''
    end.
Proof.
  intros impl P fuel st c X f schema v s1 Hf Hv.
  destruct (schema v) as [msg|] eqn:Es.
  - unfold bind, bind_, catch_. rewrite Hf, Es. reflexivity.
  - destruct (registerBinding c X (mkBinding f Transient VUndefined ResolverOfBind) s1)
      as [[] st'| |] eqn:Er; try (unfold registerBinding in Er; discriminate).
    exists st'.
    destruct (registerBinding_facts s1 c X _ st' Hv Er)
      as (Hv' & Hl & _).
    split; [|split].
    + unfold bind, bind_, catch_. rewrite Hf, Es. simpl. exact Er.
    + exact Hl.
    + intros n v' s2 Ha Hi Hs Hf' Hm.
      destruct (resolve_builds impl P n st' c X _ _ v' s2 Hv' Ha Hi Hs Hl)
        as (st'' & HR & _); auto.
      * split; [discriminate|intros a Hr; discriminate Hr].
      * now exists st''.
Qed.

Lemma bind_validates_eagerly_witness :
  bind ContainerTs sampleProgram 0 0 (BString "InvalidObject") 4
       (Some stringSchema) oneContainer
  = Throw (InvalidSchemaError "Invalid schema for InvalidObject: Expected string")
          oneContainer /\
  exists st',
    bind ContainerTs sampleProgram 0 0 idConfig 6 (Some stringSchema) oneContainer
    = Ok tt st' /\
    exists st'',
      resolve ContainerTs sampleProgram 1 0 idConfig None st'
      = Ok (VString "default") st''.
Proof.
  split.
  - refine (bind_validates_eagerly ContainerTs sampleProgram 0 oneContainer 0
              (BString "InvalidObject") 4 stringSchema (VNumber 0) oneContainer
              _ _);
      first [ reflexivity | (unfold validC; simpl; lia) ].
  - destruct (bind_validates_eagerly ContainerTs sampleProgram 0 oneContainer 0
                idConfig 6 stringSchema (VString "default") oneContainer)
      as (st' & Hb & Hl & Hres);
      try first [ reflexivity | (unfold validC; simpl; lia) ].
    exists st'. split; [exact Hb|].
    assert (Est : st' = configStore ContainerTs).
    { vm_compute in Hb. inversion Hb. reflexivity. }
    subst st'.
    apply (Hres 0 (VString "default") (pushStack 0 idConfig (configStore ContainerTs)));
      reflexivity.
Defined.

(** ** Disposal *)

Lemma appendLog_nil st : appendLog st [] = st.
Proof. unfold appendLog. rewrite app_nil_r. now destruct st. Qed.

Lemma appendLog_app st l1 l2 :
  appendLog (appendLog st l1) l2 = appendLog st (l1 ++ l2).
Proof. unfold appendLog; simpl. now rewrite app_assoc. Qed.

Lemma cleared_idem k : cleared (cleared k) = cleared k.
Proof. reflexivity. Qed.

Lemma releaseBinding_logs impl P n r st :
  noProxyInstance st ->
  (forall b o fields,
      getB st r = Some b -> instance b = VObject o true fields ->
      forall self s, disposeCode P o self s = Ok tt s) ->
  releaseBinding impl P n r st = Ok tt (appendLog st (releaseOf st r)).
Proof.
  intros Hnp Hq. unfold releaseBinding, releaseOf.
  destruct (getB st r) as [b|] eqn:E; [|now rewrite appendLog_nil].
  specialize (Hnp r b E). specialize (Hq b).
  destruct (instance b) as [| |x|z|s|o d f|p o a|p e]; simpl;
    try (now rewrite appendLog_nil); try contradiction.
  - destruct x; simpl; now rewrite appendLog_nil.
  - destruct (negb (z =? 0)%Z); simpl; now rewrite appendLog_nil.
  - destruct (negb (s =? "")%string); simpl; now rewrite appendLog_nil.
  - destruct d; [|now rewrite appendLog_nil].
    destruct n; simpl; unfold bind_, logDispose;
      now rewrite (Hq o f eq_refl eq_refl).
Qed.

Lemma skipn_cons_nth {A} (l : list A) i a rest :
  skipn i l = a :: rest ->
  nth_error l i = Some a /\ skipn (S i) l = rest.
Proof.
  revert l. induction i as [|i IH]; intros l H.
  - destruct l; simpl in H; [discriminate|]. inversion H; subst. auto.
  - destruct l as [|x l]; simpl in H; [discriminate|].
    destruct (IH l H) as [H1 H2]. auto.
Qed.

Lemma nth_error_skipn_cons {A} (l : list A) i a :
  nth_error l i = Some a -> skipn i l = a :: skipn (S i) l.
Proof.
  revert l. induction i as [|i IH]; intros l H.
  - destruct l; simpl in H; [discriminate|]. now inversion H.
  - destruct l as [|x l]; simpl in H; [discriminate|].
    now apply IH.
Qed.

(** A [for...of] loop whose body leaves the collection as it is runs over
    the entries present at the start. *)
Lemma forOf_forEachM {A} (items : State -> list A) (body : A -> M unit)
      (Inv : State -> Prop) :
  (forall a s1 s2,
      Inv s1 -> In a (items s1) -> body a s1 = Ok tt s2 ->
      Inv s2 /\ items s2 = items s1) ->
  forall fuel i st,
    Inv st ->
    List.length (items st) - i <= fuel ->
    forOf fuel items body i st = forEachM body (skipn i (items st)) st.
Proof.
  intros Hstep. induction fuel as [|n IH]; intros i st Hinv Hlen.
  - simpl. destruct (nth_error (items st) i) as [a|] eqn:E.
    + assert (i < List.length (items st))
        by (apply nth_error_Some; congruence). lia.
    + apply nth_error_None in E.
      now rewrite (skipn_all2 (items st) E).
  - simpl. destruct (nth_error (items st) i) as [a|] eqn:E.
    + rewrite (nth_error_skipn_cons _ _ _ E). simpl. unfold bind_.
      destruct (body a st) as [[] s2| |] eqn:Eb; auto.
      destruct (Hstep a st s2 Hinv (nth_error_In _ _ E) Eb) as [Hinv2 Hit].
      rewrite IH by (auto; rewrite Hit; lia). now rewrite Hit.
    + apply nth_error_None in E.
      now rewrite (skipn_all2 (items st) E).
Qed.

(** The first loop of [dispose], as long as the [dispose] methods return
    normally and leave the store alone: [before] is released and the loop
    goes on from there. *)
Lemma forOf_release impl P n c before :
  forall fuel i st rest,
    noProxyInstance st ->
    skipn i (map snd (bindings (getC st c))) = before ++ rest ->
    (forall r b o fields,
        In r before -> getB st r = Some b ->
        instance b = VObject o true fields ->
        forall self s, disposeCode P o self s = Ok tt s) ->
    forOf (List.length before + fuel)
          (fun s => map snd (bindings (getC s c)))
          (releaseBinding impl P n) i st
    = forOf fuel (fun s => map snd (bindings (getC s c)))
            (releaseBinding impl P n) (i + List.length before)
            (appendLog st (flat_map (releaseOf st) before)).
Proof.
  induction before as [|r bs IH]; intros fuel i st rest Hnp Hsk Hq.
  - simpl. now rewrite appendLog_nil, Nat.add_0_r.
  - destruct (skipn_cons_nth _ _ _ _ Hsk) as [Hnth Hsk'].
    cbn [List.length Nat.add forOf]. rewrite Hnth. unfold bind_.
    rewrite releaseBinding_logs;
      [|exact Hnp|intros b o fs; apply Hq; now left].
    rewrite (IH fuel (S i) (appendLog st (releaseOf st r)) rest);
      [|exact Hnp|exact Hsk'|intros r' b o fs Hin; apply (Hq r' b o fs); now right].
    rewrite appendLog_app.
    replace (S i + List.length bs) with (i + S (List.length bs)) by lia.
    reflexivity.
Qed.

Lemma forOf_done {A} (items : State -> list A) body fuel i st :
  nth_error (items st) i = None ->
  forOf fuel items body i st = Ok tt st.
Proof. intros H. destruct fuel; simpl; now rewrite H. Qed.

Lemma forOf_release_all impl P n c fuel st :
  noProxyInstance st -> quietHooks P st ->
  List.length (bindings (getC st c)) <= fuel ->
  forOf fuel (fun s => map snd (bindings (getC s c)))
        (releaseBinding impl P n) 0 st
  = Ok tt (appendLog st (ownReleases st c)).
Proof.
  intros Hnp Hq Hlen.
  set (rs := map snd (bindings (getC st c))).
  assert (Hrs : List.length rs = List.length (bindings (getC st c)))
    by (unfold rs; apply length_map).
  replace fuel with (List.length rs + (fuel - List.length rs)) by lia.
  rewrite (forOf_release impl P n c rs _ 0 st []).
  - apply forOf_done.
    change (nth_error rs (0 + List.length rs) = None).
    apply nth_error_None. lia.
  - exact Hnp.
  - simpl. fold rs. now rewrite app_nil_r.
  - intros r b o fs _. apply Hq.
Qed.

Lemma olderParents_preserved st st' :
  olderParents st ->
  List.length (containers st') = List.length (containers st) ->
  (forall q, getC st' q = getC st q \/ getC st' q = cleared (getC st q)) ->
  olderParents st'.
Proof.
  intros Ho Hlen Hsc c k Hin. rewrite Hlen.
  destruct (Hsc c) as [E|E]; rewrite E in Hin.
  - now apply Ho.
  - simpl in Hin. contradiction.
Qed.

Lemma noProxyInstance_preserved st st' :
  noProxyInstance st -> bindingObjects st' = bindingObjects st ->
  noProxyInstance st'.
Proof.
  intros Hnp Hb r b Hg. apply (Hnp r b). unfold getB in *. now rewrite <- Hb.
Qed.

Lemma quietHooks_preserved P st st' :
  quietHooks P st -> bindingObjects st' = bindingObjects st ->
  quietHooks P st'.
Proof.
  intros Hq Hb r b o fs Hg. apply (Hq r b). unfold getB in *. now rewrite <- Hb.
Qed.

Lemma boundedBy_preserved st st' w :
  boundedBy st w ->
  (forall q, getC st' q = getC st q \/ getC st' q = cleared (getC st q)) ->
  boundedBy st' w.
Proof.
  intros Hw Hsc q. destruct (Hsc q) as [E|E]; rewrite E.
  - apply Hw.
  - simpl. lia.
Qed.

Lemma ownReleases_ext s s' k :
  bindingObjects s' = bindingObjects s ->
  getC s' k = getC s k ->
  ownReleases s' k = ownReleases s k.
Proof.
  intros Hb Hk. unfold ownReleases. rewrite Hk.
  induction (map snd (bindings (getC s k))) as [|r rs IH]; simpl; auto.
  rewrite IH. f_equal. unfold releaseOf, getB. now rewrite Hb.
Qed.

Lemma flat_map_ownReleases_ext s s' ks :
  bindingObjects s' = bindingObjects s ->
  (forall k, In k ks -> getC s' k = getC s k) ->
  flat_map (ownReleases s') ks = flat_map (ownReleases s) ks.
Proof.
  intros Hb Hk. induction ks as [|k ks IH]; simpl; auto.
  rewrite IH by (intros k' Hin; apply Hk; now right).
  rewrite (ownReleases_ext s s' k Hb) by (apply Hk; now left).
  reflexivity.
Qed.

Lemma leafScopes_nil st : leafScopes st [].
Proof. split; [constructor|intros k []]. Qed.

Lemma dispose_children impl P n c w :
  (forall k st, olderParents st -> noProxyInstance st -> quietHooks P st ->
                boundedBy st w -> validC st k ->
                List.length (containers st) - k + w < n ->
                exists st', dispose impl P n k st = Ok tt st' /\ disposePost k st st') ->
  forall ks st,
    olderParents st -> noProxyInstance st -> quietHooks P st ->
    boundedBy st w ->
    (forall k, In k ks -> c < k /\ k < List.length (containers st)) ->
    List.length (containers st) - c + w <= n ->
    exists st', forEachM (dispose impl P n) ks st = Ok tt st' /\ loopPost c ks st st'.
Proof.
  intros IHn ks. induction ks as [|k ks IH]; intros st Ho Hnp Hqh Hw Hks Hfuel.
  - exists st. split; [reflexivity|].
    unfold loopPost. conj_split; auto.
    + intros k [].
    + exists []. split; [now rewrite app_nil_r|auto].
  - destruct (Hks k (or_introl eq_refl)) as [Hck Hklen].
    destruct (IHn k st Ho Hnp Hqh Hw Hklen ltac:(lia))
      as (sk & Hd & Hb & Hlen & Hlow & Hsc & Hk & _ & rest1 & Hlog1 & Hleaf1).
    destruct (IH sk)
      as (st' & Hloop & Hb2 & Hlen2 & Hlow2 & Hsc2 & Hks2 & rest2 & Hlog2 & Hleaf2).
    + eapply olderParents_preserved; eauto.
    + eapply noProxyInstance_preserved; eauto.
    + eapply quietHooks_preserved; eauto.
    + eapply boundedBy_preserved; eauto.
    + intros k' Hin. rewrite Hlen. apply Hks. now right.
    + lia.
    + exists st'. split.
      * simpl. unfold bind_. rewrite Hd. exact Hloop.
      * split; [congruence|]. split; [congruence|]. split.
        { intros q Hq. rewrite Hlow2 by exact Hq. apply Hlow. lia. }
        split.
        { intros q. destruct (Hsc2 q) as [E2|E2], (Hsc q) as [E1|E1];
            rewrite E2, E1; auto. }
        split.
        { intros k' [<-|Hin].
          - destruct (Hsc2 k) as [E|E]; rewrite E, Hk; auto.
          - rewrite (Hks2 k' Hin).
            destruct (Hsc k') as [E|E]; rewrite E; auto. }
        exists (ownReleases st k ++ rest1 ++ rest2). split.
        { rewrite Hlog2, Hlog1. now rewrite <- !app_assoc. }
        intros [Hnd Hleaves].
        inversion Hnd as [|k0 ks0 Hnotin Hnd']; subst.
        assert (Hkleaf : children (getC st k) = [])
          by (apply Hleaves; now left).
        destruct Hleaf1 as [Hr1 Hsame1];
          [rewrite Hkleaf; apply leafScopes_nil|].
        rewrite Hkleaf in Hr1, Hsame1. simpl in Hr1.
        assert (Hsk : forall q, q <> k -> getC sk q = getC st q)
          by (intros q Hq; apply Hsame1; auto).
        destruct Hleaf2 as [Hr2 Hsame2].
        { split; [exact Hnd'|]. intros k' Hin.
          rewrite Hsk by (intros ->; contradiction).
          apply Hleaves. now right. }
        split.
        { rewrite Hr1, Hr2. simpl. f_equal.
          apply flat_map_ownReleases_ext; auto.
          intros k' Hin. apply Hsk. intros ->; contradiction. }
        { intros q Hq. rewrite Hsame2 by (intros Hin; apply Hq; now right).
          apply Hsk. intros ->. apply Hq. now left. }
Qed.

(** The second loop of [dispose], as long as disposing a scope leaves the
    older containers alone, runs over the scopes listed at the start. *)
Lemma forOf_scopes impl P n c w st0 (Post : ContainerRef -> State -> State -> Prop) :
  (forall k s s', Post k s s' ->
                  bindingObjects s' = bindingObjects s /\
                  List.length (containers s') = List.length (containers s) /\
                  (forall q, q < k -> getC s' q = getC s q) /\
                  (forall q, getC s' q = getC s q \/
                             getC s' q = cleared (getC s q))) ->
  (forall k s, olderParents s -> noProxyInstance s -> quietHooks P s ->
               boundedBy s w -> validC s k ->
               List.length (containers s) - k + w < n ->
               exists s', dispose impl P n k s = Ok tt s' /\ Post k s s') ->
  olderParents st0 -> noProxyInstance st0 -> quietHooks P st0 ->
  boundedBy st0 w ->
  List.length (containers st0) - c + w <= n ->
  validC st0 c ->
  forOf n (fun s => children (getC s c)) (dispose impl P n) 0 st0
  = forEachM (dispose impl P n) (children (getC st0 c)) st0.
Proof.
  intros HPost IHn Ho Hnp Hqh Hw Hfuel Hv.
  pose (Inv := fun s : State =>
                 olderParents s /\ noProxyInstance s /\ quietHooks P s /\
                 boundedBy s w /\
                 List.length (containers s) = List.length (containers st0) /\
                 getC s c = getC st0 c).
  rewrite (forOf_forEachM (fun s => children (getC s c)) (dispose impl P n) Inv).
  - reflexivity.
  - intros k s1 s2 (Ho1 & Hnp1 & Hq1 & Hw1 & Hlen1 & Hc1) Hin Hd.
    destruct (Ho1 c k Hin) as [Hck Hklen].
    destruct (IHn k s1 Ho1 Hnp1 Hq1 Hw1 Hklen) as (s' & Hd' & HP); [lia|].
    rewrite Hd in Hd'. inversion Hd'; subst s'.
    destruct (HPost k s1 s2 HP) as (Hb & Hlen & Hlow & Hsc).
    split; [|now rewrite (Hlow c Hck)].
    unfold Inv. split; [eapply olderParents_preserved; eauto|].
    split; [eapply noProxyInstance_preserved; eauto|].
    split; [eapply quietHooks_preserved; eauto|].
    split; [eapply boundedBy_preserved; eauto|].
    split; [congruence|]. now rewrite (Hlow c Hck).
  - unfold Inv. auto 10.
  - destruct (Hw c) as [_ Hch]. unfold validC in Hv. lia.
Qed.

Lemma disposePost_frame k s s' :
  disposePost k s s' ->
  bindingObjects s' = bindingObjects s /\
  List.length (containers s') = List.length (containers s) /\
  (forall q, q < k -> getC s' q = getC s q) /\
  (forall q, getC s' q = getC s q \/ getC s' q = cleared (getC s q)).
Proof. intros (A & B & C & D & _). auto. Qed.

Lemma dispose_post impl P w fuel :
  forall c st,
    olderParents st -> noProxyInstance st -> quietHooks P st ->
    boundedBy st w -> validC st c ->
    List.length (containers st) - c + w < fuel ->
    exists st', dispose impl P fuel c st = Ok tt st' /\ disposePost c st st'.
Proof.
  induction fuel as [|n IHn]; intros c st Ho Hnp Hqh Hw Hv Hfuel; [lia|].
  simpl. unfold bind_ at 1.
  rewrite forOf_release_all;
    [|assumption|assumption|destruct (Hw c); unfold validC in Hv; lia].
  set (sA := appendLog st (ownReleases st c)).
  assert (HkA : forall q, getC sA q = getC st q) by reflexivity.
  unfold bind_ at 1.
  rewrite (forOf_scopes impl P n c w sA disposePost disposePost_frame IHn);
    try assumption;
    [|change (List.length (containers st) - c + w <= n); lia].
  destruct (dispose_children impl P n c w IHn (children (getC sA c)) sA)
    as (st2 & Hloop & Hb2 & Hlen2 & Hlow2 & Hsc2 & Hks2 & rest & Hlog2 & Hleaf).
  - exact Ho.
  - exact Hnp.
  - exact Hqh.
  - exact Hw.
  - intros k Hin. apply Ho. exact Hin.
  - change (List.length (containers st) - c + w <= n). lia.
  - rewrite Hloop.
    eexists. split; [reflexivity|].
    assert (Hv2 : validC st2 c) by (unfold validC in *; rewrite Hlen2; exact Hv).
    assert (Hc2 : getC st2 c = getC st c) by (rewrite Hlow2 by lia; apply HkA).
    split; [exact Hb2|].
    split; [unfold setC; simpl; rewrite list_upd_length; exact Hlen2|].
    split.
    { intros q Hq. rewrite getC_setC_other by lia.
      rewrite Hlow2 by lia. apply HkA. }
    split.
    { intros q. destruct (Nat.eq_dec c q) as [<-|Hne].
      - right. rewrite getC_setC_same by exact Hv2. now rewrite Hc2.
      - rewrite getC_setC_other by exact Hne.
        destruct (Hsc2 q) as [E|E]; rewrite E, HkA; auto. }
    split.
    { rewrite getC_setC_same by exact Hv2. now rewrite Hc2. }
    split.
    { intros k Hin. destruct (Ho c k Hin) as [Hck _].
      rewrite getC_setC_other by lia.
      rewrite (Hks2 k) by (rewrite HkA; exact Hin). now rewrite HkA. }
    exists rest. split.
    { change (disposeLog st2 = disposeLog st ++ ownReleases st c ++ rest).
      rewrite Hlog2. unfold sA; simpl. now rewrite <- app_assoc. }
    intros Hl. destruct (Hleaf Hl) as [Hr Hsame]. split.
    { exact Hr. }
    { intros q Hqc Hq. rewrite getC_setC_other by congruence.
      rewrite Hsame by exact Hq. apply HkA. }
Qed.

Lemma cleared_unprovided st c X :
  validC st c ->
  getC st c = cleared (getC st c) ->
  parent (getC st c) = None ->
  resolvingStack (getC st c) = [] ->
  Unprovided st X c.
Proof.
  intros Hv Hc Hp Hs. apply Unprovided_root; auto.
  unfold nothingLocal. rewrite Hc. simpl.
  rewrite Hc in Hs. simpl in Hs. rewrite Hs. repeat split.
Qed.

(** C9 as the code has it.  The store is one where child scopes are
    younger than their parents, no binding caches a cycle stand-in, the
    [dispose] methods of the cached instances return normally and leave the
    store alone, and no binding is scoped (what becomes of the instances
    of scoped bindings is left out of the statement).  Then [dispose()]
    returns, given fuel for the levels of scopes and for the [w] rounds
    its loops may take.  It first calls [dispose] on the instance
    cached on each of the container's own bindings (those written by a
    singleton build) that is an object with a [dispose] method, once per
    binding and in binding order; only then does it dispose the scopes
    made by [createScope] (when these have no scopes of their own, what
    follows in the log is exactly their releases, scope after scope in
    creation order); and at the end the container's bindings, instances,
    aliases, tags, contextual bindings and children are empty, as are
    those of every such scope, while the parent link, the middlewares and
    the resolving stack are kept.  A disposed root with nothing under
    construction then resolves nothing: every [resolve] throws
    [UnresolvedDependencyError], as on a new container. *)
Theorem dispose_releases_then_clears :
  forall impl P fuel w st c,
    olderParents st ->
    noProxyInstance st ->
    quietHooks P st ->
    noScopedBinding st ->
    boundedBy st w ->
    validC st c ->
    List.length (containers st) - c + w < fuel ->
    exists st' rest,
      dispose impl P fuel c st = Ok tt st' /\
      disposeLog st' = disposeLog st ++ ownReleases st c ++ rest /\
      (leafScopes st (children (getC st c)) ->
       rest = flat_map (ownReleases st) (children (getC st c))) /\
      getC st' c = cleared (getC st c) /\
      (forall k, In k (children (getC st c)) ->
                 getC st' k = cleared (getC st k)) /\
      (parent (getC st c) = None ->
       resolvingStack (getC st c) = [] ->
       forall X context m,
         resolve impl P (S m) c X context st'
         = Throw (UnresolvedDependencyError X) st').
Proof.
  intros impl P fuel w st c Ho Hnp Hqh _ Hw Hv Hfuel.
  destruct (dispose_post impl P w fuel c st Ho Hnp Hqh Hw Hv Hfuel)
    as (st' & Hd & _ & Hlen & _ & _ & Hc & Hk & rest & Hlog & Hleaf).
  exists st', rest.
  conj_split; auto; [intros Hl; now destruct (Hleaf Hl)|].
  intros Hp Hs X context m.
  assert (Hv' : validC st' c) by (unfold validC in *; now rewrite Hlen).
  destruct (Nat.le_gt_cases c m) as [Hle|Hgt].
  - apply unprovided_throws; [|lia].
    apply cleared_unprovided; auto; rewrite Hc; auto.
  - (* little fuel is enough: a root throws at once *)
    simpl. unfold resolveStep.
    assert (HU : nothingLocal st' c X).
    { unfold nothingLocal. rewrite Hc. simpl. rewrite Hs. repeat split. }
    destruct HU as (Ha & Hi & Hb & Hst).
    rewrite (getAlias_none _ _ Ha), Hi, Hst.
    unfold finally_, resolveTry.
    rewrite lookupBinding_pushStack by exact Hv'.
    unfold lookupBinding. rewrite Hb.
    rewrite getC_pushStack by exact Hv'. simpl.
    rewrite Hc. simpl. rewrite Hp.
    now rewrite popStack_pushStack.
Qed.

Lemma dispose_releases_then_clears_witness :
  exists st',
    dispose ContainerTs sampleProgram 4 0 (singletonsStore ContainerTs)
    = Ok tt st' /\
    disposeLog st' = [0; 1] /\
    getC st' 0 = mkContainer [] [] [] [] [] [] None [] [1] /\
    getC st' 1 = mkContainer [] [] [] [] [] [] (Some 0) [] [].
Proof.
  destruct (dispose_releases_then_clears ContainerTs sampleProgram 4 1
              (singletonsStore ContainerTs) 0)
    as (st' & rest & Hd & Hlog & Hleaf & Hc & Hk & _).
  - intros c k Hin. unfold getC in Hin.
    let x := eval vm_compute in (containers (singletonsStore ContainerTs)) in
    change (containers (singletonsStore ContainerTs)) with x in Hin;
    change (containers (singletonsStore ContainerTs)) with x.
    destruct c as [|[|[|c]]]; simpl in Hin; try contradiction.
    destruct Hin as [<-|[]]. simpl. lia.
  - intros r b Hg. unfold getB in Hg.
    let x := eval vm_compute in (bindingObjects (singletonsStore ContainerTs)) in
    change (bindingObjects (singletonsStore ContainerTs)) with x in Hg.
    destruct r as [|[|[|r]]]; simpl in Hg;
      try (inversion Hg; subst; exact I); discriminate.
  - intros r b o fs _ _ self s. reflexivity.
  - intros r b Hg. unfold getB in Hg.
    let x := eval vm_compute in (bindingObjects (singletonsStore ContainerTs)) in
    change (bindingObjects (singletonsStore ContainerTs)) with x in Hg.
    destruct r as [|[|[|r]]]; simpl in Hg;
      try (inversion Hg; subst; discriminate); discriminate.
  - intros q. unfold getC.
    let x := eval vm_compute in (containers (singletonsStore ContainerTs)) in
    change (containers (singletonsStore ContainerTs)) with x.
    destruct q as [|[|[|q]]]; simpl; lia.
  - vm_compute. lia.
  - vm_compute. lia.
  - exists st'.
    split; [exact Hd|]. split; [|split; [exact Hc|]].
    + rewrite Hlog, Hleaf; [reflexivity|].
      split.
      * change (NoDup [1]). repeat constructor. intros [].
      * intros k Hin. change (In k [1]) in Hin.
        destruct Hin as [<-|[]]. reflexivity.
    + apply (Hk 1). vm_compute. now left.
Defined.

(** C9 fails as stated.  Disposing the root of the sample store logs the
    root's own singleton (object 0) before the singleton of its scope
    (object 1): the scope is disposed after, not before, the root's
    instances are released.  The instance of the scoped binding (object 2),
    which lives in [instances] and not on the binding, is never released.
    And the middleware survives: binding and resolving on the disposed
    root answers 42, where a new container answers the object built. *)
Lemma dispose_order_and_leftovers :
  dispose ContainerTs sampleProgram 3 0 (disposeStore ContainerTs)
  = Ok tt (disposedStore ContainerTs) /\
  map_get Bindable_eqb (instances (getC (disposeStore ContainerTs) 0)) idB
  = Some (VObject 2 true []) /\
  disposeLog (disposedStore ContainerTs) = [0; 1] /\
  ~ In 2 (disposeLog (disposedStore ContainerTs)) /\
  (exists s, (bind ContainerTs sampleProgram 0 0 idA 3 None ;;;
              resolve ContainerTs sampleProgram 1 0 idA None)
               (disposedStore ContainerTs)
             = Ok (VNumber 42) s) /\
  (exists s, (bind ContainerTs sampleProgram 0 0 idA 3 None ;;;
              resolve ContainerTs sampleProgram 1 0 idA None) oneContainer
             = Ok (VObject 0 false []) s) /\
  disposeLog (disposedStore DIContainerTs) = [0; 1].
Proof.
  assert (Hlog : disposeLog (disposedStore ContainerTs) = [0; 1])
    by (vm_compute; reflexivity).
  split; [vm_compute; reflexivity|].
  split; [vm_compute; reflexivity|].
  split; [exact Hlog|].
  split; [rewrite Hlog; simpl; intuition discriminate|].
  split; [eexists; vm_compute; reflexivity|].
  split; [eexists; vm_compute; reflexivity|].
  vm_compute; reflexivity.
Qed.

(** * Further properties of the code *)

(** ** Registered instances *)

Lemma getC_instancesSet st c X v st' :
  validC st c ->
  instancesSet c X v st = Ok tt st' ->
  getC st' c
  = set_instances (getC st c) (map_set Bindable_eqb (instances (getC st c)) X v).
Proof.
  intros Hv H. unfold instancesSet in H. inversion H; subst; clear H.
  now rewrite getC_setC_same.
Qed.

(** [instance(X, v)] followed by [resolve(X)] gives back [v] itself,
    whatever [v] is (also [undefined] or another falsy value), whatever is
    bound to [X], whether or not [X] is under construction, and without
    running any middleware; the store is left as it is.  The same holds for
    a name aliased to [X].  (container.ts:105-108 and 159-165) *)
Theorem registered_instance_is_returned_as_is :
  forall impl P m st c X v st' context,
    validC st c ->
    getAlias (getC st c) X = X ->
    instance_ c X v st = Ok tt st' ->
    resolve impl P (S m) c X context st' = Ok v st' /\
    forall L,
      isName L ->
      map_get Bindable_eqb (aliases (getC st c)) L = Some X ->
      truthyB X = true ->
      resolve impl P (S m) c L context st' = Ok v st'.
Proof.
  intros impl P m st c X v st' context Hv Ha Hi.
  unfold instance_ in Hi.
  pose proof (getC_instancesSet st c X v st' Hv Hi) as Hc.
  assert (Hal : aliases (getC st' c) = aliases (getC st c))
    by (rewrite Hc; reflexivity).
  assert (Hin : map_get Bindable_eqb (instances (getC st' c)) X = Some v)
    by (rewrite Hc; simpl; apply map_get_set_same).
  assert (Ha' : getAlias (getC st' c) X = X).
  { unfold getAlias in *. now rewrite Hal. }
  split.
  - simpl. unfold resolveStep. now rewrite Ha', Hin.
  - intros L HL HLX HX. simpl. unfold resolveStep.
    assert (HaL : getAlias (getC st' c) L = X).
    { apply getAlias_some; auto. now rewrite Hal. }
    now rewrite HaL, Hin.
Qed.

Lemma registered_instance_is_returned_as_is_witness :
  resolve ContainerTs sampleProgram 1 0 idA (Some idConsumer)
          (storeAfter (c <- newContainer ;;
                       bind ContainerTs sampleProgram 0 c idA 3 None ;;;
                       use c 1 ;;;
                       instance_ c idA VUndefined))
  = Ok VUndefined
       (storeAfter (c <- newContainer ;;
                    bind ContainerTs sampleProgram 0 c idA 3 None ;;;
                    use c 1 ;;;
                    instance_ c idA VUndefined)).
Proof.
  refine (proj1 (registered_instance_is_returned_as_is
                   ContainerTs sampleProgram 0
                   (storeAfter (c <- newContainer ;;
                                bind ContainerTs sampleProgram 0 c idA 3 None ;;;
                                use c 1))
                   0 idA VUndefined _ (Some idConsumer) _ _ _));
    first [ reflexivity | vm_compute; lia ].
Defined.

(** ** Transient bindings and failed builds *)

Lemma containers_popStack_ext s s' c :
  containers s = containers s' ->
  containers (popStack c s) = containers (popStack c s').
Proof.
  intros H. unfold popStack, setC, getC. simpl. now rewrite H.
Qed.

Lemma containers_popStack_restored st c X s1 :
  validC st c ->
  containers s1 = containers (pushStack c X st) ->
  containers (popStack c s1) = containers st.
Proof.
  intros Hv H. rewrite (containers_popStack_ext s1 (pushStack c X st) c H).
  now rewrite popStack_pushStack.
Qed.

Lemma getC_ext s s' c : containers s = containers s' -> getC s c = getC s' c.
Proof. intros H. unfold getC. now rewrite H. Qed.

Lemma lookupBinding_ext s s' c X :
  containers s = containers s' -> bindingObjects s = bindingObjects s' ->
  lookupBinding s c X = lookupBinding s' c X.
Proof.
  intros Hc Hb. unfold lookupBinding, getB. now rewrite (getC_ext s s' c Hc), Hb.
Qed.

Lemma instantiate_transient impl P self st c X r b :
  lifetime b = Transient ->
  (forall a, resolver b <> ResolverOfScoped a) ->
  instantiate impl P self c X None r b st
  = factoryCode P (factory b) self c None st.
Proof.
  intros Hl Hr. unfold instantiate. rewrite Hl. simpl.
  assert (E : build P self b c None st = factoryCode P (factory b) self c None st).
  { unfold build, runResolver.
    destruct (resolver b) eqn:Er; auto. exfalso. eapply Hr; eauto. }
  destruct impl; unfold bind_, contextualOverride; simpl; rewrite E;
    destruct (factoryCode P (factory b) self c None st); reflexivity.
Qed.

Lemma resolve_transient impl P n st c X r b v s1 :
  validC st c ->
  map_get Bindable_eqb (aliases (getC st c)) X = None ->
  map_get Bindable_eqb (instances (getC st c)) X = None ->
  includes X (resolvingStack (getC st c)) = false ->
  lookupBinding st c X = Some (r, b) ->
  lifetime b = Transient ->
  (forall a, resolver b <> ResolverOfScoped a) ->
  factoryCode P (factory b) (resolve impl P n) c None (pushStack c X st)
  = Ok v s1 ->
  middlewares (getC s1 c) = [] ->
  resolve impl P (S n) c X None st = Ok v (popStack c (afterMiddleware s1)).
Proof.
  intros Hv Ha Hi Hs Hb Hl Hr Hf Hm.
  apply resolve_finishes with (X' := X) (r := r) (b := b); auto.
  - now apply getAlias_none.
  - rewrite instantiate_transient by assumption. exact Hf.
Qed.

Lemma register_transient_facts impl P how c X f :
  how = ByBind \/ how = ByTransient ->
  exists b,
    register impl P how c X f = registerBinding c X b /\
    factory b = f /\ lifetime b = Transient /\
    (forall a, resolver b <> ResolverOfScoped a).
Proof.
  intros [->| ->]; eexists; (split; [reflexivity|]); simpl;
    (split; [reflexivity|]); (split; [reflexivity|]); intros a; discriminate.
Qed.

(** A binding made by [bind] or [transient] caches nothing: with no
    middleware in the way, the factory [() => new T()] runs at every
    [resolve], so two resolutions return two different objects.
    (container.ts:52-70, 347-354 and 194-216) *)
Theorem transient_resolutions_are_distinct :
  forall impl P how n m st0 st c X f d,
    how = ByBind \/ how = ByTransient ->
    validC st0 c ->
    map_get Bindable_eqb (aliases (getC st0 c)) X = None ->
    map_get Bindable_eqb (instances (getC st0 c)) X = None ->
    includes X (resolvingStack (getC st0 c)) = false ->
    middlewares (getC st0 c) = [] ->
    register impl P how c X f st0 = Ok tt st ->
    factoryCode P f = constructingNew d ->
    exists st1 st2,
      resolve impl P (S n) c X None st
      = Ok (VObject (nextObject st0) d []) st1 /\
      resolve impl P (S m) c X None st1
      = Ok (VObject (S (nextObject st0)) d []) st2.
Proof.
  intros impl P how n m st0 st c X f d Hhow Hv Ha Hi Hs Hm Hreg Hf.
  destruct (register_transient_facts impl P how c X f Hhow)
    as (b & Hr & Hfb & Hl & Hres).
  rewrite Hr in Hreg.
  destruct (registerBinding_facts st0 c X b st Hv Hreg)
    as (Hv1 & Hlook & _ & Hi1 & Ha1 & Hs1 & Hm1 & _ & Hn1).
  (* the store a build leaves behind, seen from a store [s] *)
  assert (Hstep : forall k s,
             containers s = containers st ->
             bindingObjects s = bindingObjects st ->
             exists s',
               resolve impl P (S k) c X None s
               = Ok (VObject (nextObject s) d []) s' /\
               containers s' = containers st /\
               bindingObjects s' = bindingObjects st /\
               nextObject s' = S (nextObject s)).
  { intros k s Hc Hb.
    assert (Hg : getC s c = getC st c) by now apply getC_ext.
    assert (Hvs : validC s c) by (unfold validC in *; now rewrite Hc).
    eexists. split.
    - eapply resolve_transient with (r := List.length (bindingObjects st0)) (b := b).
      + exact Hvs.
      + rewrite Hg. congruence.
      + rewrite Hg. congruence.
      + rewrite Hg. congruence.
      + rewrite (lookupBinding_ext s st c X Hc Hb). exact Hlook.
      + exact Hl.
      + exact Hres.
      + rewrite Hfb, Hf. unfold constructingNew, newObject, bind_, freshRef, ret.
        simpl. reflexivity.
      + change (middlewares (getC (pushStack c X s) c) = []).
        rewrite getC_pushStack by exact Hvs. simpl. rewrite Hg. congruence.
    - split; [|split; [exact Hb|reflexivity]].
      rewrite <- Hc. apply containers_popStack_restored with (X := X); auto. }
  destruct (Hstep n st eq_refl eq_refl) as (st1 & H1 & Hc1 & Hb1 & Hn1').
  destruct (Hstep m st1 Hc1 Hb1) as (st2 & H2 & _).
  exists st1, st2. split.
  - rewrite H1. now rewrite Hn1.
  - rewrite H2. now rewrite Hn1', Hn1.
Qed.

Lemma transient_resolutions_are_distinct_witness :
  exists st1 st2,
    resolve ContainerTs sampleProgram 1 0 idA None
            (storeAfter (c <- newContainer ;; transient c idA 3))
    = Ok (VObject 0 false []) st1 /\
    resolve ContainerTs sampleProgram 1 0 idA None st1
    = Ok (VObject 1 false []) st2.
Proof.
  refine (transient_resolutions_are_distinct
            ContainerTs sampleProgram ByTransient 0 0 oneContainer _ 0 idA 3
            false _ _ _ _ _ _ _ _);
    first [ reflexivity | vm_compute; lia | now right ].
Defined.

(** When the factory of the binding throws, [resolve] throws the same
    error and its [finally] block takes the identifier off the resolving
    stack of the store the factory left; nothing is written to the binding
    records.  If the factory left the containers as it found them, they
    are afterwards exactly as before the call, so the identifier is not
    reported as under construction when it is resolved again.
    (container.ts:183-221) *)
Theorem failed_build_propagates_and_unwinds :
  forall impl P n st c X r b e s1,
    validC st c ->
    map_get Bindable_eqb (aliases (getC st c)) X = None ->
    map_get Bindable_eqb (instances (getC st c)) X = None ->
    includes X (resolvingStack (getC st c)) = false ->
    lookupBinding st c X = Some (r, b) ->
    buildable st c b ->
    factoryCode P (factory b) (resolve impl P n) c None (pushStack c X st)
    = Throw e s1 ->
    resolve impl P (S n) c X None st = Throw e (popStack c s1) /\
    bindingObjects (popStack c s1) = bindingObjects s1 /\
    (containers s1 = containers (pushStack c X st) ->
     containers (popStack c s1) = containers st /\
     includes X (resolvingStack (getC (popStack c s1) c)) = false).
Proof.
  intros impl P n st c X r b e s1 Hv Ha Hi Hs Hb Hbuild Hf.
  split; [|split].
  - rewrite resolve_enters with (X' := X) (r := r) (b := b);
      auto using getAlias_none.
    unfold finally_, bind_.
    rewrite instantiate_throws with (e := e) (s' := s1); auto.
    + now apply buildable_pushStack.
    + apply runResolver_throws; auto. now apply buildable_pushStack.
  - reflexivity.
  - intros Hc.
    assert (E : containers (popStack c s1) = containers st)
      by (apply containers_popStack_restored with (X := X); auto).
    split; [exact E|].
    now rewrite (getC_ext _ st c E).
Qed.

Lemma failed_build_propagates_and_unwinds_witness :
  resolve DIContainerTs sampleProgram2 1 0 idA None
          (storeAfter (c <- newContainer ;; singleton c idA 2))
  = Throw (JsError "boom")
          (storeAfter (c <- newContainer ;; singleton c idA 2)).
Proof.
  refine (proj1 (failed_build_propagates_and_unwinds
                   DIContainerTs sampleProgram2 0
                   (storeAfter (c <- newContainer ;; singleton c idA 2))
                   0 idA 0 (mkBinding 2 Singleton VUndefined ResolverIsFactory)
                   (JsError "boom")
                   (pushStack 0 idA
                      (storeAfter (c <- newContainer ;; singleton c idA 2)))
                   _ _ _ _ _ _ _));
    first [ reflexivity
          | vm_compute; lia
          | split; [reflexivity | intros a Ha; discriminate Ha] ].
Defined.

(** ** Middlewares *)

Lemma setCell_setCell st cell i j :
  setCell (setCell st cell i) cell j = setCell st cell j.
Proof. unfold setCell; simpl. now rewrite list_upd_twice. Qed.

Lemma nth_setCell st cell i :
  cell < List.length (indexCells st) ->
  nth cell (indexCells (setCell st cell i)) (-1)%Z = i.
Proof. intros H. unfold setCell; simpl. now apply nth_list_upd_same. Qed.

Lemma skipn_cons_inv {A} (l : list A) i x r :
  skipn i l = x :: r ->
  nth_error l i = Some x /\ skipn (S i) l = r /\ i < List.length l.
Proof.
  revert i. induction l as [|y l IH]; intros i H.
  - destruct i; discriminate.
  - destruct i as [|i]; simpl in *.
    + inversion H; subst. repeat split; auto. lia.
    + destruct (IH i H) as (A1 & A2 & A3). repeat split; auto. lia.
Qed.

Lemma skipn_nil_inv {A} (l : list A) i :
  skipn i l = [] -> List.length l <= i.
Proof.
  revert i. induction l as [|y l IH]; intros i H; simpl; [lia|].
  destruct i as [|i]; simpl in H; [discriminate|].
  specialize (IH i H). lia.
Qed.

Lemma dispatch_head P fuel self c cell v i st :
  (nth cell (indexCells st) (-1) < Z.of_nat i)%Z ->
  dispatch P fuel self c cell v i st
  = let st1 := setCell st cell (Z.of_nat i) in
    let mws := middlewares (getC st1 c) in
    if Nat.eqb i (List.length mws) then Ok v st1
    else
      match nth_error mws i with
      | None => Ok VUndefined st1
      | Some m =>
          catch_ (middlewareCode P m self
                    (match fuel with
                     | O => fun _ => OutOfFuel
                     | S n => dispatch P n self c cell v (S i)
                     end))
                 rejectedPromise st1
      end.
Proof.
  intros H. apply Z.leb_gt in H.
  destruct fuel; simpl; rewrite H; reflexivity.
Qed.

Lemma dispatch_decorating P self c cell v :
  forall ks fuel i st,
    cell < List.length (indexCells st) ->
    (nth cell (indexCells st) (-1) < Z.of_nat i)%Z ->
    Forall2 (fun m k => middlewareCode P m = decorating k)
            (skipn i (middlewares (getC st c))) ks ->
    i <= List.length (middlewares (getC st c)) ->
    List.length ks <= fuel ->
    dispatch P fuel self c cell v i st
    = decorate ks v
        (setCell st cell (Z.of_nat (List.length (middlewares (getC st c))))).
Proof.
  induction ks as [|k ks IH]; intros fuel i st Hcell Hlt HF Hi Hfuel.
  - inversion HF as [E|]; subst. symmetry in E. apply skipn_nil_inv in E.
    assert (i = List.length (middlewares (getC st c))) by lia. subst i.
    rewrite dispatch_head by exact Hlt. simpl.
    change (getC (setCell st cell
                    (Z.of_nat (List.length (middlewares (getC st c))))) c)
      with (getC st c).
    now rewrite Nat.eqb_refl.
  - inversion HF as [|m k' rest ks' Hm Hrest E]; subst.
    symmetry in E. destruct (skipn_cons_inv _ _ _ _ E) as (Hnth & Hskip & Hlen).
    destruct fuel as [|n]; [simpl in Hfuel; lia|].
    rewrite dispatch_head by exact Hlt. cbv zeta.
    change (getC (setCell st cell (Z.of_nat i)) c) with (getC st c).
    assert (Hne : Nat.eqb i (List.length (middlewares (getC st c))) = false)
      by (apply Nat.eqb_neq; lia).
    rewrite Hne, Hnth, Hm.
    unfold decorating. simpl decorate.
    unfold catch_ at 1. unfold bind_ at 1.
    rewrite (IH n (S i) (setCell st cell (Z.of_nat i))).
    + change (getC (setCell st cell (Z.of_nat i)) c) with (getC st c).
      rewrite setCell_setCell. reflexivity.
    + unfold setCell; simpl. now rewrite list_upd_length.
    + rewrite nth_setCell by exact Hcell. lia.
    + change (getC (setCell st cell (Z.of_nat i)) c) with (getC st c).
      now rewrite Hskip.
    + change (getC (setCell st cell (Z.of_nat i)) c) with (getC st c). lia.
    + simpl in Hfuel. lia.
Qed.

(** Middlewares that call [next] once and go on with its result wrap the
    instance in the order of their registration with [use], the first
    registered outermost: the last one is the first to see the instance.
    An exception raised at one level reaches the level outside it as a
    rejected promise returned by [next].  (container.ts:446-461) *)
Theorem middlewares_wrap_in_registration_order :
  forall P fuel self c v st ks,
    Forall2 (fun m k => middlewareCode P m = decorating k)
            (middlewares (getC st c)) ks ->
    List.length ks <= fuel ->
    applyMiddleware P fuel self c v st
    = decorate ks v (afterChain st (List.length ks)).
Proof.
  intros P fuel self c v st ks HF Hfuel.
  unfold applyMiddleware, allocCell.
  set (st1 := mkState (containers st) (bindingObjects st) (nextObject st)
                      (indexCells st ++ [(-1)%Z]) (disposeLog st)).
  rewrite (dispatch_decorating P self c (List.length (indexCells st)) v ks
                               fuel 0 st1).
  - change (getC st1 c) with (getC st c).
    rewrite (Forall2_length HF).
    f_equal. unfold setCell, afterChain, st1; simpl.
    now rewrite list_upd_last.
  - unfold st1; simpl. rewrite length_app; simpl. lia.
  - unfold st1; simpl. rewrite app_nth2 by lia.
    rewrite Nat.sub_diag. simpl. lia.
  - exact HF.
  - lia.
  - exact Hfuel.
Qed.

Lemma middlewares_wrap_in_registration_order_witness :
  applyMiddleware sampleProgram2 2 (resolve ContainerTs sampleProgram2 0) 0
                  (VString "instance")
                  (storeAfter (c <- newContainer ;; use c 0 ;;; use c 1))
  = Ok (VObject 1 false [VObject 0 true [VString "instance"]])
       (mkState [mkContainer [] [] [] [] [] [] None [] [0; 1]] [] 2 [2%Z] []).
Proof.
  refine (middlewares_wrap_in_registration_order
            sampleProgram2 2 (resolve ContainerTs sampleProgram2 0) 0
            (VString "instance")
            (storeAfter (c <- newContainer ;; use c 0 ;;; use c 1))
            [fun x => newObject false [x]; fun x => newObject true [x]] _ _).
  - repeat constructor.
  - simpl. lia.
Defined.

Lemma applyMiddleware_first P fuel self c v st m rest :
  middlewares (getC st c) = m :: rest ->
  applyMiddleware P fuel self c v st
  = catch_ (middlewareCode P m self
              (match fuel with
               | O => fun _ => OutOfFuel
               | S n => dispatch P n self c (List.length (indexCells st)) v 1
               end))
           rejectedPromise (afterChain st 0).
Proof.
  intros Hm. unfold applyMiddleware, allocCell.
  rewrite dispatch_head
    by (simpl; rewrite app_nth2 by lia; rewrite Nat.sub_diag; simpl; lia).
  cbv zeta.
  match goal with
  | |- context [getC ?s c] =>
      lazymatch s with
      | setCell _ _ _ => change (getC s c) with (getC st c)
      end
  end.
  rewrite Hm. simpl Nat.eqb. cbv iota. simpl nth_error. cbv iota.
  f_equal. unfold setCell, afterChain; simpl. now rewrite list_upd_last.
Qed.

Lemma dispatch_again P fuel self c cell v i st :
  (Z.of_nat i <= nth cell (indexCells st) (-1))%Z ->
  dispatch P fuel self c cell v i st
  = rejectedPromise (JsError "next() called multiple times") st.
Proof.
  intros H. apply Z.leb_le in H. destruct fuel; simpl; now rewrite H.
Qed.

(** A middleware that answers without calling [next] decides what the first
    resolution of a singleton returns, but not what is cached: the instance
    the factory built is stored, and every later [resolve] returns that
    instance straight from the cache, with no middleware run.
    (container.ts:163-165 and 208-216) *)
Theorem middleware_sees_only_first_singleton_resolution :
  forall impl P n st0 st c X f v s1 m rest w,
    validC st0 c ->
    map_get Bindable_eqb (aliases (getC st0 c)) X = None ->
    map_get Bindable_eqb (instances (getC st0 c)) X = None ->
    includes X (resolvingStack (getC st0 c)) = false ->
    singleton c X f st0 = Ok tt st ->
    factoryCode P f (resolve impl P n) c None (pushStack c X st) = Ok v s1 ->
    validC s1 c ->
    middlewares (getC s1 c) = m :: rest ->
    (forall next, middlewareCode P m (resolve impl P n) next = ret w) ->
    map_get Bindable_eqb (aliases (getC s1 c)) X = None ->
    exists st1,
      resolve impl P (S n) c X None st = Ok w st1 /\
      forall P' k context,
        resolve impl P' (S k) c X context st1 = Ok v st1.
Proof.
  intros impl P n st0 st c X f v s1 m rest w Hv Ha Hi Hs Hsing Hf Hv1 Hm Hw Ha1.
  destruct (singleton_facts st0 c X f st Hv Hsing) as (Hvs & Hl & Hi' & Ha' & Hs').
  rewrite resolve_enters
    with (X' := X) (r := List.length (bindingObjects st0))
         (b := mkBinding f Singleton VUndefined ResolverIsFactory);
    auto; try (rewrite ?Hi', ?Hs'; assumption);
    try (apply getAlias_none; now rewrite Ha').
  destruct (instantiate_singleton_caches impl P (resolve impl P n)
              (pushStack c X st) c X (List.length (bindingObjects st0))
              (mkBinding f Singleton VUndefined ResolverIsFactory) v s1)
    as (s2 & Hinst & Hsh & Hget); auto.
  unfold finally_, bind_. rewrite Hinst.
  rewrite applyMiddleware_first with (m := m) (rest := rest)
    by (now rewrite (sameShell_middlewares _ _ c Hsh)).
  rewrite Hw. unfold catch_, ret.
  eexists. split; [reflexivity|].
  intros P' k context. apply resolve_cached.
  - rewrite (sameShell_aliases _ _ c (sameShell_popStack _ c)).
    change (map_get Bindable_eqb (aliases (getC s2 c)) X = None).
    now rewrite (sameShell_aliases _ _ c Hsh).
  - rewrite instances_popStack. exact Hget.
Qed.

Lemma middleware_sees_only_first_singleton_resolution_witness :
  exists st1,
    resolve ContainerTs sampleProgram 1 0 idService None
            (storeAfter (c <- newContainer ;; use c 1 ;;; singleton c idService 2))
    = Ok (VNumber 42) st1 /\
    forall P' k context,
      resolve ContainerTs P' (S k) 0 idService context st1
      = Ok (VObject 0 true []) st1.
Proof.
  refine (middleware_sees_only_first_singleton_resolution
            ContainerTs sampleProgram 0
            (storeAfter (c <- newContainer ;; use c 1)) _ 0 idService 2
            (VObject 0 true []) _ 1 [] (VNumber 42) _ _ _ _ _ _ _ _ _ _);
    first [ reflexivity | vm_compute; lia | intros next; reflexivity ].
Defined.

(** A middleware that calls [next] a second time does not run the rest of
    the chain again: the second call returns a rejected promise whose
    reason is the error "next() called multiple times".  Here the
    middleware [(next) => { next(); return next() }] is registered first,
    before middlewares that go on with the result of their single call.
    (container.ts:448-450) *)
Theorem second_call_of_next_is_rejected :
  forall P fuel self c v st m ms ks x s1,
    middlewares (getC st c) = m :: ms ->
    middlewareCode P m = (fun _ next => next ;;; next) ->
    Forall2 (fun m' k => middlewareCode P m' = decorating k) ms ks ->
    S (List.length ks) <= fuel ->
    decorate ks v (afterChain st (S (List.length ks))) = Ok x s1 ->
    (1 <= nth (List.length (indexCells st)) (indexCells s1) (-1))%Z ->
    applyMiddleware P fuel self c v st
    = Ok (VRejectedPromise (nextObject s1)
                           (JsError "next() called multiple times"))
         (mkState (containers s1) (bindingObjects s1) (S (nextObject s1))
                  (indexCells s1) (disposeLog s1)).
Proof.
  intros P fuel self c v st m ms ks x s1 Hm Hcode HF Hfuel Hdec Hcell.
  rewrite applyMiddleware_first with (m := m) (rest := ms) by exact Hm.
  destruct fuel as [|n]; [lia|].
  rewrite Hcode. unfold catch_ at 1. unfold bind_ at 1.
  rewrite (dispatch_decorating P self c (List.length (indexCells st)) v ks
                               n 1 (afterChain st 0)).
  - change (getC (afterChain st 0) c) with (getC st c). rewrite Hm.
    simpl List.length. rewrite (Forall2_length HF).
    replace (setCell (afterChain st 0) (List.length (indexCells st))
                     (Z.of_nat (S (List.length ks))))
      with (afterChain st (S (List.length ks)))
      by (unfold setCell, afterChain; simpl; now rewrite list_upd_last).
    rewrite Hdec.
    rewrite dispatch_again by exact Hcell.
    reflexivity.
  - unfold afterChain; simpl. rewrite length_app; simpl. lia.
  - unfold afterChain; simpl. rewrite app_nth2 by lia.
    rewrite Nat.sub_diag. simpl. lia.
  - change (getC (afterChain st 0) c) with (getC st c). rewrite Hm. exact HF.
  - change (getC (afterChain st 0) c) with (getC st c). rewrite Hm. simpl. lia.
  - lia.
Qed.

Lemma second_call_of_next_is_rejected_witness :
  applyMiddleware sampleProgram2 2 (resolve ContainerTs sampleProgram2 0) 0
                  (VString "instance")
                  (storeAfter (c <- newContainer ;; use c 2 ;;; use c 0))
  = Ok (VRejectedPromise 1 (JsError "next() called multiple times"))
       (mkState [mkContainer [] [] [] [] [] [] None [] [2; 0]] [] 2 [2%Z] []).
Proof.
  refine (second_call_of_next_is_rejected
            sampleProgram2 2 (resolve ContainerTs sampleProgram2 0) 0
            (VString "instance")
            (storeAfter (c <- newContainer ;; use c 2 ;;; use c 0))
            2 [0] [fun x => newObject false [x]]
            (VObject 0 false [VString "instance"])
            (mkState [mkContainer [] [] [] [] [] [] None [] [2; 0]] [] 1
                     [2%Z] [])
            _ _ _ _ _ _).
  - reflexivity.
  - reflexivity.
  - repeat constructor.
  - simpl. lia.
  - reflexivity.
  - simpl. lia.
Defined.

(** An exception thrown by a middleware does not come out of [resolve]:
    [dispatch] catches it and [resolve] returns a rejected promise whose
    reason is that error, after the instance was built.
    (container.ts:454-458 and 218) *)
Theorem throwing_middleware_yields_rejected_promise :
  forall impl P n st c X r b v s1 m rest e,
    validC st c ->
    map_get Bindable_eqb (aliases (getC st c)) X = None ->
    map_get Bindable_eqb (instances (getC st c)) X = None ->
    includes X (resolvingStack (getC st c)) = false ->
    lookupBinding st c X = Some (r, b) ->
    buildable st c b ->
    factoryCode P (factory b) (resolve impl P n) c None (pushStack c X st)
    = Ok v s1 ->
    middlewares (getC s1 c) = m :: rest ->
    (forall next s, middlewareCode P m (resolve impl P n) next s = Throw e s) ->
    exists st',
      resolve impl P (S n) c X None st
      = Ok (VRejectedPromise (nextObject s1) e) st'.
Proof.
  intros impl P n st c X r b v s1 m rest e Hv Ha Hi Hs Hb Hbuild Hf Hm He.
  rewrite resolve_enters with (X' := X) (r := r) (b := b);
    auto using getAlias_none.
  destruct (instantiate_builds impl P (resolve impl P n) (pushStack c X st)
              c X r b v s1) as (s2 & Hinst & Hsh); auto.
  { now apply buildable_pushStack. }
  unfold finally_, bind_. rewrite Hinst.
  rewrite applyMiddleware_first with (m := m) (rest := rest)
    by (now rewrite (sameShell_middlewares _ _ c Hsh)).
  unfold catch_. rewrite He.
  unfold rejectedPromise, bind_, freshRef, ret. simpl.
  rewrite (sameShell_nextObject _ _ Hsh).
  eexists. reflexivity.
Qed.

Lemma throwing_middleware_yields_rejected_promise_witness :
  exists st',
    resolve ContainerTs sampleProgram2 1 0 idA None
            (storeAfter (c <- newContainer ;; use c 3 ;;; singleton c idA 0))
    = Ok (VRejectedPromise 1 (JsError "middleware failed")) st'.
Proof.
  refine (throwing_middleware_yields_rejected_promise
            ContainerTs sampleProgram2 0
            (storeAfter (c <- newContainer ;; use c 3 ;;; singleton c idA 0))
            0 idA 0 (mkBinding 0 Singleton VUndefined ResolverIsFactory)
            (VObject 0 true [])
            (mkState [mkContainer [(idA, 0)] [] [] [] [] [idA] None [] [3]]
                     [mkBinding 0 Singleton VUndefined ResolverIsFactory]
                     1 [] [])
            3 [] (JsError "middleware failed")
            _ _ _ _ _ _ _ _ _);
    first [ reflexivity
          | vm_compute; lia
          | split; [reflexivity | intros a Ha; discriminate Ha]
          | intros next s; reflexivity ].
Defined.

(** ** Tags *)

Lemma smap_get_set_other {V} (m : list (string * V)) k k' v :
  k <> k' ->
  map_get String.eqb (map_set String.eqb m k v) k' = map_get String.eqb m k'.
Proof. apply gen_map_get_set_other, String.eqb_spec. Qed.

Lemma smap_set_twice {V} (m : list (string * V)) k a b :
  map_set String.eqb (map_set String.eqb m k a) k b = map_set String.eqb m k b.
Proof.
  induction m as [|[k' v'] m IH]; simpl.
  - now rewrite String.eqb_refl.
  - destruct (String.eqb k k') eqn:E; simpl; rewrite ?String.eqb_refl, ?E; auto.
    now rewrite IH.
Qed.

Lemma tag_result st c l t :
  tag c l t st
  = Ok tt (setC st c
             (set_tags (getC st c)
                (map_set String.eqb (tags (getC st c)) t
                         (membersOf st c t ++ l)))).
Proof.
  unfold tag, membersOf, map_has.
  destruct (map_get String.eqb (tags (getC st c)) t) as [old|] eqn:E.
  - now rewrite E.
  - rewrite smap_get_set_same. now rewrite smap_set_twice.
Qed.

Lemma tagged_is_mapM_members impl P fuel c t st :
  tagged impl P fuel c t st
  = mapM (fun bindable => resolve impl P fuel c bindable None)
         (membersOf st c t) st.
Proof. reflexivity. Qed.

(** [tag] appends to the members a tag already has and never replaces
    them, so tagging twice is tagging once with the two lists in a row;
    other tags are left alone, and [tagged] resolves the old members first,
    then the new ones, duplicates included.  (container.ts:137-143 and
    464-467) *)
Theorem tag_appends_to_the_members :
  forall c l1 l2 t st,
    validC st c ->
    (tag c l1 t ;;; tag c l2 t) st = tag c (l1 ++ l2) t st /\
    forall st',
      tag c l1 t st = Ok tt st' ->
      membersOf st' c t = membersOf st c t ++ l1 /\
      (forall t', t' <> t -> membersOf st' c t' = membersOf st c t') /\
      forall impl P fuel,
        tagged impl P fuel c t st'
        = mapM (fun bindable => resolve impl P fuel c bindable None)
               (membersOf st c t ++ l1) st'.
Proof.
  intros c l1 l2 t st Hv.
  assert (Hmem : forall l st',
             tag c l t st = Ok tt st' ->
             membersOf st' c t = membersOf st c t ++ l /\
             forall t', t' <> t -> membersOf st' c t' = membersOf st c t').
  { intros l st' H. rewrite tag_result in H. inversion H; subst; clear H.
    split.
    - unfold membersOf at 1. rewrite getC_setC_same by exact Hv. simpl.
      now rewrite smap_get_set_same.
    - intros t' Hne. unfold membersOf at 1.
      rewrite getC_setC_same by exact Hv. simpl.
      rewrite smap_get_set_other by congruence. reflexivity. }
  split.
  - unfold bind_. rewrite (tag_result st). rewrite !tag_result.
    destruct (Hmem l1 _ (tag_result st c l1 t)) as [M1 _].
    rewrite M1. rewrite getC_setC_same by exact Hv. simpl.
    rewrite setC_setC, smap_set_twice, <- app_assoc. reflexivity.
  - intros st' H. destruct (Hmem l1 st' H) as [M1 M2].
    split; [exact M1|]. split; [exact M2|].
    intros impl P fuel. rewrite tagged_is_mapM_members. now rewrite M1.
Qed.

Lemma tag_appends_to_the_members_witness :
  (tag 0 [idA] "t" ;;; tag 0 [idB; idA] "t") oneContainer
  = tag 0 [idA; idB; idA] "t" oneContainer.
Proof.
  refine (proj1 (tag_appends_to_the_members 0 [idA] [idB; idA] "t"
                                           oneContainer _)).
  vm_compute. lia.
Defined.

Lemma mapM_app {A B} (f : A -> M B) l1 l2 st :
  mapM f (l1 ++ l2) st
  = (vs <- mapM f l1 ;; ws <- mapM f l2 ;; ret (vs ++ ws)) st.
Proof.
  revert st. induction l1 as [|a l1 IH]; intros st; simpl.
  - unfold bind_, ret. simpl. destruct (mapM f l2 st); reflexivity.
  - unfold bind_, ret. destruct (f a st) as [b s1| |]; auto.
    rewrite IH. unfold bind_, ret.
    destruct (mapM f l1 s1) as [vs s2| |]; auto.
    destruct (mapM f l2 s2) as [ws s3| |]; auto.
Qed.

(** [tagged] gives no partial result: when a member of the tag is bound
    nowhere along the parent chain, [tagged] throws the
    [UnresolvedDependencyError] of that member, after having resolved (and
    built) the members listed before it.  (container.ts:464-467) *)
Theorem tagged_fails_on_first_unresolved_member :
  forall impl P fuel c t st pre X post vs s1,
    membersOf st c t = pre ++ X :: post ->
    mapM (fun bindable => resolve impl P fuel c bindable None) pre st
    = Ok vs s1 ->
    Unprovided s1 X c ->
    c < fuel ->
    tagged impl P fuel c t st = Throw (UnresolvedDependencyError X) s1.
Proof.
  intros impl P fuel c t st pre X post vs s1 Hmem Hpre HU Hfuel.
  rewrite tagged_is_mapM_members, Hmem, mapM_app.
  unfold bind_ at 1. rewrite Hpre. simpl.
  unfold bind_ at 1 2.
  now rewrite (unprovided_throws impl P fuel s1 c X None HU Hfuel).
Qed.

Lemma tagged_fails_on_first_unresolved_member_witness :
  tagged ContainerTs sampleProgram 1 0 "t"
         (storeAfter (c <- newContainer ;; transient c idA 3 ;;;
                      tag c [idA; BString "Missing"; idB] "t"))
  = Throw (UnresolvedDependencyError (BString "Missing"))
          (mkState [mkContainer [(idA, 0)] [] [] [("t", [idA; BString "Missing"; idB])]
                                [] [] None [] []]
                   [mkBinding 3 Transient VUndefined ResolverIsFactory]
                   1 [0%Z] []).
Proof.
  refine (tagged_fails_on_first_unresolved_member
            ContainerTs sampleProgram 1 0 "t" _ [idA] (BString "Missing") [idB]
            [VObject 0 false []] _ _ _ _ _).
  - reflexivity.
  - reflexivity.
  - apply Unprovided_root.
    + vm_compute. lia.
    + repeat split.
    + reflexivity.
  - lia.
Defined.

(** ** More on disposal *)

Lemma dispose_cleared impl P n c st :
  validC st c ->
  getC st c = cleared (getC st c) ->
  dispose impl P (S n) c st = Ok tt st.
Proof.
  intros Hv Hc.
  assert (Hb : bindings (getC st c) = []) by (rewrite Hc; reflexivity).
  assert (Hk : children (getC st c) = []) by (rewrite Hc; reflexivity).
  simpl. unfold bind_.
  rewrite forOf_done by (cbn beta; now rewrite Hb).
  rewrite forOf_done by (cbn beta; now rewrite Hk).
  rewrite <- Hc. now rewrite setC_getC.
Qed.

(** When the [dispose] methods of the cached instances return normally
    and leave the store alone, disposing a container a second time does
    nothing: no method runs again and the store stays as the first call
    left it.  (container.ts:302-317) *)
Theorem second_dispose_is_a_no_op :
  forall impl P fuel w st c,
    olderParents st ->
    noProxyInstance st ->
    quietHooks P st ->
    boundedBy st w ->
    validC st c ->
    List.length (containers st) - c + w < fuel ->
    exists st',
      dispose impl P fuel c st = Ok tt st' /\
      dispose impl P fuel c st' = Ok tt st'.
Proof.
  intros impl P fuel w st c Ho Hnp Hqh Hw Hv Hfuel.
  destruct (dispose_post impl P w fuel c st Ho Hnp Hqh Hw Hv Hfuel)
    as (st' & Hd & _ & Hlen & _ & _ & Hc & _).
  exists st'. split; [exact Hd|].
  destruct fuel as [|n]; [lia|].
  apply dispose_cleared.
  - unfold validC in *. now rewrite Hlen.
  - rewrite Hc. reflexivity.
Qed.

Lemma second_dispose_is_a_no_op_witness :
  exists st',
    dispose ContainerTs sampleProgram 5 0 (disposeStore ContainerTs) = Ok tt st' /\
    dispose ContainerTs sampleProgram 5 0 st' = Ok tt st'.
Proof.
  refine (second_dispose_is_a_no_op ContainerTs sampleProgram 5 2
                                    (disposeStore ContainerTs) 0 _ _ _ _ _ _).
  - intros c k Hin. unfold getC in Hin.
    let x := eval vm_compute in (containers (disposeStore ContainerTs)) in
    change (containers (disposeStore ContainerTs)) with x in Hin;
    change (containers (disposeStore ContainerTs)) with x.
    destruct c as [|[|[|c]]]; simpl in Hin; try contradiction.
    destruct Hin as [<-|[]]. simpl. lia.
  - intros r b Hg. unfold getB in Hg.
    let x := eval vm_compute in (bindingObjects (disposeStore ContainerTs)) in
    change (bindingObjects (disposeStore ContainerTs)) with x in Hg.
    destruct r as [|[|[|[|r]]]]; simpl in Hg;
      try (inversion Hg; subst; exact I); discriminate.
  - intros r b o fs _ _ self s. reflexivity.
  - intros q. unfold getC.
    let x := eval vm_compute in (containers (disposeStore ContainerTs)) in
    change (containers (disposeStore ContainerTs)) with x.
    destruct q as [|[|[|q]]]; simpl; lia.
  - vm_compute. lia.
  - vm_compute. lia.
Defined.

Lemma createChild_facts st0 p k st1 :
  olderParents st0 ->
  validC st0 p ->
  createChild p st0 = Ok k st1 ->
  parent (getC st1 k) = Some p /\
  ~ In k (children (getC st1 p)) /\
  p < k /\
  validC st1 k /\
  getC st1 p = getC st0 p.
Proof.
  intros Ho Hv H. unfold createChild, allocC in H. inversion H; subst; clear H.
  unfold validC in *.
  assert (Hp : getC (mkState (containers st0 ++ [set_parent emptyContainer (Some p)])
                             (bindingObjects st0) (nextObject st0)
                             (indexCells st0) (disposeLog st0)) p
               = getC st0 p).
  { unfold getC; simpl. now rewrite app_nth1. }
  split.
  - unfold getC; simpl. rewrite app_nth2 by lia. now rewrite Nat.sub_diag.
  - split.
    + rewrite Hp. intros Hin. destruct (Ho p _ Hin). lia.
    + split; [lia|]. split; [|exact Hp].
      simpl. rewrite length_app. simpl. lia.
Qed.

(** A container that points to a parent which does not list it among its
    children is what [createChild] makes ([createChild_facts]; a scope made
    by [createScope] is listed).  The parent's [dispose], when the
    [dispose] methods it calls return normally and leave the store alone,
    passes such a child by: whatever the child holds stays in place.  The
    parent link stays too, and leads to an emptied container: what the
    child does not hold itself it can no longer resolve.
    (container.ts:329-333 and 302-317) *)
Theorem child_container_is_not_disposed_with_its_parent :
  forall impl P fuel w st p k,
    olderParents st ->
    noProxyInstance st ->
    quietHooks P st ->
    boundedBy st w ->
    validC st p -> validC st k ->
    leafScopes st (children (getC st p)) ->
    parent (getC st k) = Some p ->
    ~ In k (children (getC st p)) ->
    p < k ->
    List.length (containers st) - p + w < fuel ->
    exists st',
      dispose impl P fuel p st = Ok tt st' /\
      getC st' k = getC st k /\
      getC st' p = cleared (getC st p) /\
      forall X context m,
        nothingLocal st k X ->
        parent (getC st p) = None ->
        resolvingStack (getC st p) = [] ->
        k <= m ->
        resolve impl P (S m) k X context st'
        = Throw (UnresolvedDependencyError X) st'.
Proof.
  intros impl P fuel w st p k Ho Hnp Hqh Hw Hvp Hvk Hleaf Hpar Hnot Hpk Hfuel.
  destruct (dispose_post impl P w fuel p st Ho Hnp Hqh Hw Hvp Hfuel)
    as (st' & Hd & _ & Hlen & _ & _ & Hc & _ & rest & _ & Hl).
  destruct (Hl Hleaf) as [_ Hsame].
  assert (Hk : getC st' k = getC st k) by (apply Hsame; auto; lia).
  exists st'. split; [exact Hd|]. split; [exact Hk|]. split; [exact Hc|].
  intros X context m HnL Hroot Hstack Hm.
  apply unprovided_throws; [|lia].
  assert (Hvp' : validC st' p) by (unfold validC in *; now rewrite Hlen).
  assert (Hvk' : validC st' k) by (unfold validC in *; now rewrite Hlen).
  apply Unprovided_child with (p := p); auto.
  - unfold nothingLocal. now rewrite Hk.
  - now rewrite Hk.
  - apply cleared_unprovided; auto; rewrite Hc; auto.
Qed.

Lemma child_container_is_not_disposed_with_its_parent_witness :
  exists st',
    dispose ContainerTs sampleProgram2 4 0 (childStore ContainerTs) = Ok tt st' /\
    getC st' 1
    = mkContainer [(idA, 1)] [(idA, VObject 0 true [])] [] [] [] []
                  (Some 0) [] [] /\
    getC st' 0 = mkContainer [] [] [] [] [] [] None [] [] /\
    resolve ContainerTs sampleProgram2 2 1 idConfig None st'
    = Throw (UnresolvedDependencyError idConfig) st' /\
    resolve ContainerTs sampleProgram2 2 1 idConfig None (childStore ContainerTs)
    = Ok (VString "default")
         (mkState (containers (childStore ContainerTs))
                  (bindingObjects (childStore ContainerTs)) 1 [0%Z; 0%Z] []).
Proof.
  destruct (child_container_is_not_disposed_with_its_parent
              ContainerTs sampleProgram2 4 1 (childStore ContainerTs) 0 1)
    as (st' & Hd & Hk & Hp & Hres).
  - intros c k Hin. unfold getC in Hin.
    let x := eval vm_compute in (containers (childStore ContainerTs)) in
    change (containers (childStore ContainerTs)) with x in Hin.
    destruct c as [|[|c]]; simpl in Hin; try contradiction.
    destruct c; contradiction.
  - intros r b Hg. unfold getB in Hg.
    let x := eval vm_compute in (bindingObjects (childStore ContainerTs)) in
    change (bindingObjects (childStore ContainerTs)) with x in Hg.
    destruct r as [|[|r]]; simpl in Hg;
      try (inversion Hg; subst; exact I).
    destruct r; discriminate.
  - intros r b o fs _ _ self s. reflexivity.
  - intros q. unfold getC.
    let x := eval vm_compute in (containers (childStore ContainerTs)) in
    change (containers (childStore ContainerTs)) with x.
    destruct q as [|[|[|q]]]; simpl; lia.
  - vm_compute. lia.
  - vm_compute. lia.
  - split; [constructor|intros k []].
  - reflexivity.
  - intros [].
  - lia.
  - vm_compute. lia.
  - exists st'. split; [exact Hd|]. split; [exact Hk|]. split; [exact Hp|].
    split.
    + apply (Hres idConfig None 1); first [ reflexivity | lia | idtac ].
      repeat split.
    + reflexivity.
Defined.

(** A [dispose] method that throws stops [dispose()] on the spot.  The
    methods of the bindings before it have run (each returning normally
    and leaving the store alone); this one is entered in the log, runs and
    throws [e], leaving store [s']: then [dispose()], given fuel to get
    that far, throws [e] and [s'] is the store it leaves.  So the
    [dispose] methods of the later bindings are not called, no scope is
    disposed and no table of the container is cleared.
    (container.ts:302-317) *)
Theorem throwing_hook_aborts_dispose :
  forall impl P n st c before r after b o fields e s',
    noProxyInstance st ->
    map snd (bindings (getC st c)) = before ++ r :: after ->
    List.length before < n ->
    (forall r' b' o' fields',
        In r' before -> getB st r' = Some b' ->
        instance b' = VObject o' true fields' ->
        forall self s, disposeCode P o' self s = Ok tt s) ->
    getB st r = Some b ->
    instance b = VObject o true fields ->
    disposeCode P o (resolve impl P n)
                (appendLog st (flat_map (releaseOf st) before ++ [o]))
    = Throw e s' ->
    dispose impl P (S n) c st = Throw e s'.
Proof.
  intros impl P n st c before r after b o fields e s'
         Hnp Hbs Hlen Hquiet Hg Hinst Hthrow.
  assert (Hrel : releaseBinding impl P n r
                   (appendLog st (flat_map (releaseOf st) before))
                 = Throw e s').
  { unfold releaseBinding.
    change (getB (appendLog st (flat_map (releaseOf st) before)) r)
      with (getB st r).
    rewrite Hg, Hinst. simpl.
    unfold appendLog in Hthrow.
    destruct n; simpl; unfold bind_, logDispose; simpl;
      rewrite <- app_assoc; exact Hthrow. }
  assert (Hloop : forall F,
             List.length before < F ->
             forOf F (fun s => map snd (bindings (getC s c)))
                   (releaseBinding impl P n) 0 st
             = Throw e s').
  { intros F HF.
    replace F with (List.length before + S (F - List.length before - 1))
      by lia.
    rewrite (forOf_release impl P n c before _ 0 st (r :: after) Hnp);
      [|simpl; exact Hbs|exact Hquiet].
    cbn [forOf].
    change (map snd (bindings
              (getC (appendLog st (flat_map (releaseOf st) before)) c)))
      with (map snd (bindings (getC st c))).
    rewrite Hbs, nth_error_app2 by (simpl; lia).
    replace (0 + List.length before - List.length before) with 0 by lia.
    simpl. unfold bind_. now rewrite Hrel. }
  simpl. unfold bind_ at 1. now rewrite (Hloop n Hlen).
Qed.

Lemma throwing_hook_aborts_dispose_witness :
  dispose ContainerTs
          (withHooks sampleProgram
                     (fun _ _ => throw (JsError "release failed")))
          3 0 (disposeStore ContainerTs)
  = Throw (JsError "release failed") (appendLog (disposeStore ContainerTs) [0]).
Proof.
  refine (throwing_hook_aborts_dispose
            ContainerTs
            (withHooks sampleProgram
                       (fun _ _ => throw (JsError "release failed")))
            2 (disposeStore ContainerTs) 0 [] 0 [2]
            (mkBinding 2 Singleton (VObject 0 true []) ResolverIsFactory)
            0 [] (JsError "release failed") _ _ _ _ _ _ _ _).
  - intros r b Hg. unfold getB in Hg.
    let x := eval vm_compute in (bindingObjects (disposeStore ContainerTs)) in
    change (bindingObjects (disposeStore ContainerTs)) with x in Hg.
    destruct r as [|[|[|[|r]]]]; simpl in Hg;
      try (inversion Hg; subst; exact I); discriminate.
  - reflexivity.
  - simpl. lia.
  - intros r' b' o' fields' [].
  - reflexivity.
  - reflexivity.
  - reflexivity.
Defined.

(** ** More on contextual bindings *)

Lemma cache_singleton r c X v s :
  validC s c ->
  exists s',
    ((setBindingInstance r v ;;; instancesSet c X v) ;;; ret v) s = Ok v s' /\
    sameShell s s' /\
    map_get Bindable_eqb (instances (getC s' c)) X = Some v.
Proof.
  intros Hv. unfold bind_.
  destruct (setBindingInstance r v s) as [[] s3| |] eqn:E1;
    try (unfold setBindingInstance in E1; destruct (getB s r); discriminate).
  assert (Hsh3 : sameShell s s3) by (eapply sameShell_setBindingInstance; eauto).
  unfold instancesSet, ret. eexists. split; [reflexivity|]. split.
  - eapply sameShell_trans; [exact Hsh3|]. now apply sameShell_setC.
  - rewrite getC_setC_same by (eapply sameShell_validC; eauto).
    simpl. apply map_get_set_same.
Qed.

(** When the first resolution of a singleton is made in the name of a
    consumer that has a contextual binding for it, and the giver yields a
    truthy value, that value is what gets cached as the singleton: every
    later [resolve], with any context or none, returns the override, and
    the factory of the binding never runs.  (container.ts:194-216) *)
Theorem contextual_override_becomes_the_singleton :
  forall impl P n st0 st c Dep Consumer g r b v s1,
    validC st0 c ->
    map_get Bindable_eqb (aliases (getC st0 c)) Dep = None ->
    map_get Bindable_eqb (instances (getC st0 c)) Dep = None ->
    includes Dep (resolvingStack (getC st0 c)) = false ->
    lookupBinding st0 c Dep = Some (r, b) ->
    lifetime b = Singleton ->
    truthy (instance b) = false ->
    truthyB Consumer = true ->
    find (fun e => Bindable_eqb (need e) Dep) (entriesFor st0 c Consumer) = None ->
    give_ c Consumer Dep g st0 = Ok tt st ->
    giverYields P (resolve impl P n) c g (pushStack c Dep st) v s1 ->
    truthy v = true ->
    validC s1 c ->
    middlewares (getC s1 c) = [] ->
    map_get Bindable_eqb (aliases (getC s1 c)) Dep = None ->
    exists st',
      resolve impl P (S n) c Dep (Some Consumer) st = Ok v st' /\
      forall P' m context,
        resolve impl P' (S m) c Dep context st' = Ok v st'.
Proof.
  intros impl P n st0 st c Dep Consumer g r b v s1
         Hv Ha Hi Hs Hb Hl Hinst Ht Hnone Hgive Hy Htruthy Hv1 Hm1 Ha1.
  destruct (give_facts st0 c Consumer Dep g st Hv Hnone Hgive)
    as (Hv' & Hfind & Hlook & Hi' & Ha' & Hs' & Hm').
  destruct (cache_singleton r c Dep v s1 Hv1) as (s3 & Hc & Hsh3 & Hget).
  exists (popStack c (afterMiddleware s3)). split.
  - apply resolve_finishes with (X' := Dep) (r := r) (b := b) (s2 := s3);
      auto; try (rewrite ?Hi', ?Hs', ?Hlook; assumption);
      try (apply getAlias_none; now rewrite Ha').
    + rewrite instantiate_general;
        [|intros _; exact Hinst|intros _; rewrite Hl; discriminate].
      unfold bind_ at 1.
      rewrite contextualOverride_yields
        with (cb := mkContextualBinding Consumer Dep g) (v := v) (s1 := s1);
        auto; [|now rewrite entriesFor_pushStack].
      rewrite Htruthy. unfold bind_ at 1. unfold ret at 1.
      rewrite Hl. simpl Lifetime_eqb. cbv iota. exact Hc.
    + now rewrite (sameShell_middlewares _ _ c Hsh3).
  - intros P' m context. apply resolve_cached.
    + rewrite (sameShell_aliases _ _ c (sameShell_popStack _ c)).
      change (map_get Bindable_eqb (aliases (getC s3 c)) Dep = None).
      now rewrite (sameShell_aliases _ _ c Hsh3).
    + rewrite instances_popStack. exact Hget.
Qed.

Lemma contextual_override_becomes_the_singleton_witness :
  exists st',
    resolve ContainerTs sampleProgram 1 0 idConfig (Some idConsumer)
            (storeAfter (c <- newContainer ;;
                         singleton c idConfig 6 ;;;
                         give_ c idConsumer idConfig (GiveFunction 5)))
    = Ok (VString "local") st' /\
    forall P' m context,
      resolve ContainerTs P' (S m) 0 idConfig context st'
      = Ok (VString "local") st'.
Proof.
  refine (contextual_override_becomes_the_singleton
            ContainerTs sampleProgram 0
            (storeAfter (c <- newContainer ;; singleton c idConfig 6)) _
            0 idConfig idConsumer (GiveFunction 5) 0
            (mkBinding 6 Singleton VUndefined ResolverIsFactory)
            (VString "local") _ _ _ _ _ _ _ _ _ _ _ _ _ _ _ _);
    first [ reflexivity | vm_compute; lia ].
Defined.

(** A container that has nothing of its own for an identifier hands the
    request to its parent without the context: asked through a scope, an
    identifier resolves as if no consumer had been named, so contextual
    bindings never apply.  The scope's own middlewares are not run either.
    (container.ts:186-190) *)
Theorem resolution_through_a_scope_drops_the_context :
  forall impl P n st s p X context,
    validC st s ->
    nothingLocal st s X ->
    parent (getC st s) = Some p ->
    resolve impl P (S n) s X context st = resolve impl P (S n) s X None st /\
    resolve impl P (S n) s X context st
    = finally_ (resolve impl P n p X None) (popStack s) (pushStack s X st).
Proof.
  intros impl P n st s p X context Hv HnL Hp.
  rewrite !scope_delegates_to_parent with (p := p); auto.
Qed.

Lemma resolution_through_a_scope_drops_the_context_witness :
  resolve ContainerTs sampleProgram 2 1 idConfig (Some idConsumer)
          (scopedOverrideStore ContainerTs)
  = resolve ContainerTs sampleProgram 2 1 idConfig None
            (scopedOverrideStore ContainerTs) /\
  (exists st',
      resolve ContainerTs sampleProgram 2 1 idConfig (Some idConsumer)
              (scopedOverrideStore ContainerTs)
      = Ok (VString "default") st') /\
  (exists st',
      resolve ContainerTs sampleProgram 2 0 idConfig (Some idConsumer)
              (scopedOverrideStore ContainerTs)
      = Ok (VString "local") st').
Proof.
  split; [|split].
  - refine (proj1 (resolution_through_a_scope_drops_the_context
                     ContainerTs sampleProgram 1
                     (scopedOverrideStore ContainerTs) 1 0 idConfig
                     (Some idConsumer) _ _ _)).
    + vm_compute. lia.
    + repeat split.
    + reflexivity.
  - eexists. vm_compute. reflexivity.
  - eexists. vm_compute. reflexivity.
Defined.

(** For a binding made by [scoped], the two classes part ways when a
    consumer with a contextual binding is named.  [DIContainer] goes
    straight to the scoped closure: the override is not looked at, the
    factory's instance is returned and cached.  [Container] takes the
    truthy override and returns it; nothing is built and nothing cached.
    (dicontainer.ts:162-165 against container.ts:194-216) *)
Theorem scoped_binding_meets_contextual_override :
  forall P n st c Dep Consumer r f cb v s0 d s1,
    validC st c ->
    map_get Bindable_eqb (aliases (getC st c)) Dep = None ->
    map_get Bindable_eqb (instances (getC st c)) Dep = None ->
    includes Dep (resolvingStack (getC st c)) = false ->
    lookupBinding st c Dep
    = Some (r, mkBinding f Scoped VUndefined (ResolverOfScoped Dep)) ->
    truthyB Consumer = true ->
    find (fun e => Bindable_eqb (need e) Dep) (entriesFor st c Consumer)
    = Some cb ->
    factoryCode P f (resolve DIContainerTs P n) c None (pushStack c Dep st)
    = Ok d s1 ->
    validC s1 c ->
    middlewares (getC s1 c) = [] ->
    giverYields P (resolve ContainerTs P n) c (give cb) (pushStack c Dep st) v s0 ->
    truthy v = true ->
    middlewares (getC s0 c) = [] ->
    (exists st',
        resolve DIContainerTs P (S n) c Dep (Some Consumer) st = Ok d st' /\
        map_get Bindable_eqb (instances (getC st' c)) Dep = Some d) /\
    resolve ContainerTs P (S n) c Dep (Some Consumer) st
    = Ok v (popStack c (afterMiddleware s0)).
Proof.
  intros P n st c Dep Consumer r f cb v s0 d s1
         Hv Ha Hi Hs Hb Ht Hfind Hf Hv1 Hm1 Hy Htruthy Hm0.
  split.
  - set (b := mkBinding f Scoped VUndefined (ResolverOfScoped Dep)) in *.
    set (s2 := setC s1 c (set_instances (getC s1 c)
                            (map_set Bindable_eqb (instances (getC s1 c)) Dep d))).
    assert (Hinst : instantiate DIContainerTs P (resolve DIContainerTs P n) c Dep
                                (Some Consumer) r b (pushStack c Dep st)
                    = Ok d s2).
    { change (instantiate DIContainerTs P (resolve DIContainerTs P n) c Dep
                          (Some Consumer) r b (pushStack c Dep st))
        with (instantiate DIContainerTs P (resolve DIContainerTs P n) c Dep
                          None r b (pushStack c Dep st)).
      apply scoped_build_caches_in_container; auto.
      rewrite getC_pushStack by exact Hv. exact Hi. }
    assert (Hg2 : getC s2 c
                  = set_instances (getC s1 c)
                      (map_set Bindable_eqb (instances (getC s1 c)) Dep d))
      by (unfold s2; now rewrite getC_setC_same).
    exists (popStack c (afterMiddleware s2)). split.
    + apply resolve_finishes with (X' := Dep) (r := r) (b := b) (s2 := s2);
        auto using getAlias_none.
      rewrite Hg2. exact Hm1.
    + rewrite instances_popStack.
      change (map_get Bindable_eqb (instances (getC s2 c)) Dep = Some d).
      rewrite Hg2. simpl. apply map_get_set_same.
  - apply resolve_finishes
      with (X' := Dep) (r := r)
           (b := mkBinding f Scoped VUndefined (ResolverOfScoped Dep));
      auto using getAlias_none.
    rewrite instantiate_general; [|discriminate|discriminate].
    unfold bind_ at 1.
    rewrite contextualOverride_yields with (cb := cb) (v := v) (s1 := s0);
      auto; [|now rewrite entriesFor_pushStack].
    rewrite Htruthy. reflexivity.
Qed.

Lemma scoped_binding_meets_contextual_override_witness :
  (exists st',
      resolve DIContainerTs sampleProgram 1 0 idConfig (Some idConsumer)
              (storeAfter (c <- newContainer ;;
                           scoped c idConfig 6 ;;;
                           give_ c idConsumer idConfig (GiveFunction 5)))
      = Ok (VString "default") st' /\
      map_get Bindable_eqb (instances (getC st' 0)) idConfig
      = Some (VString "default")) /\
  resolve ContainerTs sampleProgram 1 0 idConfig (Some idConsumer)
          (storeAfter (c <- newContainer ;;
                       scoped c idConfig 6 ;;;
                       give_ c idConsumer idConfig (GiveFunction 5)))
  = Ok (VString "local")
       (afterMiddleware
          (storeAfter (c <- newContainer ;;
                       scoped c idConfig 6 ;;;
                       give_ c idConsumer idConfig (GiveFunction 5)))).
Proof.
  refine (scoped_binding_meets_contextual_override
            sampleProgram 0
            (storeAfter (c <- newContainer ;;
                         scoped c idConfig 6 ;;;
                         give_ c idConsumer idConfig (GiveFunction 5)))
            0 idConfig idConsumer 0 6
            (mkContextualBinding idConsumer idConfig (GiveFunction 5))
            (VString "local")
            (pushStack 0 idConfig
               (storeAfter (c <- newContainer ;;
                            scoped c idConfig 6 ;;;
                            give_ c idConsumer idConfig (GiveFunction 5))))
            (VString "default")
            (pushStack 0 idConfig
               (storeAfter (c <- newContainer ;;
                            scoped c idConfig 6 ;;;
                            give_ c idConsumer idConfig (GiveFunction 5))))
            _ _ _ _ _ _ _ _ _ _ _ _ _);
    first [ reflexivity | vm_compute; lia ].
Defined.

(** ** Constructor injection *)

Lemma mapM_resolveWithContext_given impl P fuel c Target st
      (g : Bindable -> Value) :
  forall ps,
    (forall p, In p ps ->
               exists cb,
                 find (fun e => Bindable_eqb (need e) p) (entriesFor st c Target)
                 = Some cb /\
                 give cb = GiveValue (g p)) ->
    mapM (fun param => resolveWithContext impl P fuel c param Target) ps st
    = Ok (map g ps) st.
Proof.
  induction ps as [|p ps IH]; intros H; simpl; [reflexivity|].
  unfold bind_ at 1.
  destruct (H p (or_introl eq_refl)) as (cb & Hfind & Hgive).
  unfold resolveWithContext at 1. rewrite Hfind, Hgive.
  unfold bind_. rewrite IH by (intros q Hq; apply H; now right).
  reflexivity.
Qed.

(** [createInstance] injects what the contextual bindings of the class give
    for its [paramTypes], in order and as given: a value is passed to the
    constructor even when it is falsy and even when nothing is bound to the
    parameter type, and nothing is resolved.  ([resolve] with a context
    would drop a falsy value and build the default instead.)
    (container.ts:252-256 and 426-433) *)
Theorem createInstance_injects_given_values_as_they_are :
  forall impl P T fuel c name source id st ps (g : Bindable -> Value),
    paramTypes (T (BFunction id name source)) = Some ps ->
    (forall p, In p ps ->
               exists cb,
                 find (fun e => Bindable_eqb (need e) p)
                      (entriesFor st c (BFunction id name source))
                 = Some cb /\
                 give cb = GiveValue (g p)) ->
    createInstance impl P T fuel c (BFunction id name source) st
    = construct (T (BFunction id name source)) (resolve impl P fuel)
                (map g ps) st.
Proof.
  intros impl P T fuel c name source id st ps g Hps Hgiven.
  unfold createInstance. rewrite Hps. unfold bind_.
  now rewrite (mapM_resolveWithContext_given impl P fuel c _ st g ps Hgiven).
Qed.

Lemma createInstance_injects_given_values_as_they_are_witness :
  createInstance ContainerTs sampleProgram sampleClasses 0 0 idPhotoController
                 injectionStore
  = Ok (VObject 0 false [VNumber 0])
       (mkState (containers injectionStore) [] 1 [] []).
Proof.
  refine (createInstance_injects_given_values_as_they_are
            ContainerTs sampleProgram sampleClasses 0 0
            "PhotoController" "class PhotoController { }" 2 injectionStore
            [idFilesystem] (fun _ => VNumber 0) _ _).
  - reflexivity.
  - intros p [<-|[]].
    exists (mkContextualBinding idPhotoController idFilesystem
                                (GiveValue (VNumber 0))).
    split; reflexivity.
Defined.

Lemma Unprovided_shell st st' X :
  List.length (containers st') = List.length (containers st) ->
  (forall q, aliases (getC st' q) = aliases (getC st q) /\
             instances (getC st' q) = instances (getC st q) /\
             bindings (getC st' q) = bindings (getC st q) /\
             resolvingStack (getC st' q) = resolvingStack (getC st q) /\
             parent (getC st' q) = parent (getC st q)) ->
  forall c, Unprovided st X c -> Unprovided st' X c.
Proof.
  intros Hlen Hsame c HU.
  induction HU as [c Hv (A & B & C & D) Hp | c p Hv (A & B & C & D) Hp Hlt HU IH];
    destruct (Hsame c) as (E1 & E2 & E3 & E4 & E5).
  - apply Unprovided_root.
    + unfold validC in *. now rewrite Hlen.
    + unfold nothingLocal. now rewrite E1, E2, E3, E4.
    + now rewrite E5.
  - apply Unprovided_child with (p := p); auto.
    + unfold validC in *. now rewrite Hlen.
    + unfold nothingLocal. now rewrite E1, E2, E3, E4.
    + now rewrite E5.
Qed.

(** A contextual binding does not make an identifier resolvable: [resolve]
    looks for the binding before it looks at the overrides, so for an
    identifier bound nowhere along the parent chain [resolve(Dep, Consumer)]
    throws [UnresolvedDependencyError] although [Consumer] has been given a
    value for [Dep].  (container.ts:185-191 come before 198-206) *)
Theorem contextual_binding_needs_a_default_binding :
  forall impl P fuel st0 st c Dep Consumer g,
    Unprovided st0 Dep c ->
    c < fuel ->
    give_ c Consumer Dep g st0 = Ok tt st ->
    resolve impl P fuel c Dep (Some Consumer) st
    = Throw (UnresolvedDependencyError Dep) st.
Proof.
  intros impl P fuel st0 st c Dep Consumer g HU Hfuel Hgive.
  apply unprovided_throws; [|exact Hfuel].
  unfold give_ in Hgive. inversion Hgive; subst; clear Hgive.
  apply Unprovided_shell with (st := st0); [| |exact HU].
  - unfold setC; simpl. now rewrite list_upd_length.
  - intros q. rewrite getC_setC.
    destruct (Nat.eqb c q && Nat.ltb c (List.length (containers st0))) eqn:E;
      [|repeat split].
    apply andb_prop in E. destruct E as [E _]. apply Nat.eqb_eq in E. subst q.
    repeat split.
Qed.

Lemma contextual_binding_needs_a_default_binding_witness :
  resolve ContainerTs sampleProgram 1 0 idFilesystem (Some idPhotoController)
          injectionStore
  = Throw (UnresolvedDependencyError idFilesystem) injectionStore.
Proof.
  refine (contextual_binding_needs_a_default_binding
            ContainerTs sampleProgram 1 oneContainer injectionStore 0
            idFilesystem idPhotoController (GiveValue (VNumber 0)) _ _ _).
  - apply Unprovided_root.
    + vm_compute. lia.
    + repeat split.
    + reflexivity.
  - lia.
  - reflexivity.
Defined.

(** ** Lazy bindings *)

(** A token bound with [lazyBind] is built at its first resolution and
    then behaves like a registered instance: the closure that [lazyBind]
    binds enters what the user's factory returned in [instances], so every
    later [resolve] returns that value without running any factory.  The
    binding record itself is not written to.  (container.ts:395-401) *)
Theorem lazyBind_builds_once :
  forall impl P n st0 st c X w uf v s1,
    validC st0 c ->
    map_get Bindable_eqb (aliases (getC st0 c)) X = None ->
    map_get Bindable_eqb (instances (getC st0 c)) X = None ->
    includes X (resolvingStack (getC st0 c)) = false ->
    factoryCode P w = lazyFactory c X uf ->
    lazyBind impl P c X w st0 = Ok tt st ->
    uf (resolve impl P n) (pushStack c X st) = Ok v s1 ->
    validC s1 c ->
    middlewares (getC s1 c) = [] ->
    map_get Bindable_eqb (aliases (getC s1 c)) X = None ->
    exists st1,
      resolve impl P (S n) c X None st = Ok v st1 /\
      (forall P' m context,
          resolve impl P' (S m) c X context st1 = Ok v st1) /\
      bindingObjects st1 = bindingObjects s1.
Proof.
  intros impl P n st0 st c X w uf v s1 Hv Ha Hi Hs Hw Hlazy Huf Hv1 Hm Ha1.
  unfold lazyBind, bind in Hlazy. unfold bind_ at 1 in Hlazy.
  unfold ret at 1 in Hlazy.
  destruct (registerBinding_facts st0 c X _ st Hv Hlazy)
    as (Hvs & Hlook & _ & Hi' & Ha' & Hs' & _).
  set (s2 := setC s1 c (set_instances (getC s1 c)
                          (map_set Bindable_eqb (instances (getC s1 c)) X v))).
  assert (Hg2 : getC s2 c
                = set_instances (getC s1 c)
                    (map_set Bindable_eqb (instances (getC s1 c)) X v))
    by (unfold s2; now rewrite getC_setC_same).
  exists (popStack c (afterMiddleware s2)). split; [|split].
  - eapply resolve_transient with (b := mkBinding w Transient VUndefined ResolverOfBind);
      eauto; try congruence.
    + intros a; discriminate.
    + simpl. rewrite Hw. unfold lazyFactory, bind_. rewrite Huf.
      reflexivity.
    + rewrite Hg2. exact Hm.
  - intros P' m context. apply resolve_cached.
    + rewrite (sameShell_aliases _ _ c (sameShell_popStack _ c)).
      change (map_get Bindable_eqb (aliases (getC s2 c)) X = None).
      rewrite Hg2. exact Ha1.
    + rewrite instances_popStack.
      change (map_get Bindable_eqb (instances (getC s2 c)) X = Some v).
      rewrite Hg2. simpl. apply map_get_set_same.
  - reflexivity.
Qed.

Lemma lazyBind_builds_once_witness :
  exists st1,
    resolve ContainerTs sampleProgram2 1 0 (BString "lazy") None
            (storeAfter (c <- newContainer ;;
                         lazyBind ContainerTs sampleProgram2 c (BString "lazy") 4))
    = Ok (VObject 0 true []) st1 /\
    (forall P' m context,
        resolve ContainerTs P' (S m) 0 (BString "lazy") context st1
        = Ok (VObject 0 true []) st1) /\
    bindingObjects st1 = [mkBinding 4 Transient VUndefined ResolverOfBind].
Proof.
  refine (lazyBind_builds_once
            ContainerTs sampleProgram2 0 oneContainer _ 0 (BString "lazy") 4
            (fun _ => newObject true []) (VObject 0 true [])
            (mkState [mkContainer [(BString "lazy", 0)] [] [] [] []
                                  [BString "lazy"] None [] []]
                     [mkBinding 4 Transient VUndefined ResolverOfBind]
                     1 [] [])
            _ _ _ _ _ _ _ _ _ _);
    first [ reflexivity | vm_compute; lia ].
Defined.

(** ** The observer *)

Lemma listenersOf_subscribe (World : Type) ev cb (s : Observer.t World) e :
  Observer.listenersOf (Observer.subscribe ev cb s) e
  = Observer.listenersOf s e ++ (if String.eqb ev e then [cb] else []).
Proof.
  unfold Observer.listenersOf, Observer.subscribe, map_has. simpl.
  destruct (String.eqb_spec ev e) as [->|Hne].
  - destruct (map_get String.eqb (Observer.listeners s) e) as [l|] eqn:E.
    + rewrite E. now rewrite smap_get_set_same.
    + rewrite !smap_get_set_same. reflexivity.
  - destruct (map_get String.eqb (Observer.listeners s) ev) as [l|] eqn:E.
    + rewrite smap_get_set_other by exact Hne. now rewrite app_nil_r.
    + rewrite !smap_get_set_other by exact Hne. now rewrite app_nil_r.
Qed.

Lemma listenersOf_subscriptions (World : Type) e :
  forall subs (s0 : Observer.t World),
    Observer.listenersOf
      (fold_left (fun s sub => Observer.subscribe (fst sub) (snd sub) s) subs s0) e
    = Observer.listenersOf s0 e
      ++ map snd (filter (fun sub => String.eqb (fst sub) e) subs).
Proof.
  induction subs as [|[ev cb] subs IH]; intros s0; simpl.
  - now rewrite app_nil_r.
  - rewrite IH, listenersOf_subscribe.
    destruct (String.eqb ev e); simpl.
    + now rewrite <- app_assoc.
    + now rewrite app_nil_r.
Qed.

Lemma publish_runs_listeners (World : Type) code n e d (s : Observer.t World) :
  Observer.publish code (S n) e d s
  = Observer.forEach (fun callback => code callback (Observer.publish code n) d)
                     (Observer.listenersOf s e) s.
Proof.
  simpl. unfold Observer.listenersOf.
  now destruct (map_get String.eqb (Observer.listeners s) e).
Qed.

(** After any sequence of [subscribe] calls, [publish(event, data)] calls
    exactly the callbacks subscribed to that event, the older ones first,
    then the new ones in the order of their subscription, a callback as
    often as it was subscribed, each with [data]; it stops at the first
    callback that throws.  Subscriptions to other events change nothing,
    and publishing an event nobody subscribed to calls nothing.
    (container.ts:549-554 and 567-572) *)
Theorem publish_calls_the_subscribers_in_order :
  forall (World : Type) (code : nat -> Observer.Callback World)
         n event data subs (s0 : Observer.t World),
    Observer.publish code (S n) event data
      (fold_left (fun s sub => Observer.subscribe (fst sub) (snd sub) s) subs s0)
    = Observer.forEach
        (fun callback => code callback (Observer.publish code n) data)
        (Observer.listenersOf s0 event
         ++ map snd (filter (fun sub => String.eqb (fst sub) event) subs))
        (fold_left (fun s sub => Observer.subscribe (fst sub) (snd sub) s) subs s0).
Proof.
  intros. rewrite publish_runs_listeners.
  now rewrite listenersOf_subscriptions.
Qed.

(** [Container - Observer Pattern] of the test-suite: one callback that
    records what it is called with, two publications. *)
Example observer_pattern_test :
  let record : nat -> Observer.Callback (list Value) :=
    fun _ _ data s =>
      Observer.Returned (Observer.mk (Observer.listeners s)
                                     (Observer.world s ++ [data])) in
  Observer.publish record 1 "testEvent" (VString "Event 2")
    (match Observer.publish record 1 "testEvent" (VString "Event 1")
             (Observer.subscribe "testEvent" 0 (Observer.mk [] [])) with
     | Observer.Returned s => s
     | _ => Observer.mk [] []
     end)
  = Observer.Returned
      (Observer.mk [("testEvent", [0])]
                   [VString "Event 1"; VString "Event 2"]).
Proof. reflexivity. Qed.

(** ** The container of [src/mod.ts] *)

Lemma Val_eqb_spec a b : reflect (a = b) (ModTs.Val_eqb a b).
Proof.
  unfold ModTs.Val_eqb. destruct (ModTs.Val_eq_dec a b); now constructor.
Qed.

Lemma vmap_get_set_same {V} (m : list (ModTs.Val * V)) k v :
  map_get ModTs.Val_eqb (map_set ModTs.Val_eqb m k v) k = Some v.
Proof. apply gen_map_get_set_same, Val_eqb_spec. Qed.

Lemma vmap_get_set_other {V} (m : list (ModTs.Val * V)) k k' v :
  k <> k' ->
  map_get ModTs.Val_eqb (map_set ModTs.Val_eqb m k v) k'
  = map_get ModTs.Val_eqb m k'.
Proof. apply gen_map_get_set_other, Val_eqb_spec. Qed.

Lemma andThen_ret_r (World A : Type) (m : ModTs.Run World A) s :
  ModTs.andThen m (fun x => ModTs.ret x) s = m s.
Proof. unfold ModTs.andThen, ModTs.ret. now destruct (m s). Qed.

(** For an identifier that is neither a class nor a zod schema, [resolve]
    is a lookup followed by a call of the stored factory. *)
Lemma ModTs_resolve_plain (World : Type) (E : ModTs.Env World) n type f s :
  ModTs.plainType E type ->
  map_get ModTs.Val_eqb (ModTs.bindings s) type = Some f ->
  ModTs.resolve E (S n) type s = ModTs.run E (ModTs.resolve E n) f s.
Proof.
  intros Hp Hb. simpl. unfold ModTs.resolveStep. rewrite Hb.
  destruct type; simpl in Hp; rewrite ?Hp;
    unfold ModTs.andThen at 1; unfold ModTs.ret at 1;
    apply andThen_ret_r.
Qed.

Lemma ModTs_resolve_unbound (World : Type) (E : ModTs.Env World) n type s :
  map_get ModTs.Val_eqb (ModTs.bindings s) type = None ->
  ModTs.resolve E (S n) type s
  = ModTs.Throws (ModTs.UnresolvedDependencyError (ModTs.String_ E type)) s.
Proof. intros Hb. simpl. unfold ModTs.resolveStep. now rewrite Hb. Qed.

(** In [src/mod.ts], [when(C).needs(type).give(implementation)] also
    rebinds [type] for everybody: whatever was bound to it before,
    [resolve(type)] from then on returns [implementation] itself (a
    function is returned, not called), with no consumer being named.
    (mod.ts:188-215 and 227-251) *)
Theorem ModTs_give_rebinds_for_every_consumer :
  forall (World : Type) (E : ModTs.Env World) constructor type implementation
         (s : ModTs.Container World),
    ModTs.plainType E type ->
    exists s',
      ModTs.give constructor type implementation s = ModTs.Returns tt s' /\
      forall n, ModTs.resolve E (S n) type s' = ModTs.Returns implementation s'.
Proof.
  intros World E constructor type implementation s Hp.
  eexists. split; [reflexivity|].
  intros n. rewrite ModTs_resolve_plain with (f := ModTs.Constant implementation).
  - reflexivity.
  - exact Hp.
  - simpl. apply vmap_get_set_same.
Qed.

Lemma ModTs_give_rebinds_for_every_consumer_witness :
  exists s',
    ModTs.give (ModTs.Fun 2) (ModTs.Str "maxUsers") (ModTs.Num 100)
               newModContainer
    = ModTs.Returns tt s' /\
    forall n,
      ModTs.resolve sampleEnv (S n) (ModTs.Str "maxUsers") s'
      = ModTs.Returns (ModTs.Num 100) s'.
Proof.
  refine (ModTs_give_rebinds_for_every_consumer
            nat sampleEnv (ModTs.Fun 2) (ModTs.Str "maxUsers") (ModTs.Num 100)
            newModContainer _).
  exact I.
Defined.

(** In [src/mod.ts] a singleton is built at its first resolution, and the
    instance is kept under the identifier, not with the binding: when the
    identifier is bound again with [bindSingleton] and another factory,
    [resolve] still returns the first instance and the new factory is never
    called.  (mod.ts:30-41 and 227-251) *)
Theorem ModTs_singleton_outlives_rebinding :
  forall (World : Type) (E : ModTs.Env World) n type factory1 v
         (s s2 : ModTs.Container World),
    ModTs.plainType E type ->
    map_get ModTs.Val_eqb (ModTs.singletons s) type = None ->
    ModTs.apply E (ModTs.resolve E n) factory1 []
      (ModTs.mk (map_set ModTs.Val_eqb (ModTs.bindings s) type
                         (ModTs.SingletonFactory type factory1))
                (ModTs.singletons s) (ModTs.contextualBindings s)
                (ModTs.aliases s) (ModTs.tags s)
                (ModTs.customErrorHandlers s) (ModTs.world s))
    = ModTs.Returns v s2 ->
    exists s3,
      ModTs.andThen (ModTs.bindSingleton type factory1)
                    (fun _ => ModTs.resolve E (S n) type) s
      = ModTs.Returns v s3 /\
      forall factory2 m, exists s4,
          ModTs.andThen (ModTs.bindSingleton type factory2)
                        (fun _ => ModTs.resolve E (S m) type) s3
          = ModTs.Returns v s4 /\
          ModTs.world s4 = ModTs.world s3 /\
          ModTs.singletons s4 = ModTs.singletons s3.
Proof.
  intros World E n type factory1 v s s2 Hp Hnone Hcall.
  eexists. split.
  - unfold ModTs.andThen at 1. unfold ModTs.bindSingleton, ModTs.bind.
    rewrite ModTs_resolve_plain
      with (f := ModTs.SingletonFactory type factory1);
      [|exact Hp|simpl; apply vmap_get_set_same].
    simpl. unfold map_has. rewrite Hnone.
    unfold ModTs.andThen. rewrite Hcall.
    unfold ModTs.singletonsSet. simpl. rewrite vmap_get_set_same.
    reflexivity.
  - intros factory2 m. eexists. split; [|split].
    + unfold ModTs.andThen at 1. unfold ModTs.bindSingleton, ModTs.bind.
      rewrite ModTs_resolve_plain
        with (f := ModTs.SingletonFactory type factory2);
        [|exact Hp|simpl; apply vmap_get_set_same].
      simpl. unfold map_has. rewrite vmap_get_set_same.
      unfold ModTs.andThen, ModTs.ret. simpl. rewrite vmap_get_set_same.
      reflexivity.
    + reflexivity.
    + reflexivity.
Qed.

Lemma ModTs_singleton_outlives_rebinding_witness :
  exists s3,
    ModTs.andThen (ModTs.bindSingleton (ModTs.Str "counter") (ModTs.Fun 10))
                  (fun _ => ModTs.resolve sampleEnv 1 (ModTs.Str "counter"))
                  newModContainer
    = ModTs.Returns (ModTs.Num 0) s3 /\
    forall factory2 m, exists s4,
        ModTs.andThen (ModTs.bindSingleton (ModTs.Str "counter") factory2)
                      (fun _ => ModTs.resolve sampleEnv (S m) (ModTs.Str "counter"))
                      s3
        = ModTs.Returns (ModTs.Num 0) s4 /\
        ModTs.world s4 = ModTs.world s3 /\
        ModTs.singletons s4 = ModTs.singletons s3.
Proof.
  refine (ModTs_singleton_outlives_rebinding
            nat sampleEnv 0 (ModTs.Str "counter") (ModTs.Fun 10) (ModTs.Num 0)
            newModContainer _ _ _ _);
    first [ exact I | reflexivity ].
Defined.

(** [extend] wraps the factory bound at the time: after two extensions,
    [resolve] calls the original factory, passes its result to the first
    extender and the result of that to the second, and does so at every
    resolution.  Extending an identifier that has no binding throws
    [InvalidExtensionError] and binds nothing.  (mod.ts:217-225 and
    227-251) *)
Theorem ModTs_extenders_apply_in_order :
  forall (World : Type) (E : ModTs.Env World) type extender1 extender2 f0
         (s : ModTs.Container World),
    ModTs.plainType E type ->
    map_get ModTs.Val_eqb (ModTs.bindings s) type = Some f0 ->
    (exists s2,
        ModTs.andThen (ModTs.extend type extender1)
                      (fun _ => ModTs.extend type extender2) s
        = ModTs.Returns tt s2 /\
        forall n,
          ModTs.resolve E (S n) type s2
          = ModTs.andThen (ModTs.run E (ModTs.resolve E n) f0)
              (fun x =>
                 ModTs.andThen (ModTs.apply E (ModTs.resolve E n) extender1 [x])
                   (fun y => ModTs.apply E (ModTs.resolve E n) extender2 [y]))
              s2) /\
    forall type' extender (s' : ModTs.Container World),
      map_get ModTs.Val_eqb (ModTs.bindings s') type' = None ->
      ModTs.extend type' extender s'
      = ModTs.Throws (ModTs.InvalidExtensionError type') s'.
Proof.
  intros World E type extender1 extender2 f0 s Hp Hb. split.
  - eexists. split.
    + unfold ModTs.andThen, ModTs.extend. rewrite Hb.
      unfold ModTs.bind at 1. simpl. rewrite vmap_get_set_same.
      reflexivity.
    + intros n.
      rewrite ModTs_resolve_plain
        with (f := ModTs.Extended extender2 (ModTs.Extended extender1 f0));
        [|exact Hp|simpl; apply vmap_get_set_same].
      simpl. unfold ModTs.andThen.
      destruct (ModTs.run E (ModTs.resolve E n) f0 _) as [x s1| |]; auto.
  - intros type' extender s' Hn. unfold ModTs.extend. now rewrite Hn.
Qed.

Lemma ModTs_extenders_apply_in_order_witness :
  exists s2,
    ModTs.andThen (ModTs.extend (ModTs.Str "n") (ModTs.Fun 11))
                  (fun _ => ModTs.extend (ModTs.Str "n") (ModTs.Fun 12))
                  (ModTs.mk [(ModTs.Str "n", ModTs.Constant (ModTs.Num 5))]
                            [] [] [] [] [] 0)
    = ModTs.Returns tt s2 /\
    ModTs.resolve sampleEnv 1 (ModTs.Str "n") s2
    = ModTs.Returns (ModTs.Num 12) s2.
Proof.
  destruct (ModTs_extenders_apply_in_order
              nat sampleEnv (ModTs.Str "n") (ModTs.Fun 11) (ModTs.Fun 12)
              (ModTs.Constant (ModTs.Num 5))
              (ModTs.mk [(ModTs.Str "n", ModTs.Constant (ModTs.Num 5))]
                        [] [] [] [] [] 0) I eq_refl)
    as [(s2 & H1 & H2) _].
  exists s2. split; [exact H1|].
  rewrite H2. inversion H1; subst. reflexivity.
Defined.

(** [make(alias)] resolves what the alias stands for, one step only, and
    throws [InvalidAliasError] for a name that is no alias; [resolve]
    itself never looks at the aliases, so resolving the alias name finds
    nothing unless the name is bound too.  (mod.ts:272-285 and 227-233) *)
Theorem ModTs_make_follows_the_alias_and_resolve_does_not :
  forall (World : Type) (E : ModTs.Env World) fuel a type
         (s0 s : ModTs.Container World),
    ModTs.truthy type = true ->
    ModTs.alias a type s0 = ModTs.Returns tt s ->
    ModTs.make E fuel a s = ModTs.resolve E fuel type s /\
    (map_get ModTs.Val_eqb (ModTs.bindings s0) (ModTs.Str a) = None ->
     forall n,
       ModTs.resolve E (S n) (ModTs.Str a) s
       = ModTs.Throws (ModTs.UnresolvedDependencyError a) s) /\
    (forall b, b <> a ->
               map_get String.eqb (ModTs.aliases s0) b = None ->
               ModTs.make E fuel b s = ModTs.Throws (ModTs.InvalidAliasError b) s).
Proof.
  intros World E fuel a type s0 s Ht Ha.
  unfold ModTs.alias in Ha. inversion Ha; subst; clear Ha.
  split; [|split].
  - unfold ModTs.make. simpl. rewrite smap_get_set_same. now rewrite Ht.
  - intros Hb n. now rewrite ModTs_resolve_unbound.
  - intros b Hne Hnone. unfold ModTs.make. simpl.
    rewrite smap_get_set_other by congruence. now rewrite Hnone.
Qed.

Lemma ModTs_make_follows_the_alias_and_resolve_does_not_witness :
  ModTs.make sampleEnv 1 "logger"
    (ModTs.mk [(ModTs.Str "FileLogger", ModTs.Constant (ModTs.Obj 7))] []
              [] [("logger", ModTs.Str "FileLogger")] [] [] 0)
  = ModTs.Returns (ModTs.Obj 7)
      (ModTs.mk [(ModTs.Str "FileLogger", ModTs.Constant (ModTs.Obj 7))] []
                [] [("logger", ModTs.Str "FileLogger")] [] [] 0) /\
  ModTs.resolve sampleEnv 1 (ModTs.Str "logger")
    (ModTs.mk [(ModTs.Str "FileLogger", ModTs.Constant (ModTs.Obj 7))] []
              [] [("logger", ModTs.Str "FileLogger")] [] [] 0)
  = ModTs.Throws (ModTs.UnresolvedDependencyError "logger")
      (ModTs.mk [(ModTs.Str "FileLogger", ModTs.Constant (ModTs.Obj 7))] []
                [] [("logger", ModTs.Str "FileLogger")] [] [] 0).
Proof.
  destruct (ModTs_make_follows_the_alias_and_resolve_does_not
              nat sampleEnv 1 "logger" (ModTs.Str "FileLogger")
              (ModTs.mk [(ModTs.Str "FileLogger", ModTs.Constant (ModTs.Obj 7))]
                        [] [] [] [] [] 0)
              (ModTs.mk [(ModTs.Str "FileLogger", ModTs.Constant (ModTs.Obj 7))]
                        [] [] [("logger", ModTs.Str "FileLogger")] [] [] 0)
              eq_refl eq_refl)
    as (H1 & H2 & _).
  split.
  - rewrite H1. reflexivity.
  - apply H2. reflexivity.
Defined.

Lemma has_single x y : ModTs.has [x] y = String.eqb y x.
Proof. unfold ModTs.has. simpl. now rewrite orb_false_r. Qed.

Lemma detect_enters (World : Type) (E : ModTs.Env World) self n c stack visited :
  ModTs.has stack (ModTs.name E c) = false ->
  ModTs.has visited (ModTs.name E c) = false ->
  ModTs.detectCircularDependencies E self (S n) c stack visited
  = ModTs.forEachParamType E self
      (fun d v => ModTs.detectCircularDependencies E self n d
                    (stack ++ [ModTs.name E c]) v)
      (stack ++ [ModTs.name E c])
      (match ModTs.paramTypes E c with Some l => l | None => [] end)
      (visited ++ [ModTs.name E c]).
Proof. intros H1 H2. simpl. now rewrite H1, H2. Qed.

(** One round of the loop for a parameter type that is a class bound to a
    factory returning a class. *)
Lemma forEachParamType_class (World : Type) (E : ModTs.Env World) self recurse
      stack p rest visited d s :
  ModTs.prototype E p = true ->
  map_get ModTs.Val_eqb (ModTs.bindings s) (ModTs.Fun p)
  = Some (ModTs.Constant (ModTs.Fun d)) ->
  ModTs.prototype E d = true ->
  ModTs.forEachParamType E self recurse stack (ModTs.Fun p :: rest) visited s
  = if ModTs.has stack (ModTs.name E d)
    then ModTs.Throws
           (ModTs.CircularDependencyError (stack ++ [ModTs.name E d])) s
    else ModTs.andThen (recurse d visited)
           (fun visited' =>
              ModTs.forEachParamType E self recurse stack rest visited') s.
Proof.
  intros Hp Hb Hd. cbn [ModTs.forEachParamType]. rewrite Hp.
  unfold ModTs.andThen at 1. unfold ModTs.ret at 1.
  cbn [ModTs.truthy negb]. rewrite Hb.
  unfold ModTs.andThen at 1. cbn [ModTs.run]. unfold ModTs.ret at 1.
  rewrite Hd. now destruct (ModTs.has stack (ModTs.name E d)).
Qed.

(** In [src/mod.ts] a cycle between two classes is found from their
    [paramTypes] before anything is built: when class [A] names [B], class
    [B] names [A], and each is bound to a factory that returns the class,
    [resolve(A)] throws [CircularDependencyError] with the chain
    [A, B, A], and the store is as before.  (mod.ts:43-103 and 227-243) *)
Theorem ModTs_cycle_between_two_classes_is_detected :
  forall (World : Type) (E : ModTs.Env World) a b n
         (s : ModTs.Container World),
    ModTs.prototype E a = true ->
    ModTs.prototype E b = true ->
    ModTs.paramTypes E a = Some [ModTs.Fun b] ->
    ModTs.paramTypes E b = Some [ModTs.Fun a] ->
    ModTs.name E a <> ModTs.name E b ->
    map_get ModTs.Val_eqb (ModTs.bindings s) (ModTs.Fun a)
    = Some (ModTs.Constant (ModTs.Fun a)) ->
    map_get ModTs.Val_eqb (ModTs.bindings s) (ModTs.Fun b)
    = Some (ModTs.Constant (ModTs.Fun b)) ->
    ModTs.resolve E (3 + n) (ModTs.Fun a) s
    = ModTs.Throws
        (ModTs.CircularDependencyError
           [ModTs.name E a; ModTs.name E b; ModTs.name E a]) s.
Proof.
  intros World E a b n s Hpa Hpb Hta Htb Hne Hba Hbb.
  assert (Hba' : String.eqb (ModTs.name E b) (ModTs.name E a) = false)
    by (apply String.eqb_neq; congruence).
  change (ModTs.resolve E (3 + n) (ModTs.Fun a) s)
    with (ModTs.resolveStep E (ModTs.resolve E (S (S n))) (S (S n))
                            (ModTs.Fun a) s).
  set (self := ModTs.resolve E (S (S n))).
  unfold ModTs.resolveStep. rewrite Hba, Hpa.
  unfold ModTs.andThen at 1. unfold ModTs.andThen at 1.
  rewrite detect_enters by reflexivity.
  rewrite Hta. simpl app.
  rewrite forEachParamType_class with (d := b); auto.
  rewrite has_single, Hba'.
  unfold ModTs.andThen at 1.
  rewrite detect_enters; [|now rewrite has_single|now rewrite has_single].
  rewrite Htb. simpl app.
  rewrite forEachParamType_class with (d := a); auto.
  assert (Hhas : ModTs.has [ModTs.name E a; ModTs.name E b] (ModTs.name E a) = true)
    by (unfold ModTs.has; simpl; now rewrite String.eqb_refl).
  rewrite Hhas. reflexivity.
Qed.

Lemma ModTs_cycle_between_two_classes_is_detected_witness :
  ModTs.resolve sampleEnv 3 (ModTs.Fun 0)
    (ModTs.mk [(ModTs.Fun 0, ModTs.Constant (ModTs.Fun 0));
               (ModTs.Fun 1, ModTs.Constant (ModTs.Fun 1))] [] [] [] [] [] 0)
  = ModTs.Throws (ModTs.CircularDependencyError ["A"; "B"; "A"])
      (ModTs.mk [(ModTs.Fun 0, ModTs.Constant (ModTs.Fun 0));
                 (ModTs.Fun 1, ModTs.Constant (ModTs.Fun 1))] [] [] [] [] [] 0).
Proof.
  refine (ModTs_cycle_between_two_classes_is_detected
            nat sampleEnv 0 1 0 _ _ _ _ _ _ _ _);
    first [ reflexivity | discriminate ].
Defined.

(** The detection goes by the names of the classes, not by the classes:
    a class whose parameter type is a different class of the same name is
    reported as depending on itself, although the other class depends on
    nothing.  (mod.ts:48-54 and 89-95) *)
Theorem ModTs_classes_of_one_name_look_circular :
  forall (World : Type) (E : ModTs.Env World) a b rest fa n
         (s : ModTs.Container World),
    a <> b ->
    ModTs.name E a = ModTs.name E b ->
    ModTs.prototype E a = true ->
    ModTs.prototype E b = true ->
    ModTs.paramTypes E a = Some (ModTs.Fun b :: rest) ->
    map_get ModTs.Val_eqb (ModTs.bindings s) (ModTs.Fun a) = Some fa ->
    map_get ModTs.Val_eqb (ModTs.bindings s) (ModTs.Fun b)
    = Some (ModTs.Constant (ModTs.Fun b)) ->
    ModTs.resolve E (2 + n) (ModTs.Fun a) s
    = ModTs.Throws
        (ModTs.CircularDependencyError [ModTs.name E a; ModTs.name E a]) s.
Proof.
  intros World E a b rest fa n s Hab Hname Hpa Hpb Hta Hba Hbb.
  change (ModTs.resolve E (2 + n) (ModTs.Fun a) s)
    with (ModTs.resolveStep E (ModTs.resolve E (S n)) (S n) (ModTs.Fun a) s).
  set (self := ModTs.resolve E (S n)).
  unfold ModTs.resolveStep. rewrite Hba, Hpa.
  unfold ModTs.andThen at 1. unfold ModTs.andThen at 1.
  rewrite detect_enters by reflexivity.
  rewrite Hta. simpl app.
  rewrite forEachParamType_class with (d := b); auto.
  rewrite has_single, <- Hname, String.eqb_refl. reflexivity.
Qed.

Lemma ModTs_classes_of_one_name_look_circular_witness :
  ModTs.resolve sampleEnv 2 (ModTs.Fun 2)
    (ModTs.mk [(ModTs.Fun 2, ModTs.Constant (ModTs.Obj 20));
               (ModTs.Fun 3, ModTs.Constant (ModTs.Fun 3))] [] [] [] [] [] 0)
  = ModTs.Throws (ModTs.CircularDependencyError ["Service"; "Service"])
      (ModTs.mk [(ModTs.Fun 2, ModTs.Constant (ModTs.Obj 20));
                 (ModTs.Fun 3, ModTs.Constant (ModTs.Fun 3))] [] [] [] [] [] 0).
Proof.
  refine (ModTs_classes_of_one_name_look_circular
            nat sampleEnv 2 3 [] (ModTs.Constant (ModTs.Obj 20)) 0 _
            _ _ _ _ _ _ _);
    first [ reflexivity | discriminate ].
Defined.

(** ** Cycles of any length *)

Lemma pushAll_app c xs ys st :
  pushAll c (xs ++ ys) st = pushAll c ys (pushAll c xs st).
Proof. unfold pushAll. apply fold_left_app. Qed.

Lemma pushAll_facts c xs :
  forall st,
    validC st c ->
    validC (pushAll c xs st) c /\
    getC (pushAll c xs st) c
    = set_resolvingStack (getC st c) (resolvingStack (getC st c) ++ xs) /\
    bindingObjects (pushAll c xs st) = bindingObjects st.
Proof.
  induction xs as [|x xs IH]; intros st Hv; simpl.
  - rewrite app_nil_r, set_resolvingStack_id. auto.
  - destruct (IH (pushStack c x st)) as (A & B & C).
    + now apply validC_pushStack.
    + split; [exact A|]. split; [|exact C].
      fold (pushAll c xs (pushStack c x st)). rewrite B.
      rewrite getC_pushStack by exact Hv. simpl.
      unfold set_resolvingStack; simpl. now rewrite <- app_assoc.
Qed.

Lemma includes_In X l : In X l -> includes X l = true.
Proof.
  intros H. unfold includes. apply existsb_exists. exists X. split; auto.
  apply Bindable_eqb_refl.
Qed.

Lemma includes_notIn X l : ~ In X l -> includes X l = false.
Proof.
  intros H. unfold includes.
  destruct (existsb (Bindable_eqb X) l) eqn:E; auto.
  apply existsb_exists in E. destruct E as (Y & HY & HE).
  apply Bindable_eqb_eq in HE. subst. contradiction.
Qed.

Lemma cycle_unwinds P X1 st c :
  validC st c ->
  forall rest done m,
    rest <> [] ->
    NoDup (done ++ rest) ->
    In X1 (done ++ rest) ->
    (forall X, In X (done ++ rest) -> untouched st c X) ->
    chain P st c rest X1 ->
    resolve DIContainerTs P (S (List.length rest) + m) c (hd X1 rest) None
            (pushAll c done st)
    = Throw (CircularDependencyError
               (map String_
                    (resolvingStack (getC st c) ++ done ++ rest ++ [X1])))
            (pushAll c done st).
Proof.
  intros Hv. induction rest as [|Y rest IH]; intros done m Hne Hnd HX1 Hfree Hch;
    [congruence|].
  destruct (pushAll_facts c done st Hv) as (HvS & HgS & HbS).
  assert (HY : untouched st c Y)
    by (apply Hfree; apply in_or_app; right; now left).
  destruct HY as (HaY & HiY & HsY).
  assert (HYdone : ~ In Y done).
  { intros Hin. apply NoDup_remove_2 in Hnd. apply Hnd.
    apply in_or_app. now left. }
  assert (Hlook : forall Z, lookupBinding (pushAll c done st) c Z
                            = lookupBinding st c Z).
  { intros Z. unfold lookupBinding, getB. rewrite HgS, HbS. reflexivity. }
  assert (Hbuild : forall b, buildable st c b -> buildable (pushAll c done st) c b).
  { intros b [B1 B2]. split; auto. intros a Ha. rewrite HgS. simpl. now apply B2. }
  assert (Hdep : exists Z,
             dependsOn P st c Y Z /\
             resolve DIContainerTs P (S (List.length rest + m)) c Z None
                     (pushStack c Y (pushAll c done st))
             = Throw (CircularDependencyError
                        (map String_
                             (resolvingStack (getC st c) ++ done
                              ++ (Y :: rest) ++ [X1])))
                     (pushStack c Y (pushAll c done st))).
  { destruct rest as [|Z rest'].
    - exists X1. split; [exact Hch|].
      assert (HX : untouched st c X1) by (now apply Hfree).
      destruct HX as (HaX & HiX & _).
      rewrite resolve_on_stack_DI.
      + rewrite getC_pushStack by exact HvS. rewrite HgS. simpl.
        now rewrite <- !app_assoc.
      + rewrite getC_pushStack by exact HvS. rewrite HgS. exact HaX.
      + rewrite getC_pushStack by exact HvS. rewrite HgS. exact HiX.
      + rewrite getC_pushStack by exact HvS. rewrite HgS. simpl.
        apply includes_In. rewrite <- app_assoc.
        apply in_or_app. right. exact HX1.
    - destruct Hch as [HYZ Hch']. exists Z. split; [exact HYZ|].
      specialize (IH (done ++ [Y]) m).
      rewrite pushAll_app in IH. simpl in IH.
      replace (S (List.length (Z :: rest') + m))
        with (S (List.length (Z :: rest')) + m) by (simpl; lia).
      rewrite <- !app_assoc in IH. simpl in IH.
      apply IH; auto; discriminate. }
  destruct Hdep as (Z & (r & b & k & Hl & Hb & Hf) & Hres).
  replace (S (List.length (Y :: rest)) + m)
    with (S (S (List.length rest + m))) by (simpl; lia).
  simpl hd.
  apply resolve_factory_throws with (r := r) (b := b).
  - exact HvS.
  - rewrite HgS. exact HaY.
  - rewrite HgS. exact HiY.
  - rewrite HgS. simpl. rewrite includes_app, HsY. simpl.
    now apply includes_notIn.
  - now rewrite Hlook.
  - now apply Hbuild.
  - rewrite Hf. unfold resolving, bind_. now rewrite Hres.
Qed.

(** [DIContainer] detects a cycle of any length.  When the bindings
    [X1, ..., Xn] each have a factory that resolves the next one, and the
    last one resolves [X1] (a single binding that resolves itself
    included), [resolve(X1)] throws [CircularDependencyError] with the
    chain [X1, ..., Xn, X1] after what was already under construction, and
    leaves the store as it was: every resolving stack is unwound.
    (dicontainer.ts:146-191) *)
Theorem cycle_of_any_length_is_detected_by_DIContainer :
  forall P X1 rest m st c,
    validC st c ->
    NoDup (X1 :: rest) ->
    (forall X, In X (X1 :: rest) -> untouched st c X) ->
    chain P st c (X1 :: rest) X1 ->
    resolve DIContainerTs P (2 + List.length rest + m) c X1 None st
    = Throw (CircularDependencyError
               (map String_
                    (resolvingStack (getC st c) ++ (X1 :: rest) ++ [X1])))
            st.
Proof.
  intros P X1 rest m st c Hv Hnd Hfree Hch.
  apply (cycle_unwinds P X1 st c Hv (X1 :: rest) [] m); auto.
  - discriminate.
  - now left.
Qed.

Lemma cycle_of_any_length_is_detected_by_DIContainer_witness :
  resolve DIContainerTs cycleProgram 4 0 idA None cycle3Store
  = Throw (CircularDependencyError ["A"; "B"; "C"; "A"]) cycle3Store.
Proof.
  refine (cycle_of_any_length_is_detected_by_DIContainer
            cycleProgram idA [idB; idC] 0 cycle3Store 0 _ _ _ _).
  - vm_compute. lia.
  - repeat constructor; simpl; intuition discriminate.
  - intros X [<-|[<-|[<-|[]]]]; repeat split.
  - simpl. split; [|split].
    + exists 0, (mkBinding 0 Singleton VUndefined ResolverIsFactory),
        (fun v => newObject false [v]).
      split; [reflexivity|]. split; [|reflexivity].
      split; [reflexivity|intros a Ha; discriminate Ha].
    + exists 1, (mkBinding 1 Transient VUndefined ResolverIsFactory),
        (fun v => newObject false [v]).
      split; [reflexivity|]. split; [|reflexivity].
      split; [intros Hl; discriminate Hl|intros a Ha; discriminate Ha].
    + exists 2, (mkBinding 2 Scoped VUndefined (ResolverOfScoped idC)),
        (fun v => newObject false [v]).
      split; [reflexivity|]. split; [|reflexivity].
      split; [intros Hl; discriminate Hl|].
      intros a Ha. inversion Ha; subst. reflexivity.
Defined.

(** In [src/mod.ts] the instance registered for a class is not returned
    unconditionally (as it is in [src/container.ts]): [resolve] first runs
    the detection of cycles over the class's [paramTypes], and when the
    first of them is bound to nothing it throws
    [UnresolvedDependencyError] for it; the instance is never reached.
    (mod.ts:287-290, 227-251 and 68-87) *)
Theorem ModTs_instance_of_a_class_is_still_checked :
  forall (World : Type) (E : ModTs.Env World) c p rest v
         (s : ModTs.Container World),
    ModTs.prototype E c = true ->
    ModTs.paramTypes E c = Some (p :: rest) ->
    match p with
    | ModTs.Fun id => ModTs.prototype E id = true /\ id <> c
    | _ => True
    end ->
    ModTs.truthy p = true ->
    map_get ModTs.Val_eqb (ModTs.bindings s) p = None ->
    exists s',
      ModTs.instance (ModTs.Fun c) v s = ModTs.Returns tt s' /\
      forall n,
        ModTs.resolve E (2 + n) (ModTs.Fun c) s'
        = ModTs.Throws (ModTs.UnresolvedDependencyError (ModTs.String_ E p)) s'.
Proof.
  intros World E c p rest v s Hpc Htc Hp Htruthy Hnone.
  eexists. split; [reflexivity|]. intros n.
  match goal with
  | |- ModTs.resolve E _ _ ?s1 = _ =>
      change (ModTs.resolve E (2 + n) (ModTs.Fun c) s1)
        with (ModTs.resolveStep E (ModTs.resolve E (S n)) (S n)
                                (ModTs.Fun c) s1)
  end.
  set (self := ModTs.resolve E (S n)).
  unfold ModTs.resolveStep. simpl ModTs.bindings.
  rewrite vmap_get_set_same, Hpc.
  unfold ModTs.andThen at 1. unfold ModTs.andThen at 1.
  rewrite detect_enters by reflexivity.
  rewrite Htc. cbn [app ModTs.forEachParamType].
  assert (Hne : ModTs.Fun c <> p).
  { destruct p; try discriminate. destruct Hp as [_ Hp]. congruence. }
  assert (Hact : match p with
                 | ModTs.Fun id =>
                     if ModTs.prototype E id then ModTs.ret p
                     else ModTs.call E id self []
                 | _ => ModTs.ret p
                 end = ModTs.ret p).
  { destruct p; auto. destruct Hp as [Hp _]. now rewrite Hp. }
  rewrite Hact. unfold ModTs.andThen at 1. unfold ModTs.ret at 1.
  rewrite Htruthy. cbn [negb]. simpl ModTs.bindings.
  rewrite vmap_get_set_other by exact Hne. now rewrite Hnone.
Qed.

Lemma ModTs_instance_of_a_class_is_still_checked_witness :
  exists s',
    ModTs.instance (ModTs.Fun 2) (ModTs.Obj 20) newModContainer
    = ModTs.Returns tt s' /\
    forall n,
      ModTs.resolve sampleEnv (2 + n) (ModTs.Fun 2) s'
      = ModTs.Throws (ModTs.UnresolvedDependencyError "class Service { }") s'.
Proof.
  refine (ModTs_instance_of_a_class_is_still_checked
            nat sampleEnv 2 (ModTs.Fun 3) [] (ModTs.Obj 20) newModContainer
            _ _ _ _ _);
    first [ reflexivity | split; [reflexivity|discriminate] ].
Defined.

(** ** Disposal of a tree of scopes *)

Lemma scopesBelow_older n st :
  olderParents st ->
  forall k q, In q (scopesBelow n st k) -> k <= q.
Proof.
  intros Ho. induction n as [|n IH]; simpl; intros k q H; [contradiction|].
  destruct H as [<-|H]; [lia|].
  apply in_flat_map in H. destruct H as (k' & Hk' & Hq).
  destruct (Ho k k' Hk'). specialize (IH k' q Hq). lia.
Qed.

Lemma scopesBelow_parent n st :
  forall k q,
    In q (scopesBelow n st k) ->
    q = k \/ exists p, In p (scopesBelow n st k) /\ In q (children (getC st p)).
Proof.
  induction n as [|n IH]; simpl; intros k q H; [contradiction|].
  destruct H as [<-|H]; [now left|]. right.
  apply in_flat_map in H. destruct H as (k' & Hk' & Hq).
  destruct (IH k' q Hq) as [->|(p & Hp & Hqp)].
  - exists k. split; [now left|exact Hk'].
  - exists p. split; [|exact Hqp].
    right. apply in_flat_map. exists k'. split; auto.
Qed.

Lemma siblings_disjoint st c k k' n m :
  olderParents st -> ownedOnce st ->
  In k (children (getC st c)) -> In k' (children (getC st c)) -> k <> k' ->
  forall q, In q (scopesBelow n st k) -> In q (scopesBelow m st k') -> False.
Proof.
  intros Ho [_ Hown] Hk Hk' Hne q.
  induction q as [q IHq] using lt_wf_ind. intros H1 H2.
  destruct (scopesBelow_parent _ _ _ _ H1) as [E1|(p & Hp & Hqp)];
    destruct (scopesBelow_parent _ _ _ _ H2) as [E2|(p' & Hp' & Hqp')].
  - congruence.
  - subst q. assert (p' = c) by (eapply Hown; eauto). subst p'.
    pose proof (scopesBelow_older _ _ Ho _ _ Hp').
    destruct (Ho c k' Hk'). lia.
  - subst q. assert (p = c) by (eapply Hown; eauto). subst p.
    pose proof (scopesBelow_older _ _ Ho _ _ Hp).
    destruct (Ho c k Hk). lia.
  - assert (p = p') by (eapply Hown; eauto). subst p'.
    apply (IHq p); auto. destruct (Ho p q Hqp). lia.
Qed.

Lemma flat_map_ext_In {A B} (f g : A -> list B) l :
  (forall a, In a l -> f a = g a) -> flat_map f l = flat_map g l.
Proof.
  induction l as [|a l IH]; intros H; simpl; auto.
  rewrite (H a) by now left. rewrite IH; auto.
  intros b Hb. apply H. now right.
Qed.

Lemma below_ext n :
  forall st s k,
    bindingObjects s = bindingObjects st ->
    (forall q, In q (scopesBelow n st k) -> getC s q = getC st q) ->
    scopesBelow n s k = scopesBelow n st k /\ releases n s k = releases n st k.
Proof.
  induction n as [|n IH]; intros st s k Hb Hsame; simpl; [auto|].
  assert (Hk : getC s k = getC st k) by (apply Hsame; simpl; now left).
  rewrite Hk.
  assert (Hsub : forall k', In k' (children (getC st k)) ->
                            scopesBelow n s k' = scopesBelow n st k' /\
                            releases n s k' = releases n st k').
  { intros k' Hk'. apply IH; auto.
    intros q Hq. apply Hsame. simpl. right.
    apply in_flat_map. exists k'. split; auto. }
  split.
  - f_equal. apply flat_map_ext_In. intros k' Hk'. now apply Hsub.
  - rewrite (ownReleases_ext st s k Hb Hk). f_equal.
    apply flat_map_ext_In. intros k' Hk'. now apply Hsub.
Qed.

Lemma wellFormed_preserved st st' :
  wellFormed st ->
  bindingObjects st' = bindingObjects st ->
  List.length (containers st') = List.length (containers st) ->
  (forall q, getC st' q = getC st q \/ getC st' q = cleared (getC st q)) ->
  wellFormed st'.
Proof.
  intros (Ho & (Hnd & Hown) & Hnp) Hb Hlen Hsc. split; [|split].
  - eapply olderParents_preserved; eauto.
  - split.
    + intros c. destruct (Hsc c) as [E|E]; rewrite E; simpl; auto. constructor.
    + intros c1 c2 k H1 H2.
      destruct (Hsc c1) as [E1|E1]; rewrite E1 in H1; [|contradiction].
      destruct (Hsc c2) as [E2|E2]; rewrite E2 in H2; [|contradiction].
      eapply Hown; eauto.
  - eapply noProxyInstance_preserved; eauto.
Qed.

Lemma dispose_scopes impl P n c w st0 :
  (forall k st, wellFormed st -> quietHooks P st -> boundedBy st w ->
                validC st k ->
                List.length (containers st) - k + w < n ->
                exists st', dispose impl P n k st = Ok tt st' /\
                            walkPost n k st st') ->
  wellFormed st0 ->
  quietHooks P st0 ->
  boundedBy st0 w ->
  List.length (containers st0) - c + w <= n ->
  forall ks s,
    NoDup ks ->
    (forall k, In k ks -> In k (children (getC st0 c))) ->
    bindingObjects s = bindingObjects st0 ->
    List.length (containers s) = List.length (containers st0) ->
    (forall q, getC s q = getC st0 q \/ getC s q = cleared (getC st0 q)) ->
    (forall k q, In k ks -> In q (scopesBelow n st0 k) -> getC s q = getC st0 q) ->
    exists s',
      forEachM (dispose impl P n) ks s = Ok tt s' /\
      bindingObjects s' = bindingObjects st0 /\
      List.length (containers s') = List.length (containers st0) /\
      disposeLog s' = disposeLog s ++ flat_map (releases n st0) ks /\
      (forall q, In q (flat_map (scopesBelow n st0) ks) ->
                 getC s' q = cleared (getC st0 q)) /\
      (forall q, ~ In q (flat_map (scopesBelow n st0) ks) ->
                 getC s' q = getC s q).
Proof.
  intros IHn Hwf0 Hqh0 Hw0 Hfuel ks.
  pose proof Hwf0 as (Ho0 & Hown0 & _).
  induction ks as [|k ks IH]; intros s Hnd Hks Hb Hlen Hsc Hint.
  - exists s. split; [reflexivity|]. simpl. rewrite app_nil_r.
    repeat split; auto. intros q [].
  - inversion Hnd as [|k0 ks0 Hnotin Hnd']; subst.
    assert (Hkc : In k (children (getC st0 c))) by (apply Hks; now left).
    destruct (Ho0 c k Hkc) as [Hck Hklen].
    assert (Hwfs : wellFormed s) by (eapply wellFormed_preserved; eauto).
    destruct (IHn k s Hwfs) as (s1 & Hd & Hb1 & Hlen1 & Hlog1 & Hcl1 & Hsame1).
    { eapply quietHooks_preserved; eauto. }
    { eapply boundedBy_preserved; eauto. }
    { unfold validC. lia. }
    { lia. }
    destruct (below_ext n st0 s k Hb) as [Esub Erel].
    { intros q Hq. apply (Hint k q); auto. now left. }
    rewrite Esub in Hcl1, Hsame1. rewrite Erel in Hlog1.
    destruct (IH s1) as (s' & Hloop & Hb' & Hlen' & Hlog' & Hcl' & Hsame').
    + exact Hnd'.
    + intros k' Hk'. apply Hks. now right.
    + congruence.
    + congruence.
    + intros q. destruct (in_dec Nat.eq_dec q (scopesBelow n st0 k)) as [Hin|Hout].
      * right. rewrite (Hcl1 q Hin). f_equal. apply (Hint k q); auto. now left.
      * rewrite (Hsame1 q Hout). apply Hsc.
    + intros k' q Hk' Hq.
      assert (Hne : k <> k') by (intros ->; contradiction).
      assert (Hout : ~ In q (scopesBelow n st0 k)).
      { intros Hin.
        apply (siblings_disjoint st0 c k k' n n Ho0 Hown0 Hkc
                                 (Hks k' (or_intror Hk')) Hne q Hin Hq). }
      rewrite (Hsame1 q Hout). apply (Hint k' q); auto. now right.
    + exists s'. split.
      { simpl. unfold bind_. rewrite Hd. exact Hloop. }
      split; [exact Hb'|]. split; [exact Hlen'|]. split.
      { rewrite Hlog', Hlog1. simpl. now rewrite <- app_assoc. }
      split.
      { intros q Hq. simpl in Hq. apply in_app_or in Hq.
        destruct (in_dec Nat.eq_dec q (flat_map (scopesBelow n st0) ks))
          as [Hin|Hout].
        - now apply Hcl'.
        - destruct Hq as [Hq|Hq]; [|contradiction].
          rewrite (Hsame' q Hout). rewrite (Hcl1 q Hq). f_equal.
          apply (Hint k q); auto. now left. }
      { intros q Hq. simpl in Hq.
        rewrite Hsame' by (intros Hin; apply Hq; apply in_or_app; now right).
        apply Hsame1. intros Hin. apply Hq. apply in_or_app. now left. }
Qed.

Lemma dispose_walk impl P w fuel :
  forall c st,
    wellFormed st -> quietHooks P st -> boundedBy st w -> validC st c ->
    List.length (containers st) - c + w < fuel ->
    exists st', dispose impl P fuel c st = Ok tt st' /\ walkPost fuel c st st'.
Proof.
  induction fuel as [|n IHn]; intros c st Hwf Hqh Hw Hv Hfuel; [lia|].
  pose proof Hwf as (Ho & (Hnd & Hown) & Hnp).
  simpl dispose. unfold bind_ at 1.
  rewrite forOf_release_all;
    [|assumption|assumption|destruct (Hw c); unfold validC in Hv; lia].
  set (sA := appendLog st (ownReleases st c)).
  assert (HkA : forall q, getC sA q = getC st q) by reflexivity.
  unfold bind_ at 1.
  rewrite (forOf_scopes impl P n c w sA disposePost disposePost_frame
             (dispose_post impl P w n));
    try assumption;
    [|change (List.length (containers st) - c + w <= n); lia].
  destruct (dispose_scopes impl P n c w st IHn Hwf Hqh Hw ltac:(lia)
                           (children (getC sA c)) sA)
    as (s2 & Hloop & Hb2 & Hlen2 & Hlog2 & Hcl2 & Hsame2).
  - apply Hnd.
  - intros k Hk. exact Hk.
  - reflexivity.
  - reflexivity.
  - intros q. now left.
  - intros k q _ _. apply HkA.
  - rewrite Hloop.
    eexists. split; [reflexivity|].
    change (children (getC sA c)) with (children (getC st c)) in *.
    assert (Hcout : ~ In c (flat_map (scopesBelow n st) (children (getC st c)))).
    { intros Hin. apply in_flat_map in Hin. destruct Hin as (k & Hk & Hq).
      pose proof (scopesBelow_older _ _ Ho _ _ Hq).
      destruct (Ho c k Hk). lia. }
    assert (Hc2 : getC s2 c = getC st c) by (rewrite Hsame2 by exact Hcout; apply HkA).
    assert (Hv2 : validC s2 c) by (unfold validC in *; now rewrite Hlen2).
    unfold walkPost. split; [exact Hb2|].
    split; [unfold setC; simpl; rewrite list_upd_length; exact Hlen2|].
    split.
    { change (disposeLog s2 = disposeLog st ++ releases (S n) st c).
      rewrite Hlog2. unfold sA; simpl. now rewrite <- app_assoc. }
    split.
    { intros q Hq. simpl in Hq. destruct Hq as [<-|Hq].
      - rewrite getC_setC_same by exact Hv2. now rewrite Hc2.
      - rewrite getC_setC_other by (intros ->; contradiction).
        now apply Hcl2. }
    { intros q Hq. simpl in Hq.
      rewrite getC_setC_other by (intros ->; apply Hq; now left).
      rewrite Hsame2 by (intros Hin; apply Hq; now right).
      apply HkA. }
Qed.

(** When the [dispose] methods of the cached instances return normally
    and leave the store alone, [dispose] walks the tree of scopes in
    pre-order, to any depth: first the [dispose] methods of the instances
    cached on the container's own bindings, in binding order, then, for
    each scope made by [createScope] in the order of creation, the same
    walk of that scope.  Every container the walk goes through ends up
    emptied and no other container is touched.  (container.ts:302-317) *)
Theorem dispose_walks_the_scopes_in_preorder :
  forall impl P fuel w st c,
    wellFormed st ->
    quietHooks P st ->
    boundedBy st w ->
    validC st c ->
    List.length (containers st) - c + w < fuel ->
    exists st',
      dispose impl P fuel c st = Ok tt st' /\
      disposeLog st' = disposeLog st ++ releases fuel st c /\
      (forall q, In q (scopesBelow fuel st c) ->
                 getC st' q = cleared (getC st q)) /\
      (forall q, ~ In q (scopesBelow fuel st c) -> getC st' q = getC st q).
Proof.
  intros impl P fuel w st c Hwf Hqh Hw Hv Hfuel.
  destruct (dispose_walk impl P w fuel c st Hwf Hqh Hw Hv Hfuel)
    as (st' & Hd & _ & _ & Hlog & Hcl & Hsame).
  exists st'. auto.
Qed.

Lemma dispose_walks_the_scopes_in_preorder_witness :
  exists st',
    dispose ContainerTs sampleProgram2 7 0 (nestedScopesStore ContainerTs)
    = Ok tt st' /\
    disposeLog st' = [3; 2; 1; 0] /\
    (forall q, In q [0; 1; 2; 3] ->
               getC st' q
               = cleared (getC (nestedScopesStore ContainerTs) q)).
Proof.
  destruct (dispose_walks_the_scopes_in_preorder
              ContainerTs sampleProgram2 7 2 (nestedScopesStore ContainerTs) 0)
    as (st' & Hd & Hlog & Hcl & _).
  - assert (Hch : forall c k,
               In k (children (getC (nestedScopesStore ContainerTs) c)) ->
               (c = 0 /\ (k = 1 \/ k = 3)) \/ (c = 1 /\ k = 2)).
    { intros c k Hin. unfold getC in Hin.
      let x := eval vm_compute in (containers (nestedScopesStore ContainerTs)) in
      change (containers (nestedScopesStore ContainerTs)) with x in Hin.
      destruct c as [|[|[|[|[|c]]]]]; simpl in Hin; try contradiction.
      - destruct Hin as [<-|[<-|[]]]; auto.
      - destruct Hin as [<-|[]]; auto. }
    split; [|split].
    + intros c k Hin. destruct (Hch c k Hin) as [(-> & [->| ->])|(-> & ->)];
        vm_compute; lia.
    + split.
      * intros c. unfold getC.
        let x := eval vm_compute in (containers (nestedScopesStore ContainerTs)) in
        change (containers (nestedScopesStore ContainerTs)) with x.
        destruct c as [|[|[|[|[|c]]]]]; simpl; repeat constructor; simpl; intuition lia.
      * intros c1 c2 k H1 H2.
        destruct (Hch c1 k H1) as [(E1 & [K1|K1])|(E1 & K1)];
          destruct (Hch c2 k H2) as [(E2 & [K2|K2])|(E2 & K2)]; lia.
    + intros r b Hg. unfold getB in Hg.
      let x := eval vm_compute in (bindingObjects (nestedScopesStore ContainerTs)) in
      change (bindingObjects (nestedScopesStore ContainerTs)) with x in Hg.
      destruct r as [|[|[|[|[|r]]]]]; simpl in Hg;
        try (inversion Hg; subst; exact I); discriminate.
  - intros r b o fs _ _ self s. reflexivity.
  - intros q. unfold getC.
    let x := eval vm_compute in (containers (nestedScopesStore ContainerTs)) in
    change (containers (nestedScopesStore ContainerTs)) with x.
    destruct q as [|[|[|[|[|q]]]]]; simpl; lia.
  - vm_compute. lia.
  - vm_compute. lia.
  - exists st'. split; [exact Hd|]. split.
    + rewrite Hlog. vm_compute. reflexivity.
    + intros q Hq. apply Hcl. vm_compute. exact Hq.
Defined.
